(** * Welth finance platform: receipt scanning, scanner widget and
      dashboard actions

    A shallow embedding of
      - [src/actions/transaction.js]  ([scanReceipt]),
      - the [ReceiptScanner] component (its result-handling effect),
      - [src/actions/dashboard.js]    ([getUserAccounts], [getDashboardData],
        [createAccount]),
    followed by the properties stated about them.

    JavaScript strings are sequences of UTF-16 code units, numbers are
    IEEE-754 doubles ([spec_float]), [throw]/[try]/[catch] is an error monad,
    and everything the program obtains from outside (the HTTP endpoints,
    [JSON.parse], the [Date] constructor, the clock, the database driver) is a
    field of an explicit world record. *)

From Stdlib Require Import List ZArith NArith Lia Bool Ascii String DecimalString.
From Stdlib Require Import Floats.SpecFloat.
From Stdlib Require Import Sorting.Sorted.
Import ListNotations.

Set Implicit Arguments.
Set Warnings "-register-all".

(* ================================================================== *)
(** * The JavaScript fragment the program uses *)
(* ================================================================== *)

Module JS.

(** ** Strings *)

Definition code_unit := N.
Definition jsstring := list code_unit.

(** A literal of the source text, as code units. *)
Definition lit (s : string) : jsstring :=
  map N_of_ascii (list_ascii_of_string s).

Definition dquote : code_unit := 34%N.
Definition newline : code_unit := 10%N.
Definition backtick : code_unit := 96%N.
Definition lbrace : code_unit := 123%N.
Definition rbrace : code_unit := 125%N.

(** ["s"] with its double quotes, for JSON text. *)
Definition quoted (s : string) : jsstring := dquote :: lit s ++ [dquote].

Fixpoint str_eqb (a b : jsstring) : bool :=
  match a, b with
  | [], [] => true
  | x :: a', y :: b' => N.eqb x y && str_eqb a' b'
  | _, _ => false
  end.

(** WhiteSpace and LineTerminator code units: what [String.prototype.trim]
    removes and what [\s] matches. *)
Definition isWhiteSpace (c : code_unit) : bool :=
  existsb (N.eqb c)
    [9; 10; 11; 12; 13; 32; 160; 5760; 8232; 8233; 8239; 8287; 12288; 65279]%N
  || (N.leb 8192 c && N.leb c 8202).

Fixpoint trimStart (s : jsstring) : jsstring :=
  match s with
  | c :: s' => if isWhiteSpace c then trimStart s' else s
  | [] => []
  end.

Definition trimEnd (s : jsstring) : jsstring := rev (trimStart (rev s)).

Definition trim (s : jsstring) : jsstring := trimEnd (trimStart s).

(** [dropPrefix p s]: the rest of [s] after its prefix [p], if [s] starts
    with [p]. *)
Fixpoint dropPrefix (p s : jsstring) : option jsstring :=
  match p, s with
  | [], _ => Some s
  | x :: p', y :: s' => if N.eqb x y then dropPrefix p' s' else None
  | _ :: _, [] => None
  end.

Definition startsWith (s p : jsstring) : bool :=
  match dropPrefix p s with Some _ => true | None => false end.

(** [String.prototype.includes] *)
Fixpoint includes (s sub : jsstring) : bool :=
  startsWith s sub ||
  match s with
  | [] => false
  | _ :: s' => includes s' sub
  end.

(** [String.prototype.indexOf]: index of the first occurrence, or -1. *)
Fixpoint indexOf (s pat : jsstring) : Z :=
  if startsWith s pat then 0%Z
  else match s with
       | [] => (-1)%Z
       | _ :: s' => let r := indexOf s' pat in
                    if (r <? 0)%Z then (-1)%Z else (1 + r)%Z
       end.

(** [String.prototype.lastIndexOf]: index of the last occurrence, or -1. *)
Fixpoint lastIndexOf (s pat : jsstring) : Z :=
  match s with
  | [] => if startsWith [] pat then 0%Z else (-1)%Z
  | _ :: s' => let r := lastIndexOf s' pat in
               if (0 <=? r)%Z then (1 + r)%Z
               else if startsWith s pat then 0%Z else (-1)%Z
  end.

(** [String.prototype.substring]: both indices are clamped to
    [0 .. length] and swapped when out of order. *)
Definition substring (s : jsstring) (a b : Z) : jsstring :=
  let len := Z.of_nat (List.length s) in
  let a' := Z.min (Z.max a 0) len in
  let b' := Z.min (Z.max b 0) len in
  let lo := Z.min a' b' in
  let hi := Z.max a' b' in
  firstn (Z.to_nat (hi - lo)) (skipn (Z.to_nat lo) s).

(** [String.prototype.split] with a one-code-unit separator. *)
Fixpoint split (s : jsstring) (sep : code_unit) : list jsstring :=
  match s with
  | [] => [[]]
  | c :: s' =>
      if N.eqb c sep then [] :: split s' sep
      else match split s' sep with
           | h :: t => (c :: h) :: t
           | [] => [[c]]
           end
  end.

(** [Array.prototype.join] on an array of strings. *)
Fixpoint join (l : list jsstring) (sep : jsstring) : jsstring :=
  match l with
  | [] => []
  | [x] => x
  | x :: l' => x ++ sep ++ join l' sep
  end.

(** Decimal text of a non-negative integer, as a template literal prints
    it. *)
Definition String_of_N (n : N) : jsstring :=
  lit (NilZero.string_of_uint (N.to_uint n)).

(** ** Numbers *)

Definition number := spec_float.

Definition num_zero : number := S754_zero false.

(** [Math.abs] *)
Definition Math_abs (x : number) : number := SFabs x.

(** [a > b] *)
Definition num_gt (a b : number) : bool := SFltb b a.

(** [a >= b] *)
Definition num_ge (a b : number) : bool := SFleb b a.

(** ** Dates: a time value in milliseconds, or Invalid Date *)

Inductive Date := ValidDate (ms : Z) | InvalidDate.

Definition isValidDate (d : Date) : bool :=
  match d with ValidDate _ => true | InvalidDate => false end.

(** ** Values produced by a JSON decoder *)

(** A JSON numeric literal denotes a finite double, a signed zero or, on
    overflow, an infinity; it never denotes NaN. *)
Inductive jsonNumber :=
| JN_zero (neg : bool)
| JN_infinity (neg : bool)
| JN_finite (neg : bool) (m : positive) (e : Z).

Definition Number_of (n : jsonNumber) : number :=
  match n with
  | JN_zero s => S754_zero s
  | JN_infinity s => S754_infinity s
  | JN_finite s m e => S754_finite s m e
  end.

Inductive json :=
| JNull
| JBool (b : bool)
| JNum (n : jsonNumber)
| JStr (s : jsstring)
| JArr (l : list json)
| JObj (members : list (jsstring * json)).

(** A JavaScript value of this program: a decoded value or [undefined]. *)
Definition value := option json.
Definition undefined : value := None.

Definition truthy_json (j : json) : bool :=
  match j with
  | JNull => false
  | JBool b => b
  | JNum (JN_zero _) => false
  | JNum _ => true
  | JStr s => match s with [] => false | _ => true end
  | JArr _ | JObj _ => true
  end.

Definition truthy (v : value) : bool :=
  match v with None => false | Some j => truthy_json j end.

Fixpoint lookup (members : list (jsstring * json)) (k : jsstring) : value :=
  match members with
  | [] => None
  | (k', v) :: rest => if str_eqb k' k then Some v else lookup rest k
  end.

(** Property keys the program reads: a name ([x.amount]) or an index
    ([x[0]]). *)
Inductive key := Name (s : string) | Index (i : nat).

(** [v[k]] for a decoded value [v] other than [null]: own members of an
    object, elements of an array, code units of a string.  None of the
    names the program reads ([candidates], [content], [parts], [text],
    [amount], [date], [description], [merchantName], [category]) is
    inherited from a prototype, so everything else is [undefined]. *)
Definition get (v : json) (k : key) : value :=
  match v, k with
  | JObj m, Name s => lookup m (lit s)
  | JObj m, Index i => lookup m (String_of_N (N.of_nat i))
  | JArr l, Index i => nth_error l i
  | JStr s, Index i =>
      match nth_error s i with Some c => Some (JStr [c]) | None => None end
  | _, _ => None
  end.

(** [v?.[k]] *)
Definition optGet (v : value) (k : key) : value :=
  match v with
  | None | Some JNull => None
  | Some j => get j k
  end.

(** ** Errors and completions *)

Record Error := mkError { message : jsstring }.

Inductive Completion (A : Type) :=
| Normal (a : A)
| Throw (e : Error).
Arguments Normal {A} a.
Arguments Throw {A} e.

(** ** Effects

    A computation reads and updates a state of type [S] (the requests made
    so far, or the database) and completes normally or by a [throw]; the
    state survives a [throw]. *)

Definition Eff (S A : Type) := S -> Completion A * S.

Definition ret {S A} (a : A) : Eff S A := fun st => (Normal a, st).

Definition throw {S A} (e : Error) : Eff S A := fun st => (Throw e, st).

Definition bind {S A B} (m : Eff S A) (f : A -> Eff S B) : Eff S B :=
  fun st => match m st with
            | (Normal a, st') => f a st'
            | (Throw e, st') => (Throw e, st')
            end.

(** [try { m } catch (error) { handler error }] *)
Definition tryCatch {S A} (m : Eff S A) (handler : Error -> Eff S A)
  : Eff S A :=
  fun st => match m st with
            | (Normal a, st') => (Normal a, st')
            | (Throw e, st') => handler e st'
            end.

Definition lift {S A} (c : Completion A) : Eff S A := fun st => (c, st).

Definition new_Error (msg : jsstring) : Error := mkError msg.

End JS.
Import JS.

Notation "x <- m ;; k" := (bind m (fun x => k))
  (at level 61, m at next level, right associativity).
Notation "m ;;; k" := (bind m (fun _ => k))
  (at level 61, right associativity).

(* ================================================================== *)
(** * src/actions/transaction.js : scanReceipt *)
(* ================================================================== *)

Module Transaction.

(** ** What the call receives and what surrounds it *)

Record File := mkFile { file_size : N; file_type : jsstring }.

(** An entry of a [FormData] is a file or a string. *)
Inductive FormEntry := FileEntry (f : File) | StringEntry (s : jsstring).

Definition FormData := list (jsstring * FormEntry).

(** [formData.get(name)]: the first entry of that name, or [null]. *)
Fixpoint formData_get (fd : FormData) (name : jsstring) : option FormEntry :=
  match fd with
  | [] => None
  | (k, v) :: rest => if str_eqb k name then Some v else formData_get rest name
  end.

(** An element of [defaultCategories] (the module [@/data/categories] is
    not part of the sources at hand; the table is a field of the world). *)
Record Category := mkCategory { cat_id : jsstring; cat_type : jsstring }.

(** An HTTP response: status line and the outcome of reading its body as
    JSON ([response.json()]) or as text ([response.text()]). *)
Record Response := mkResponse {
  status : N;
  statusText : jsstring;
  body_json : Completion json;
  body_text : Completion jsstring
}.

(** [response.ok]: the status is in 200..299. *)
Definition ok (r : Response) : bool :=
  N.leb 200 (status r) && N.leb (status r) 299.

(** [fetch] resolves with a response or rejects. *)
Inductive FetchOutcome := Rejected (e : Error) | Resolved (r : Response).

Record World := mkWorld {
  GEMINI_API_KEY : option jsstring;       (* process.env.GEMINI_API_KEY *)
  defaultCategories : list Category;
  fetch : jsstring -> FetchOutcome;       (* by request URL; every request
                                             of a call carries the same body *)
  JSON_parse : jsstring -> option json;   (* [None]: SyntaxError *)
  new_Date : json -> Completion Date;     (* [new Date(v)] *)
  now : Z;                                (* the time [new Date()] reads *)
  msg_null_property : jsstring;           (* TypeError: property of null *)
  msg_not_a_function : jsstring           (* TypeError: not a function *)
}.

Record ExtractionResult := mkResult {
  amount : number;
  date : Date;
  description : jsstring;
  merchantName : jsstring;
  category : jsstring
}.

(** ** Effects: requests made so far, and completions *)

Definition NetLog := list jsstring.

Definition M (A : Type) := Eff NetLog A.

(** [await fetch(url, ...)]: the request is made, then the promise
    settles. *)
Definition await_fetch (w : World) (url : jsstring) : M Response :=
  fun l => match fetch w url with
           | Resolved r => (Normal r, l ++ [url])
           | Rejected e => (Throw e, l ++ [url])
           end.

(** ** Constants of the function *)

Definition sentinel : jsstring := lit "other-expense".

Definition maxFileSize : N := (5 * 1024 * 1024)%N.

Definition endpointsToTry : list jsstring :=
  [ lit "https://generativelanguage.googleapis.com/v1beta/models/gemini-1.5-flash-002:generateContent";
    lit "https://generativelanguage.googleapis.com/v1beta/models/gemini-1.5-pro-002:generateContent";
    lit "https://generativelanguage.googleapis.com/v1beta/models/gemini-2.5-flash-preview-05-20:generateContent";
    lit "https://generativelanguage.googleapis.com/v1beta/models/gemini-2.5-pro-preview-03-25:generateContent" ].

Definition requestUrl (endpoint key : jsstring) : jsstring :=
  endpoint ++ lit "?key=" ++ key.

(** [defaultCategories.filter(cat => cat.type === 'EXPENSE').map(cat => cat.id)] *)
Definition expenseCategoryIds (w : World) : list jsstring :=
  map cat_id
    (filter (fun cat => str_eqb (cat_type cat) (lit "EXPENSE"))
            (defaultCategories w)).

Definition validExpenseCategories (w : World) : jsstring :=
  join (expenseCategoryIds w) (lit ",").

(** ** The endpoint loop (lines 315-362) *)

Record LoopState := mkLoop { apiResponse : json; lastError : option Error }.

Inductive Step := Break (payload : json) | Continue (err : Error).

(** One iteration: the body of the [for], inside its [try]/[catch]. *)
Definition attempt (w : World) (key endpoint : jsstring) : M Step :=
  tryCatch
    (response <- await_fetch w (requestUrl endpoint key) ;;
     if ok response then
       payload <- lift (body_json response) ;;
       ret (Break payload)
     else
       errorText <- lift (body_text response) ;;
       ret (Continue (new_Error
              (lit "API request failed: " ++ String_of_N (status response)
               ++ lit " " ++ statusText response ++ lit " - " ++ errorText))))
    (fun error => ret (Continue error)).

Fixpoint tryEndpoints (w : World) (key : jsstring) (endpoints : list jsstring)
         (st : LoopState) : M LoopState :=
  match endpoints with
  | [] => ret st
  | endpoint :: rest =>
      r <- attempt w key endpoint ;;
      match r with
      | Break payload => ret (mkLoop payload (lastError st))
      | Continue err => tryEndpoints w key rest (mkLoop (apiResponse st) (Some err))
      end
  end.

(** ** Fence stripping (line 378)

    [jsonString.replace(/```(?:json)?\s*([\s\S]*?)\s*```/g, "$1")],
    as a backtracking matcher in continuation-passing style: each
    quantifier tries its alternatives in the order the regular expression
    engine does. *)

Definition fence : jsstring := lit "```".

(** a literal *)
Definition re_lit {R} (p : jsstring) (s : jsstring)
           (k : jsstring -> option R) : option R :=
  match dropPrefix p s with
  | Some s' => k s'
  | None => None
  end.

(** [(?:p)?], greedy: with [p] first, then without *)
Definition re_opt {R} (p : jsstring) (s : jsstring)
           (k : jsstring -> option R) : option R :=
  match re_lit p s k with
  | Some r => Some r
  | None => k s
  end.

(** [\s*], greedy: the longest run first, then shorter ones *)
Fixpoint re_ws_star {R} (s : jsstring) (k : jsstring -> option R) : option R :=
  match s with
  | c :: s' =>
      if isWhiteSpace c then
        match re_ws_star s' k with
        | Some r => Some r
        | None => k s
        end
      else k s
  | [] => k []
  end.

(** [([\s\S]*?)], lazy: the shortest capture first; [acc] is the capture
    so far, reversed *)
Fixpoint re_any_lazy {R} (acc : jsstring) (s : jsstring)
         (k : jsstring -> jsstring -> option R) : option R :=
  match k (rev acc) s with
  | Some r => Some r
  | None =>
      match s with
      | c :: s' => re_any_lazy (c :: acc) s' k
      | [] => None
      end
  end.

(** A match of the whole expression at the start of [s]: capture group 1
    and the input after the match. *)
Definition matchFence (s : jsstring) : option (jsstring * jsstring) :=
  re_lit fence s (fun s1 =>
  re_opt (lit "json") s1 (fun s2 =>
  re_ws_star s2 (fun s3 =>
  re_any_lazy [] s3 (fun group1 s4 =>
  re_ws_star s4 (fun s5 =>
  re_lit fence s5 (fun s6 =>
  Some (group1, s6))))))).

(** The global replace: scan left to right; at a match emit ["$1"] and
    resume after the match ([skip] counts the code units of the current
    match still to pass over); elsewhere copy one code unit. *)
Fixpoint replaceFences (skip : nat) (s : jsstring) : jsstring :=
  match s with
  | [] => []
  | c :: s' =>
      match skip with
      | S n => replaceFences n s'
      | O =>
          match matchFence s with
          | Some (group1, rest) =>
              group1 ++ replaceFences (List.length s' - List.length rest) s'
          | None => c :: replaceFences 0 s'
          end
      end
  end.

(** ** Candidate JSON span (lines 375-386) *)

Definition extractJsonString (text : jsstring) : jsstring :=
  let jsonString := trim text in
  let jsonString := trim (replaceFences 0 jsonString) in
  let jsonStart := indexOf jsonString (lit "{") in
  let jsonEnd := lastIndexOf jsonString (lit "}") in
  if negb (jsonStart =? -1)%Z && negb (jsonEnd =? -1)%Z && (jsonEnd >? jsonStart)%Z
  then substring jsonString jsonStart (jsonEnd + 1)
  else jsonString.

(** ** The text of the model's answer (line 371) *)

(** [apiResponse.candidates?.[0]?.content?.parts?.[0]?.text || ""] *)
Definition extractText (w : World) (apiResponse : json) : M json :=
  match apiResponse with
  | JNull => throw (new_Error (msg_null_property w))
  | _ =>
      let t := optGet (optGet (optGet (optGet (optGet
                 (get apiResponse (Name "candidates"))
                 (Index 0)) (Name "content")) (Name "parts")) (Index 0))
                 (Name "text") in
      match t with
      | Some j => ret (if truthy_json j then j else JStr [])
      | None => ret (JStr [])
      end
  end.

(** [text.trim()] exists on strings only. *)
Definition asString (w : World) (text : json) : M jsstring :=
  match text with
  | JStr s => ret s
  | _ => throw (new_Error (msg_not_a_function w))
  end.

(** ** Validation of the decoded payload (lines 391-414) *)

(** [typeof data.amount === 'number' ? Math.abs(data.amount) : 0] *)
Definition sanitizeAmount (data : json) : number :=
  match get data (Name "amount") with
  | Some (JNum n) => Math_abs (Number_of n)
  | _ => num_zero
  end.

(** [data.date ? new Date(data.date) : new Date()] *)
Definition sanitizeDate (w : World) (data : json) : M Date :=
  match get data (Name "date") with
  | Some d => if truthy_json d then lift (new_Date w d)
              else ret (ValidDate (now w))
  | None => ret (ValidDate (now w))
  end.

(** [typeof x === 'string' && x.trim() ? x.trim() : placeholder] *)
Definition sanitizeText (x : value) (placeholder : jsstring) : jsstring :=
  match x with
  | Some (JStr s) =>
      match trim s with
      | [] => placeholder
      | t => t
      end
  | _ => placeholder
  end.

(** [validCategoryList.includes(x)]: only a string can equal a string. *)
Definition Array_includes (l : list jsstring) (x : json) : bool :=
  match x with
  | JStr s => existsb (str_eqb s) l
  | _ => false
  end.

Definition validCategoryList (w : World) : list jsstring :=
  split (validExpenseCategories w) 44%N.

Definition sanitizeCategory (w : World) (data : json) : jsstring :=
  match get data (Name "category") with
  | Some (JStr c) =>
      if truthy_json (JStr c) && Array_includes (validCategoryList w) (JStr c)
      then c else sentinel
  | _ => sentinel
  end.

Definition sanitize (w : World) (data : json) : M ExtractionResult :=
  match data with
  | JNull => throw (new_Error (msg_null_property w))
  | _ =>
      let amount := sanitizeAmount data in
      date <- sanitizeDate w data ;;
      let description :=
        sanitizeText (get data (Name "description")) (lit "Receipt scan") in
      let merchantName :=
        sanitizeText (get data (Name "merchantName")) (lit "Unknown merchant") in
      let category := sanitizeCategory w data in
      ret (mkResult amount date description merchantName category)
  end.

(** The result of the inner [catch] (lines 420-426). *)
Definition formatNotRecognized (w : World) : ExtractionResult :=
  mkResult num_zero (ValidDate (now w))
    (lit "Receipt scan - AI response format not recognized. Please manually enter details.")
    (lit "Unknown merchant")
    sentinel.

(** The inner [try]/[catch] (lines 390-427). *)
Definition parseAndValidate (w : World) (jsonString : jsstring)
  : M ExtractionResult :=
  tryCatch
    (match JSON_parse w jsonString with
     | Some data => sanitize w data
     | None => throw (new_Error (lit "SyntaxError"))
     end)
    (fun parseError => ret (formatNotRecognized w)).

(** Lines 370-427: from the kept response to a result. *)
Definition processResponse (w : World) (apiResponse : json)
  : M ExtractionResult :=
  text <- extractText w apiResponse ;;
  text <- asString w text ;;
  parseAndValidate w (extractJsonString text).

(** The result of the outer [catch] (lines 432-438). *)
Definition errorResult (w : World) (error : Error) : ExtractionResult :=
  mkResult num_zero (ValidDate (now w))
    (lit "Error: " ++ message error
     ++ lit ". Please manually enter receipt details.")
    (lit "Error occurred")
    sentinel.

(** [file.size > 5 * 1024 * 1024]; a string entry has no [size], and
    [undefined > n] is false. *)
Definition oversize (file : FormEntry) : bool :=
  match file with
  | FileEntry f => N.ltb maxFileSize (file_size f)
  | StringEntry _ => false
  end.

(** [!file] *)
Definition missing (file : option FormEntry) : bool :=
  match file with
  | None => true
  | Some (StringEntry []) => true
  | Some _ => false
  end.

(** [file.arrayBuffer()] exists on files only; reading the bytes of a
    received file succeeds. *)
Definition arrayBuffer (w : World) (file : option FormEntry) : M unit :=
  match file with
  | Some (FileEntry _) => ret tt
  | _ => throw (new_Error (msg_not_a_function w))
  end.

(** [process.env.GEMINI_API_KEY] as the condition and the URL use it. *)
Definition apiKey (w : World) : jsstring :=
  match GEMINI_API_KEY w with Some k => k | None => lit "undefined" end.

(** The body of the outer [try] (lines 257-427). *)
Definition scanReceipt_try (w : World) (formData : FormData)
  : M ExtractionResult :=
  let file := formData_get formData (lit "file") in
  (if missing file then throw (new_Error (lit "No file provided"))
   else ret tt) ;;;
  (if match file with Some f => oversize f | None => false end
   then throw (new_Error (lit "File size should be less than 5MB"))
   else ret tt) ;;;
  (if match GEMINI_API_KEY w with Some (_ :: _) => false | _ => true end
   then throw (new_Error
          (lit "GEMINI_API_KEY is not configured in environment variables"))
   else ret tt) ;;;
  arrayBuffer w file ;;;
  st <- tryEndpoints w (apiKey w) endpointsToTry (mkLoop JNull None) ;;
  (match lastError st with
   | Some err => if negb (truthy_json (apiResponse st)) then throw err else ret tt
   | None => ret tt
   end) ;;;
  processResponse w (apiResponse st).

(** [scanReceipt] (lines 255-440). *)
Definition scanReceipt (w : World) (formData : FormData)
  : M ExtractionResult :=
  tryCatch (scanReceipt_try w formData)
           (fun error => ret (errorResult w error)).

(** A call starts with no request made. *)
Definition run {A} (m : M A) : Completion A * NetLog := m [].

End Transaction.

(* ================================================================== *)
(** * The ReceiptScanner component: what it does with a scan result *)
(* ================================================================== *)

Module ReceiptScanner.
Import Transaction.

Inductive UIEvent :=
| toast_error (msg : jsstring)
| toast_success (msg : jsstring)
| toast_info (msg : jsstring)
| onScanComplete (scannedData : ExtractionResult).

(** The four branches of the effect (lines 43-65). *)
Inductive Presentation := ErrorPath | SuccessPath | InfoPath | InfoFallback.

(** [s && s.includes(sub)] for a string [s]: the empty string is falsy. *)
Definition has (s sub : jsstring) : bool :=
  match s with
  | [] => false
  | _ => includes s sub
  end.

(** [s && !s.includes(a) && !s.includes(b)] *)
Definition hasNeither (s a b : jsstring) : bool :=
  match s with
  | [] => false
  | _ => negb (includes s a) && negb (includes s b)
  end.

(** The conditions of the [if] chain, in the order of the source. *)
Definition classify (scannedData : ExtractionResult) : Presentation :=
  let d := description scannedData in
  if has d (lit "Error:") || has d (lit "Failed to connect") then ErrorPath
  else if num_gt (amount scannedData) num_zero
          || hasNeither d (lit "Receipt scan") (lit "format not recognized")
  then SuccessPath
  else if has d (lit "format not recognized") then InfoPath
  else InfoFallback.

(** The body of each branch. *)
Definition present (p : Presentation) (scannedData : ExtractionResult)
  : list UIEvent :=
  match p with
  | ErrorPath =>
      [ toast_error (lit "AI service unavailable. Please manually enter receipt details.");
        onScanComplete scannedData ]
  | SuccessPath =>
      [ onScanComplete scannedData;
        toast_success (lit "Receipt scanned successfully!") ]
  | InfoPath =>
      [ onScanComplete scannedData;
        toast_info (lit "Receipt scanned but format not recognized. Please manually enter details.") ]
  | InfoFallback =>
      [ onScanComplete scannedData;
        toast_info (lit "Receipt scanned. Please review and manually adjust details if needed.") ]
  end.

(** The effect on [scannedData] and [scanReceiptLoading] (lines 40-67). *)
Definition scanEffect (scannedData : option ExtractionResult)
           (scanReceiptLoading : bool) : list UIEvent :=
  match scannedData with
  | Some r => if negb scanReceiptLoading then present (classify r) r else []
  | None => []
  end.

(** [handleReceiptScan]'s own size check (lines 20-24): [true] when the
    file is refused before the action is called. *)
Definition refusedByClient (file : File) : bool :=
  N.ltb (5 * 1024 * 1024)%N (file_size file).

End ReceiptScanner.

(* ================================================================== *)
(** * src/actions/dashboard.js *)
(* ================================================================== *)

Module Dashboard.

(** ** Rows of the store *)

(** A database decimal: [coefficient * 10 ^ exponent]. *)
Record Decimal := mkDecimal { coefficient : Z; exponent : Z }.

Record User := mkUser { user_id : jsstring; clerkUserId : jsstring }.

Record Account := mkAccount {
  acc_id : jsstring;
  acc_userId : jsstring;
  acc_name : jsstring;
  acc_type : jsstring;
  acc_balance : Decimal;
  acc_isDefault : bool;
  acc_createdAt : Z
}.

Record Transaction := mkTransaction {
  tx_id : jsstring;
  tx_userId : jsstring;
  tx_accountId : jsstring;
  tx_amount : Decimal;
  tx_date : Z
}.

Record Database := mkDb {
  users : list User;
  accounts : list Account;
  transactions : list Transaction
}.

(** An account as [findMany] returns it with [include: { _count }]. *)
Record AccountWithCount := mkAccountWithCount {
  account : Account;
  count_transactions : nat
}.

(** The rate limiter's verdict. *)
Inductive Decision := Allowed | DeniedRateLimit | DeniedOther.

(** The fields of [data] passed to [createAccount]. *)
Record AccountInput := mkInput {
  in_name : jsstring;
  in_type : jsstring;
  in_balance : jsstring;
  in_isDefault : bool
}.

(** What surrounds a call: the session, the rate limiter, which database
    calls fail (the driver rejects, leaving the store as it was), and the
    conversions of the runtime. *)
Record Env := mkEnv {
  auth : Completion (option jsstring);          (* [(await auth()).userId] *)
  protect : Completion Decision;                (* [aj.protect(req, ...)] *)
  fail_user_findUnique : option Error;
  fail_account_findMany : option Error;
  fail_account_updateMany : option Error;
  fail_account_create : option Error;
  fail_transaction_findMany : option Error;
  parseFloat : jsstring -> number;
  Decimal_of : number -> Decimal;
  toNumber : Decimal -> number;
  new_id : jsstring;
  clock : Z
}.

Definition DB (A : Type) := Eff Database A.

(** ** The driver *)

(** A database call: it rejects when the environment says so, and
    otherwise reads or updates the store. *)
Definition db_call {A} (fault : option Error) (op : Database -> A * Database)
  : DB A :=
  fun db => match fault with
            | Some e => (Throw e, db)
            | None => let (a, db') := op db in (Normal a, db')
            end.

Fixpoint insertDesc {A} (k : A -> Z) (x : A) (l : list A) : list A :=
  match l with
  | [] => [x]
  | y :: l' => if (k y <? k x)%Z then x :: l else y :: insertDesc k x l'
  end.

(** [orderBy: { field: "desc" }] *)
Definition orderByDesc {A} (k : A -> Z) (l : list A) : list A :=
  fold_right (insertDesc k) [] l.

Definition ownedBy (userId : jsstring) (a : Account) : bool :=
  str_eqb (acc_userId a) userId.

(** [db.user.findUnique({ where: { clerkUserId } })] *)
Definition user_findUnique (env : Env) (clerkId : jsstring) : DB (option User) :=
  db_call (fail_user_findUnique env)
    (fun db => (find (fun u => str_eqb (clerkUserId u) clerkId) (users db), db)).

(** [db.account.findMany({ where: { userId } })] *)
Definition account_findMany (env : Env) (userId : jsstring) : DB (list Account) :=
  db_call (fail_account_findMany env)
    (fun db => (filter (ownedBy userId) (accounts db), db)).

(** [db.account.findMany] with [orderBy: { createdAt: "desc" }] and
    [include: { _count: { select: { transactions: true } } }] *)
Definition account_findMany_counted (env : Env) (userId : jsstring)
  : DB (list AccountWithCount) :=
  db_call (fail_account_findMany env)
    (fun db =>
       (map (fun a =>
               mkAccountWithCount a
                 (List.length
                    (filter (fun t => str_eqb (tx_accountId t) (acc_id a))
                            (transactions db))))
            (orderByDesc acc_createdAt (filter (ownedBy userId) (accounts db))),
        db)).

Definition clearDefault (a : Account) : Account :=
  mkAccount (acc_id a) (acc_userId a) (acc_name a) (acc_type a)
            (acc_balance a) false (acc_createdAt a).

(** [db.account.updateMany({ where: { userId, isDefault: true },
                            data: { isDefault: false } })] *)
Definition account_updateMany_clearDefault (env : Env) (userId : jsstring)
  : DB unit :=
  db_call (fail_account_updateMany env)
    (fun db =>
       (tt,
        mkDb (users db)
             (map (fun a => if ownedBy userId a && acc_isDefault a
                            then clearDefault a else a)
                  (accounts db))
             (transactions db))).

(** [db.account.create({ data })] *)
Definition account_create (env : Env) (a : Account) : DB Account :=
  db_call (fail_account_create env)
    (fun db => (a, mkDb (users db) (accounts db ++ [a]) (transactions db))).

(** [db.transaction.findMany({ where: { userId }, orderBy: { date: "desc" } })] *)
Definition transaction_findMany (env : Env) (userId : jsstring)
  : DB (list Transaction) :=
  db_call (fail_transaction_findMany env)
    (fun db =>
       (orderByDesc tx_date
          (filter (fun t => str_eqb (tx_userId t) userId) (transactions db)),
        db)).

(** ** serializeTransaction (lines 9-18)

    The object is copied; [balance] and [amount], when present, are
    replaced by numbers.  [balanceOf] and [amountOf] are the reads
    [obj.balance] and [obj.amount]. *)
Record Serialized (A : Type) := mkSerialized {
  source : A;
  ser_balance : option number;
  ser_amount : option number
}.

Definition serializeTransaction {A} (env : Env)
           (balanceOf amountOf : A -> option Decimal) (obj : A)
  : Serialized A :=
  mkSerialized obj
    (match balanceOf obj with Some b => Some (toNumber env b) | None => None end)
    (match amountOf obj with Some a => Some (toNumber env a) | None => None end).

Definition serializeAccountRow (env : Env) : AccountWithCount -> Serialized AccountWithCount :=
  serializeTransaction env (fun r => Some (acc_balance (account r))) (fun _ => None).

Definition serializeAccount (env : Env) : Account -> Serialized Account :=
  serializeTransaction env (fun a => Some (acc_balance a)) (fun _ => None).

Definition serializeTransactionRow (env : Env) : Transaction -> Serialized Transaction :=
  serializeTransaction env (fun _ => None) (fun t => Some (tx_amount t)).

(** [const { userId } = await auth(); if (!userId) throw ...] *)
Definition requireUser (env : Env) : DB jsstring :=
  userId <- lift (auth env) ;;
  match userId with
  | Some (c :: u) => ret (c :: u)
  | _ => throw (new_Error (lit "Unauthorized"))
  end.

(** [if (!user) throw new Error("User not found")] *)
Definition requireFound (user : option User) : DB User :=
  match user with
  | Some u => ret u
  | None => throw (new_Error (lit "User not found"))
  end.

(** ** getUserAccounts (lines 20-60) *)
Definition getUserAccounts (env : Env)
  : DB (list (Serialized AccountWithCount)) :=
  userId <- requireUser env ;;
  tryCatch
    (user <- user_findUnique env userId ;;
     user <- requireFound user ;;
     tryCatch
       (accounts <- account_findMany_counted env (user_id user) ;;
        ret (map (serializeAccountRow env) accounts))
       (fun error => ret []))
    (fun error => ret []).

(** ** getDashboardData (lines 162-194) *)
Definition getDashboardData (env : Env)
  : DB (list (Serialized Transaction)) :=
  userId <- requireUser env ;;
  tryCatch
    (user <- user_findUnique env userId ;;
     user <- requireFound user ;;
     r <- tryCatch
            (transactions <- transaction_findMany env (user_id user) ;;
             ret (inl transactions))
            (fun error => ret (inr (@nil (Serialized Transaction)))) ;;
     match r with
     | inl transactions => ret (map (serializeTransactionRow env) transactions)
     | inr early => ret early
     end)
    (fun error => ret []).

(** ** createAccount (lines 62-160) *)

Definition isNaN (x : number) : bool :=
  match x with S754_nan => true | _ => false end.

Definition createAccount_try (env : Env) (data : AccountInput)
  : DB (Serialized Account) :=
  userId <- requireUser env ;;
  decision <- lift (protect env) ;;
  (match decision with
   | Allowed => ret tt
   | DeniedRateLimit =>
       throw (new_Error (lit "Too many requests. Please try again later."))
   | DeniedOther => throw (new_Error (lit "Request blocked"))
   end) ;;;
  user <- user_findUnique env userId ;;
  user <- requireFound user ;;
  let balanceFloat := parseFloat env (in_balance data) in
  (if isNaN balanceFloat then throw (new_Error (lit "Invalid balance amount"))
   else ret tt) ;;;
  existingAccounts <-
    tryCatch (account_findMany env (user_id user)) (fun error => ret []) ;;
  let shouldBeDefault :=
    match existingAccounts with
    | [] => true
    | _ => in_isDefault data
    end in
  (if shouldBeDefault
   then tryCatch (account_updateMany_clearDefault env (user_id user))
                 (fun error => ret tt)
   else ret tt) ;;;
  account <-
    tryCatch
      (account_create env
         (mkAccount (new_id env) (user_id user) (in_name data) (in_type data)
                    (Decimal_of env balanceFloat) shouldBeDefault (clock env)))
      (fun error =>
         throw (new_Error
                  (lit "Failed to create account. Database connection issue."))) ;;
  ret (serializeAccount env account).

Definition createAccount (env : Env) (data : AccountInput)
  : DB (Serialized Account) :=
  tryCatch (createAccount_try env data)
           (fun error => throw (new_Error (message error))).

End Dashboard.

(* ================================================================== *)
(** * Vocabulary of the properties *)
(* ================================================================== *)

Module Spec.
Import Transaction ReceiptScanner Dashboard.

(** ** scanReceipt *)

(** A file was supplied, it is within the size limit and the credential is
    configured: the three pre-checks pass and the upload can be read. *)
Definition accepted (w : World) (formData : FormData) : bool :=
  match formData_get formData (lit "file"), GEMINI_API_KEY w with
  | Some (FileEntry f), Some (_ :: _) => N.leb (file_size f) maxFileSize
  | _, _ => false
  end.

(** The credential is not configured. *)
Definition unconfigured (w : World) : bool :=
  match GEMINI_API_KEY w with Some (_ :: _) => false | _ => true end.

(** The URL requested for an endpoint, and the outcome the world gives. *)
Definition urlOf (w : World) (endpoint : jsstring) : jsstring :=
  requestUrl endpoint (apiKey w).

Definition outcomeOf (w : World) (endpoint : jsstring) : FetchOutcome :=
  fetch w (urlOf w endpoint).

(** The response is an HTTP success. *)
Definition httpSuccess (o : FetchOutcome) : bool :=
  match o with Resolved r => ok r | Rejected _ => false end.

(** The payload of an attempt that succeeds: an HTTP success whose body
    decodes. *)
Definition payloadOf (o : FetchOutcome) : option json :=
  match o with
  | Resolved r =>
      if ok r then
        match body_json r with Normal j => Some j | Throw _ => None end
      else None
  | Rejected _ => None
  end.

(** The error recorded for an attempt that fails. *)
Definition failureOf (o : FetchOutcome) : option Error :=
  match o with
  | Rejected e => Some e
  | Resolved r =>
      if ok r then
        match body_json r with Normal _ => None | Throw e => Some e end
      else
        match body_text r with
        | Normal errorText =>
            Some (new_Error
                    (lit "API request failed: " ++ String_of_N (status r)
                     ++ lit " " ++ statusText r ++ lit " - " ++ errorText))
        | Throw e => Some e
        end
  end.

Definition allFail (w : World) (endpoints : list jsstring) : Prop :=
  forall ep, In ep endpoints -> payloadOf (outcomeOf w ep) = None.

(** The result built from a kept payload: lines 370-427 under the outer
    [catch]. *)
Definition resultOfPayload (w : World) (payload : json) : ExtractionResult :=
  match fst (processResponse w payload []) with
  | Normal r => r
  | Throw e => errorResult w e
  end.

(** No comma in a category id. *)
Definition commaFree (id : jsstring) : Prop := ~ In 44%N id.

(** A code unit of prose: no back-tick and no brace. *)
Definition plain (c : code_unit) : Prop :=
  c <> backtick /\ c <> lbrace /\ c <> rbrace.

Definition blank (c : code_unit) : Prop := isWhiteSpace c = true.

(** A response text that wraps [body] in a fenced code block: prose, the
    opening fence and its tag, white space, the body, white space, the
    closing fence, prose. *)
Definition fenced (before tag ws1 body ws2 after : jsstring) : jsstring :=
  before ++ fence ++ tag ++ ws1 ++ body ++ ws2 ++ fence ++ after.

(** A computation that neither reads nor changes the state. *)
Definition stateless {S A} (m : Eff S A) : Prop :=
  forall st st0, m st = (fst (m st0), st).

(** The last error recorded over a run of failing endpoints. *)
Definition lastFailure (w : World) (endpoints : list jsstring) (init : option Error)
  : option Error :=
  fold_left (fun acc ep =>
               match failureOf (outcomeOf w ep) with
               | Some e => Some e
               | None => acc
               end)
            endpoints init.

(** Lines 364-427 once the loop has ended in state [st]. *)
Definition afterLoop (w : World) (st : LoopState) : M ExtractionResult :=
  (match lastError st with
   | Some err => if negb (truthy_json (apiResponse st)) then throw err else ret tt
   | None => ret tt
   end) ;;;
  processResponse w (apiResponse st).

(** What every returned result satisfies. *)
Definition wellFormed (w : World) (r : ExtractionResult) : Prop :=
  num_ge (amount r) num_zero = true /\
  (category r = sentinel \/
   (category r <> [] /\ In (category r) (validCategoryList w))).

(** ** ReceiptScanner *)

(** The description carries an error marker. *)
Definition errorMarked (d : jsstring) : bool :=
  includes d (lit "Error:") || includes d (lit "Failed to connect").

(** The description carries the marker of an answer that did not decode. *)
Definition formatMarked (d : jsstring) : bool :=
  includes d (lit "format not recognized").

(** A description that is not one of the defaults. *)
Definition nonGeneric (d : jsstring) : bool :=
  hasNeither d (lit "Receipt scan") (lit "format not recognized").

(** The order of the tests as the specification words it: error markers,
    then the format marker, then amount or non-generic description, then
    the fallback. *)
Definition classify_spec (r : ExtractionResult) : Presentation :=
  let d := description r in
  if includes d (lit "Error:") || includes d (lit "Failed to connect")
  then ErrorPath
  else if includes d (lit "format not recognized") then InfoPath
  else if num_gt (amount r) num_zero || nonGeneric d then SuccessPath
  else InfoFallback.

(** ** Dashboard *)

(** A query of the reader fails. *)
Definition accountsUnreachable (env : Env) : Prop :=
  fail_user_findUnique env <> None \/ fail_account_findMany env <> None.

Definition transactionsUnreachable (env : Env) : Prop :=
  fail_user_findUnique env <> None \/ fail_transaction_findMany env <> None.

Definition userMissing (db : Database) (clerkId : jsstring) : Prop :=
  find (fun u => str_eqb (clerkUserId u) clerkId) (users db) = None.

(** The store answers, the user exists and owns no row. *)
Definition noAccounts (env : Env) (db : Database) (clerkId : jsstring) : Prop :=
  fail_user_findUnique env = None /\ fail_account_findMany env = None /\
  exists u, find (fun u => str_eqb (clerkUserId u) clerkId) (users db) = Some u
            /\ filter (ownedBy (user_id u)) (accounts db) = [].

Definition noTransactions (env : Env) (db : Database) (clerkId : jsstring) : Prop :=
  fail_user_findUnique env = None /\ fail_transaction_findMany env = None /\
  exists u, find (fun u => str_eqb (clerkUserId u) clerkId) (users db) = Some u
            /\ filter (fun t => str_eqb (tx_userId t) (user_id u))
                      (transactions db) = [].

Definition accountsOf (userId : jsstring) (db : Database) : list Account :=
  filter (ownedBy userId) (accounts db).

Definition defaultsOf (userId : jsstring) (db : Database) : list Account :=
  filter (fun a => ownedBy userId a && acc_isDefault a) (accounts db).

Definition atMostOneDefault (userId : jsstring) (db : Database) : Prop :=
  (List.length (defaultsOf userId db) <= 1)%nat.

Definition someDefaultIfAny (userId : jsstring) (db : Database) : Prop :=
  accountsOf userId db <> [] -> defaultsOf userId db <> [].

(** ** The steps of [createAccount] on the store *)

(** The store after the clearing [updateMany]. *)
Definition cleared (userId : jsstring) (db : Database) : Database :=
  mkDb (users db)
       (map (fun a => if ownedBy userId a && acc_isDefault a
                      then clearDefault a else a)
            (accounts db))
       (transactions db).

(** The store after the [create]. *)
Definition added (a : Account) (db : Database) : Database :=
  mkDb (users db) (accounts db ++ [a]) (transactions db).

(** What the user already owns, as [createAccount] sees it. *)
Definition seenAccounts (env : Env) (userId : jsstring) (db : Database)
  : list Account :=
  match fail_account_findMany env with
  | None => filter (ownedBy userId) (accounts db)
  | Some _ => []
  end.

Definition decideDefault (existingAccounts : list Account) (data : AccountInput)
  : bool :=
  match existingAccounts with
  | [] => true
  | _ => in_isDefault data
  end.

Definition afterClearing (env : Env) (userId : jsstring) (shouldBeDefault : bool)
           (db : Database) : Database :=
  if shouldBeDefault then
    match fail_account_updateMany env with
    | None => cleared userId db
    | Some _ => db
    end
  else db.

Definition newAccount (env : Env) (userId : jsstring) (data : AccountInput)
           (shouldBeDefault : bool) : Account :=
  mkAccount (new_id env) userId (in_name data) (in_type data)
            (Decimal_of env (parseFloat env (in_balance data)))
            shouldBeDefault (clock env).

End Spec.

(* ================================================================== *)
(** * Concrete worlds for the examples *)
(* ================================================================== *)

Module Samples.
Import Transaction ReceiptScanner Dashboard Spec.

(** ** JSON texts and the values [JSON.parse] gives for them *)

Definition member (k : string) (v : jsstring) : jsstring :=
  quoted k ++ lit ":" ++ v.

Definition object (members : list jsstring) : jsstring :=
  lit "{" ++ join members (lit ",") ++ lit "}".

(** The doubles 12 and -5. *)
Definition twelve : jsonNumber := JN_finite false 6755399441055744 (-49).
Definition minusFive : jsonNumber := JN_finite true 5629499534213120 (-50).

Definition isoDate : string := "2023-12-25T00:00:00.000Z".

Definition receiptText : jsstring :=
  object [ member "amount" (lit "12");
           member "date" (quoted isoDate);
           member "description" (quoted "Grocery shopping");
           member "merchantName" (quoted "Store Name");
           member "category" (quoted "groceries") ].

Definition receiptValue : json :=
  JObj [ (lit "amount", JNum twelve);
         (lit "date", JStr (lit isoDate));
         (lit "description", JStr (lit "Grocery shopping"));
         (lit "merchantName", JStr (lit "Store Name"));
         (lit "category", JStr (lit "groceries")) ].

Definition badDateText : jsstring :=
  object [ member "amount" (lit "12");
           member "date" (quoted "yesterday");
           member "category" (quoted "groceries") ].

Definition badDateValue : json :=
  JObj [ (lit "amount", JNum twelve);
         (lit "date", JStr (lit "yesterday"));
         (lit "category", JStr (lit "groceries")) ].

Definition badCategoryText : jsstring :=
  object [ member "amount" (lit "-5");
           member "merchantName" (quoted "Boutique");
           member "category" (quoted "luxury") ].

Definition badCategoryValue : json :=
  JObj [ (lit "amount", JNum minusFive);
         (lit "merchantName", JStr (lit "Boutique"));
         (lit "category", JStr (lit "luxury")) ].

Definition backtickText : jsstring :=
  object [ member "description" (quoted "a```b") ].

Definition backtickValue : json :=
  JObj [ (lit "description", JStr (lit "a```b")) ].

Definition strippedText : jsstring :=
  object [ member "description" (quoted "ab") ].

Definition strippedValue : json :=
  JObj [ (lit "description", JStr (lit "ab")) ].

Definition paidText : jsstring :=
  object [ member "amount" (lit "12");
           member "description" (quoted "format not recognized") ].

Definition paidValue : json :=
  JObj [ (lit "amount", JNum twelve);
         (lit "description", JStr (lit "format not recognized")) ].

(** [JSON.parse] on the texts above; any other text of the examples is not
    JSON. *)
Definition decodeTable : list (jsstring * json) :=
  [ (receiptText, receiptValue);
    (badDateText, badDateValue);
    (badCategoryText, badCategoryValue);
    (backtickText, backtickValue);
    (strippedText, strippedValue);
    (paidText, paidValue) ].

Definition sampleDecode (text : jsstring) : option json :=
  lookup decodeTable text.

(** [new Date(v)] on the dates above: an ISO date-time gives its time
    value, a word that is no date gives Invalid Date. *)
Definition sampleDate (v : json) : Completion Date :=
  match v with
  | JStr s => if str_eqb s (lit isoDate)
              then Normal (ValidDate 1703462400000)
              else Normal InvalidDate
  | _ => Normal InvalidDate
  end.

Definition sampleCategories : list Category :=
  [ mkCategory (lit "salary") (lit "INCOME");
    mkCategory (lit "groceries") (lit "EXPENSE");
    mkCategory (lit "travel") (lit "EXPENSE");
    mkCategory (lit "other-expense") (lit "EXPENSE") ].

Definition sampleKey : jsstring := lit "k-123".

(** ** Endpoint behaviours *)

(** The payload shape of the API: the answer text inside
    [candidates[0].content.parts[0].text]. *)
Definition answer (text : jsstring) : json :=
  JObj [ (lit "candidates",
          JArr [ JObj [ (lit "content",
                         JObj [ (lit "parts",
                                 JArr [ JObj [ (lit "text", JStr text) ] ]) ]) ] ]) ].

Definition succeed (payload : json) : FetchOutcome :=
  Resolved (mkResponse 200 (lit "OK") (Normal payload)
                       (Throw (new_Error (lit "body already read")))).

Definition unavailable : FetchOutcome :=
  Resolved (mkResponse 503 (lit "Service Unavailable")
                       (Throw (new_Error (lit "Unexpected token o in JSON")))
                       (Normal (lit "overloaded"))).

Definition garbled : FetchOutcome :=
  Resolved (mkResponse 200 (lit "OK")
                       (Throw (new_Error (lit "Unexpected token < in JSON")))
                       (Normal (lit "<html>"))).

Definition unreachable : FetchOutcome :=
  Rejected (new_Error (lit "fetch failed")).

Fixpoint outcomeAt (table : list (jsstring * FetchOutcome)) (url : jsstring)
  : FetchOutcome :=
  match table with
  | [] => unreachable
  | (u, o) :: rest => if str_eqb u url then o else outcomeAt rest url
  end.

(** The world in which the four endpoints behave as listed. *)
Definition worldOf (outcomes : list FetchOutcome) : World :=
  mkWorld (Some sampleKey) sampleCategories
    (outcomeAt (combine (map (fun e => requestUrl e sampleKey) endpointsToTry)
                        outcomes))
    sampleDecode sampleDate 1700000000000
    (lit "Cannot read properties of null")
    (lit "is not a function").

Definition upload : FormData :=
  [ (lit "file", FileEntry (mkFile 204800 (lit "image/jpeg"))) ].

Definition hugeUpload : FormData :=
  [ (lit "file", FileEntry (mkFile 6000000 (lit "image/png"))) ].

Definition emptyForm : FormData := [].

Definition fencedAnswer (body : jsstring) : jsstring :=
  lit "```json" ++ [newline] ++ body ++ [newline] ++ lit "```".

(** ** A store with one user who owns one default account *)

Definition alice : User := mkUser (lit "u1") (lit "clerk_alice").

Definition checking : Account :=
  mkAccount (lit "a1") (lit "u1") (lit "Checking") (lit "CURRENT")
            (mkDecimal 12 0) true 1000.

Definition store : Database := mkDb [alice] [checking] [].

Definition emptyStore : Database := mkDb [alice] [] [].

(** [parseFloat] and the decimal conversions on the one balance the
    examples use. *)
Definition sampleEnv (updateMany findMany : option Error) : Env :=
  mkEnv (Normal (Some (lit "clerk_alice"))) (Normal Allowed)
        None findMany updateMany None findMany
        (fun _ => Number_of twelve)
        (fun _ => mkDecimal 12 0)
        (fun _ => Number_of twelve)
        (lit "a2") 2000.

Definition savings (isDefault : bool) : AccountInput :=
  mkInput (lit "Savings") (lit "SAVINGS") (lit "12") isDefault.

Definition connectionLost : Error := new_Error (lit "Can't reach database server").

End Samples.

(* ================================================================== *)
(** * src/actions/transaction.js : listGeminiModels, testGeminiAPI *)
(* ================================================================== *)

Module Gemini.
Import Transaction.

Definition modelsUrl (key : jsstring) : jsstring :=
  lit "https://generativelanguage.googleapis.com/v1beta/models?key=" ++ key.

(** [{ error: msg }] *)
Definition errorObject (msg : jsstring) : json := JObj [ (lit "error", JStr msg) ].

(** [listGeminiModels] (lines 231-252). *)
Definition listGeminiModels (w : World) : M json :=
  tryCatch
    ((if match GEMINI_API_KEY w with Some (_ :: _) => false | _ => true end
      then throw (new_Error (lit "GEMINI_API_KEY is not configured"))
      else ret tt) ;;;
     response <- await_fetch w (modelsUrl (apiKey w)) ;;
     (if negb (ok response)
      then throw (new_Error (lit "Failed to fetch models: "
                             ++ String_of_N (status response) ++ lit " "
                             ++ statusText response))
      else ret tt) ;;;
     data <- lift (body_json response) ;;
     ret data)
    (fun error => ret (errorObject (message error))).

(** The generative-AI SDK as [testGeminiAPI] uses it: for a model name, the
    text of the answer to the fixed prompt, or the error thrown on the way
    ([getGenerativeModel], [generateContent], [response.text()]); and the
    message of the SyntaxError [JSON.parse] throws on a text. *)
Record Sdk := mkSdk {
  generateText : jsstring -> Completion jsstring;
  syntaxErrorMessage : jsstring -> jsstring
}.

(** The model names asked so far. *)
Definition Asked := list jsstring.

Definition ask (sdk : Sdk) (modelName : jsstring) : Eff Asked jsstring :=
  fun l => (generateText sdk modelName, l ++ [modelName]).

Definition modelsToTry : list jsstring :=
  [ lit "gemini-1.5-flash"; lit "gemini-1.5-pro"; lit "gemini-pro-vision" ].

Inductive TestResult :=
| TestSucceeded (model : jsstring)     (* [{ success: true, model }] *)
| TestFailed (error : jsstring).       (* [{ success: false, error }] *)

Inductive Probe := Works | NoJson | Failed (error : Error).

(** One iteration of the loop (lines 462-480). *)
Definition probe (w : World) (sdk : Sdk) (modelName : jsstring) : Eff Asked Probe :=
  tryCatch
    (text <- ask sdk modelName ;;
     let jsonStart := indexOf text (lit "{") in
     let jsonEnd := lastIndexOf text (lit "}") in
     if negb (jsonStart =? -1)%Z && negb (jsonEnd =? -1)%Z then
       let jsonString := substring text jsonStart (jsonEnd + 1) in
       match JSON_parse w jsonString with
       | Some _ => ret Works
       | None => throw (new_Error (syntaxErrorMessage sdk jsonString))
       end
     else ret NoJson)
    (fun error => ret (Failed error)).

Record TestState := mkTest { workingModel : option jsstring; lastTestError : option Error }.

Fixpoint tryModels (w : World) (sdk : Sdk) (models : list jsstring) (st : TestState)
  : Eff Asked TestState :=
  match models with
  | [] => ret st
  | modelName :: rest =>
      r <- probe w sdk modelName ;;
      match r with
      | Works => ret (mkTest (Some modelName) (lastTestError st))
      | NoJson => tryModels w sdk rest st
      | Failed error => tryModels w sdk rest (mkTest (workingModel st) (Some error))
      end
  end.

(** [testGeminiAPI] (lines 443-492). *)
Definition testGeminiAPI (w : World) (sdk : Sdk) : Eff Asked TestResult :=
  tryCatch
    ((if match GEMINI_API_KEY w with Some (_ :: _) => false | _ => true end
      then throw (new_Error (lit "GEMINI_API_KEY is not configured"))
      else ret tt) ;;;
     st <- tryModels w sdk modelsToTry (mkTest None None) ;;
     match workingModel st with
     | Some m => ret (TestSucceeded m)
     | None =>
         match lastTestError st with
         | Some e => throw e
         | None => throw (new_Error (lit "No models available"))
         end
     end)
    (fun error => ret (TestFailed (message error))).

End Gemini.

(* ================================================================== *)
(** * The ReceiptScanner component: sending a file *)
(* ================================================================== *)

Module Widget.
Import Transaction ReceiptScanner.

(** What [handleReceiptScan] does with a chosen file (lines 20-31): a
    toast and nothing else, or a call of the action with a form that holds
    the file. *)
Inductive Submission :=
| Refused (events : list UIEvent)
| Sent (formData : FormData).

Definition handleReceiptScan (file : File) : Submission :=
  if N.ltb (5 * 1024 * 1024)%N (file_size file)
  then Refused [ toast_error (lit "File size should be less than 5MB") ]
  else Sent [ (lit "file", FileEntry file) ].

(** The effect on [scanError] and [scanReceiptLoading] (lines 33-38). *)
Definition errorEffect (scanError : option Error) (scanReceiptLoading : bool)
  : list UIEvent :=
  match scanError with
  | Some _ =>
      if negb scanReceiptLoading
      then [ toast_error (lit "Failed to scan receipt. Please try again or manually enter details.") ]
      else []
  | None => []
  end.

End Widget.

(* ================================================================== *)
(** * src/actions/transaction.js : the transaction actions *)
(* ================================================================== *)

Module Ledger.
Import Dashboard.

(** ** Arithmetic of doubles *)

Definition num_add (a b : number) : number := SFadd 53 1024 a b.
Definition num_sub (a b : number) : number := SFsub 53 1024 a b.
Definition num_neg (a : number) : number := SFopp a.

(** ** Rows and the store *)

(** The fields of [data] the actions read, the keys [id] and [userId] it
    may carry ([None]: the key is absent), and the rest of it, which is
    stored as it is. *)
Record TransactionInput := mkTxInput {
  ti_id : option jsstring;
  ti_userId : option jsstring;
  ti_type : jsstring;
  ti_amount : number;
  ti_date : Z;
  ti_accountId : jsstring;
  ti_isRecurring : bool;
  ti_recurringInterval : option jsstring;
  ti_details : list (jsstring * json)
}.

Record TransactionRow := mkRow {
  row_id : jsstring;
  row_userId : jsstring;
  row_accountId : jsstring;
  row_type : jsstring;
  row_amount : Decimal;
  row_date : Z;
  row_isRecurring : bool;
  row_recurringInterval : option jsstring;
  row_nextRecurringDate : option Z;
  row_details : list (jsstring * json)
}.

Record Store := mkStore {
  st_users : list User;
  st_accounts : list Account;
  st_transactions : list TransactionRow
}.

(** What surrounds a call of a transaction action: the environment of the
    dashboard actions, the database calls that fail (a constraint of the
    schema that a write violates is one of the reasons), the error of the
    driver for a record that is not there, the decimal increment of the
    database,
    and the calendar of the runtime ([d.setDate(d.getDate() + n)],
    [d.setMonth(d.getMonth() + n)], [d.setFullYear(d.getFullYear() + n)] in
    local time, on time values). *)
Record LedgerEnv := mkLedgerEnv {
  base : Env;
  fail_account_findUnique : option Error;
  fail_transaction_findUnique : option Error;
  fail_transaction_create : option Error;
  fail_transaction_update : option Error;
  fail_account_update : option Error;
  recordNotFound : Error;
  increment : Decimal -> number -> Decimal;
  addDays : Z -> Z -> Z;
  addMonths : Z -> Z -> Z;
  addYears : Z -> Z -> Z
}.

Definition LG (A : Type) := Eff Store A.

(** A database call that rejects when the environment says so. *)
Definition store_call {A} (fault : option Error) (op : Store -> Completion A * Store)
  : LG A :=
  fun st => match fault with
            | Some e => (Throw e, st)
            | None => op st
            end.

(** [db.$transaction(async (tx) => body)]: what [body] wrote is kept when it
    returns and undone when it throws. *)
Definition db_transaction {A} (body : LG A) : LG A :=
  fun st => match body st with
            | (Normal a, st') => (Normal a, st')
            | (Throw e, _) => (Throw e, st)
            end.

(** [db.user.findUnique({ where: { clerkUserId } })] *)
Definition user_findUnique (env : LedgerEnv) (clerkId : jsstring) : LG (option User) :=
  store_call (fail_user_findUnique (base env))
    (fun st => (Normal (find (fun u => str_eqb (clerkUserId u) clerkId) (st_users st)), st)).

(** [db.account.findUnique({ where: { id, userId } })] *)
Definition account_findUnique (env : LedgerEnv) (id userId : jsstring)
  : LG (option Account) :=
  store_call (fail_account_findUnique env)
    (fun st => (Normal (find (fun a => str_eqb (acc_id a) id && str_eqb (acc_userId a) userId)
                             (st_accounts st)), st)).

(** [db.transaction.findUnique({ where: { id, userId } })] *)
Definition transaction_findUnique (env : LedgerEnv) (id userId : jsstring)
  : LG (option TransactionRow) :=
  store_call (fail_transaction_findUnique env)
    (fun st => (Normal (find (fun t => str_eqb (row_id t) id && str_eqb (row_userId t) userId)
                             (st_transactions st)), st)).

(** [tx.transaction.create({ data })] *)
Definition transaction_create (env : LedgerEnv) (row : TransactionRow)
  : LG TransactionRow :=
  store_call (fail_transaction_create env)
    (fun st => (Normal row,
                mkStore (st_users st) (st_accounts st) (st_transactions st ++ [row]))).

Definition setBalance (b : Decimal) (a : Account) : Account :=
  mkAccount (acc_id a) (acc_userId a) (acc_name a) (acc_type a) b
            (acc_isDefault a) (acc_createdAt a).

(** [tx.account.update({ where: { id }, data: { balance: ... } })]: the
    driver throws when no account has this id. *)
Definition account_update (env : LedgerEnv) (id : jsstring)
           (newBalance : Decimal -> Decimal) : LG unit :=
  store_call (fail_account_update env)
    (fun st =>
       if existsb (fun a => str_eqb (acc_id a) id) (st_accounts st) then
         (Normal tt,
          mkStore (st_users st)
                  (map (fun a => if str_eqb (acc_id a) id
                                 then setBalance (newBalance (acc_balance a)) a else a)
                       (st_accounts st))
                  (st_transactions st))
       else (Throw (recordNotFound env), st)).

(** [tx.transaction.update({ where: { id, userId }, data })]: the driver
    throws when no such transaction exists. *)
Definition transaction_update (env : LedgerEnv) (id userId : jsstring)
           (change : TransactionRow -> TransactionRow) : LG TransactionRow :=
  store_call (fail_transaction_update env)
    (fun st =>
       let hit := fun t => str_eqb (row_id t) id && str_eqb (row_userId t) userId in
       match find hit (st_transactions st) with
       | Some t =>
           (Normal (change t),
            mkStore (st_users st) (st_accounts st)
                    (map (fun t => if hit t then change t else t) (st_transactions st)))
       | None => (Throw (recordNotFound env), st)
       end).

(** ** calculateNextRecurringDate (lines 495-514) *)
Definition calculateNextRecurringDate (env : LedgerEnv) (startDate : Z)
           (interval : jsstring) : Z :=
  let date := startDate in
  if str_eqb interval (lit "DAILY") then addDays env 1 date
  else if str_eqb interval (lit "WEEKLY") then addDays env 7 date
  else if str_eqb interval (lit "MONTHLY") then addMonths env 1 date
  else if str_eqb interval (lit "YEARLY") then addYears env 1 date
  else date.

(** [data.isRecurring && data.recurringInterval
      ? calculateNextRecurringDate(data.date, data.recurringInterval) : null] *)
Definition nextRecurringDate (env : LedgerEnv) (data : TransactionInput) : option Z :=
  match ti_recurringInterval data with
  | Some (c :: interval) =>
      if ti_isRecurring data
      then Some (calculateNextRecurringDate env (ti_date data) (c :: interval))
      else None
  | _ => None
  end.

(** ** serializeAmount (lines 12-15) *)
Record SerializedRow := mkSerializedRow {
  row : TransactionRow;
  amount_number : number
}.

Definition serializeAmount (env : LedgerEnv) (obj : TransactionRow) : SerializedRow :=
  mkSerializedRow obj (toNumber (base env) (row_amount obj)).

(** [const { userId } = await auth(); if (!userId) throw ...] *)
Definition requireUser (env : LedgerEnv) : LG jsstring :=
  userId <- lift (auth (base env)) ;;
  match userId with
  | Some (c :: u) => ret (c :: u)
  | _ => throw (new_Error (lit "Unauthorized"))
  end.

Definition requireSome {A} (x : option A) (msg : string) : LG A :=
  match x with
  | Some a => ret a
  | None => throw (new_Error (lit msg))
  end.

(** [data.type === "EXPENSE" ? -data.amount : data.amount] *)
Definition balanceChangeOf (type : jsstring) (amount : number) : number :=
  if str_eqb type (lit "EXPENSE") then num_neg amount else amount.

(** ** createTransaction (lines 18-100)

    The row is written from [{ ...data, userId: user.id, nextRecurringDate }]:
    an [id] key of [data] is the id of the row, a [userId] key of [data] is
    replaced by the caller's. *)
Definition createTransaction_try (env : LedgerEnv) (data : TransactionInput)
  : LG SerializedRow :=
  userId <- requireUser env ;;
  decision <- lift (protect (base env)) ;;
  (match decision with
   | Allowed => ret tt
   | DeniedRateLimit =>
       throw (new_Error (lit "Too many requests. Please try again later."))
   | DeniedOther => throw (new_Error (lit "Request blocked"))
   end) ;;;
  user <- user_findUnique env userId ;;
  user <- requireSome user "User not found" ;;
  account <- account_findUnique env (ti_accountId data) (user_id user) ;;
  account <- requireSome account "Account not found" ;;
  let balanceChange := balanceChangeOf (ti_type data) (ti_amount data) in
  let newBalance := num_add (toNumber (base env) (acc_balance account)) balanceChange in
  transaction <-
    db_transaction
      (newTransaction <-
         transaction_create env
           (mkRow (match ti_id data with
                   | Some i => i
                   | None => new_id (base env)
                   end)
                  (user_id user) (ti_accountId data)
                  (ti_type data) (Decimal_of (base env) (ti_amount data))
                  (ti_date data) (ti_isRecurring data) (ti_recurringInterval data)
                  (nextRecurringDate env data) (ti_details data)) ;;
       account_update env (ti_accountId data)
                      (fun _ => Decimal_of (base env) newBalance) ;;;
       ret newTransaction) ;;
  ret (serializeAmount env transaction).

Definition createTransaction (env : LedgerEnv) (data : TransactionInput)
  : LG SerializedRow :=
  tryCatch (createTransaction_try env data)
           (fun error => throw (new_Error (message error))).

(** ** getTransaction (lines 102-122) *)
Definition getTransaction (env : LedgerEnv) (id : jsstring) : LG SerializedRow :=
  userId <- requireUser env ;;
  user <- user_findUnique env userId ;;
  user <- requireSome user "User not found" ;;
  transaction <- transaction_findUnique env id (user_id user) ;;
  transaction <- requireSome transaction "Transaction not found" ;;
  ret (serializeAmount env transaction).

(** ** updateTransaction (lines 124-195)

    The row is rewritten from [{ ...data, nextRecurringDate }]: every key of
    [data] is written, an [id] or a [userId] key included. *)
Definition applyInput (env : LedgerEnv) (data : TransactionInput)
           (t : TransactionRow) : TransactionRow :=
  mkRow (match ti_id data with Some i => i | None => row_id t end)
        (match ti_userId data with Some u => u | None => row_userId t end)
        (ti_accountId data) (ti_type data)
        (Decimal_of (base env) (ti_amount data)) (ti_date data)
        (ti_isRecurring data) (ti_recurringInterval data)
        (nextRecurringDate env data) (ti_details data).

Definition updateTransaction_try (env : LedgerEnv) (id : jsstring)
           (data : TransactionInput) : LG SerializedRow :=
  userId <- requireUser env ;;
  user <- user_findUnique env userId ;;
  user <- requireSome user "User not found" ;;
  originalTransaction <- transaction_findUnique env id (user_id user) ;;
  originalTransaction <- requireSome originalTransaction "Transaction not found" ;;
  let oldBalanceChange :=
    balanceChangeOf (row_type originalTransaction)
                    (toNumber (base env) (row_amount originalTransaction)) in
  let newBalanceChange := balanceChangeOf (ti_type data) (ti_amount data) in
  let netBalanceChange := num_sub newBalanceChange oldBalanceChange in
  transaction <-
    db_transaction
      (updated <- transaction_update env id (user_id user) (applyInput env data) ;;
       account_update env (ti_accountId data)
                      (fun b => increment env b netBalanceChange) ;;;
       ret updated) ;;
  ret (serializeAmount env transaction).

Definition updateTransaction (env : LedgerEnv) (id : jsstring)
           (data : TransactionInput) : LG SerializedRow :=
  tryCatch (updateTransaction_try env id data)
           (fun error => throw (new_Error (message error))).

(** ** getUserTransactions (lines 197-228) *)

(** The keys of [query] that the model covers: equality filters on
    [userId], [accountId] and [type]; [None] is an absent key. *)
Record Query := mkQuery {
  q_userId : option jsstring;
  q_accountId : option jsstring;
  q_type : option jsstring
}.

(** [{ userId: user.id, ...query }]: a key of [query] replaces the one
    written before the spread. *)
Definition whereOf (userId : jsstring) (query : Query) : Query :=
  mkQuery (match q_userId query with Some u => Some u | None => Some userId end)
          (q_accountId query) (q_type query).

Definition satisfies (cond : Query) (t : TransactionRow) : bool :=
  (match q_userId cond with Some u => str_eqb (row_userId t) u | None => true end)
  && (match q_accountId cond with Some a => str_eqb (row_accountId t) a | None => true end)
  && (match q_type cond with Some ty => str_eqb (row_type t) ty | None => true end).

(** A transaction as [findMany] returns it with [include: { account: true }]. *)
Record RowWithAccount := mkRowWithAccount {
  the_row : TransactionRow;
  the_account : option Account
}.

Definition transaction_findMany (env : LedgerEnv) (cond : Query)
  : LG (list RowWithAccount) :=
  store_call (fail_transaction_findMany (base env))
    (fun st =>
       (Normal
          (map (fun t => mkRowWithAccount t
                           (find (fun a => str_eqb (acc_id a) (row_accountId t))
                                 (st_accounts st)))
               (orderByDesc row_date (filter (satisfies cond) (st_transactions st)))),
        st)).

Definition getUserTransactions (env : LedgerEnv) (query : Query)
  : LG (list RowWithAccount) :=
  tryCatch
    (userId <- requireUser env ;;
     user <- user_findUnique env userId ;;
     user <- requireSome user "User not found" ;;
     transactions <- transaction_findMany env (whereOf (user_id user) query) ;;
     ret transactions)
    (fun error => throw (new_Error (message error))).

End Ledger.

(* ================================================================== *)
(** * src/app/(main)/dashboard/page.jsx : the data of the page *)
(* ================================================================== *)

Module Page.
Import Dashboard.

(** What the page computes before it renders (lines 13-40); [B] is what
    [getCurrentBudget] of [@/actions/budget] returns. *)
Record PageData (B : Type) := mkPage {
  page_accounts : list (Serialized AccountWithCount);
  page_transactions : list (Serialized Transaction);
  page_defaultAccount : option (Serialized AccountWithCount);
  page_budgetData : option B
}.

(** An element of the array [Promise.allSettled] resolves with. *)
Definition settle {S A} (m : Eff S A) : Eff S (Completion A) :=
  fun st => let (c, st') := m st in (Normal c, st').

(** [r.status === 'fulfilled' ? r.value : []] *)
Definition valueOr {A} (r : Completion (list A)) : list A :=
  match r with
  | Normal v => v
  | Throw _ => []
  end.

Definition DashboardPage_load {B} (env : Env)
           (getCurrentBudget : jsstring -> Completion B)
  : DB (PageData B) :=
  loaded <-
    tryCatch
      (r0 <- settle (getUserAccounts env) ;;
       r1 <- settle (getDashboardData env) ;;
       ret (valueOr r0, valueOr r1))
      (fun error => ret ([], [])) ;;
  let accounts := fst loaded in
  let transactions := snd loaded in
  let defaultAccount :=
    find (fun a => acc_isDefault (account (source a))) accounts in
  budgetData <-
    match defaultAccount with
    | Some a =>
        tryCatch
          (b <- lift (getCurrentBudget (acc_id (account (source a)))) ;;
           ret (Some b))
          (fun error => ret None)
    | None => ret None
    end ;;
  ret (mkPage accounts transactions defaultAccount budgetData).

End Page.

(* ================================================================== *)
(** * Vocabulary and concrete worlds of the further properties *)
(* ================================================================== *)

Module MoreSpec.
Import Transaction ReceiptScanner Dashboard Spec Samples.

(** ** scanReceipt *)

(** The text in which the candidate span is searched (lines 375-378). *)
Definition stripped (text : jsstring) : jsstring :=
  trim (replaceFences 0 (trim text)).

(** A code unit that is no brace. *)
Definition braceFree (c : code_unit) : Prop := c <> lbrace /\ c <> rbrace.

(** An opening brace somewhere before a closing brace. *)
Definition hasBraceSpan (s : jsstring) : Prop :=
  exists a mid b, s = a ++ lbrace :: mid ++ rbrace :: b.

(** ** listGeminiModels, testGeminiAPI *)

(** What one model's answer amounts to in [testGeminiAPI]: the model works
    (its answer has both braces and the span between them decodes), its
    answer lacks a brace, or an error was thrown. *)
Definition verdict (w : World) (sdk : Gemini.Sdk) (modelName : jsstring)
  : Gemini.Probe :=
  match Gemini.generateText sdk modelName with
  | Throw e => Gemini.Failed e
  | Normal text =>
      let jsonStart := indexOf text (lit "{") in
      let jsonEnd := lastIndexOf text (lit "}") in
      if negb (jsonStart =? -1)%Z && negb (jsonEnd =? -1)%Z then
        match JSON_parse w (substring text jsonStart (jsonEnd + 1)) with
        | Some _ => Gemini.Works
        | None =>
            Gemini.Failed
              (new_Error (Gemini.syntaxErrorMessage sdk
                            (substring text jsonStart (jsonEnd + 1))))
        end
      else Gemini.NoJson
  end.

(** The last error thrown over a run of models. *)
Definition lastProbeError (w : World) (sdk : Gemini.Sdk) (models : list jsstring)
           (init : option Error) : option Error :=
  fold_left (fun acc m =>
               match verdict w sdk m with
               | Gemini.Failed e => Some e
               | _ => acc
               end)
            models init.

(** ** Dashboard *)

(** Newest first. *)
Definition newerFirst {A} (k : A -> Z) (x y : A) : Prop := (k y <= k x)%Z.

(** The signed-in user's record. *)
Definition signedInAs (env : Env) (db : Database) (clerkId : jsstring) (user : User)
  : Prop :=
  auth env = Normal (Some clerkId) /\ clerkId <> [] /\
  fail_user_findUnique env = None /\
  find (fun u => str_eqb (clerkUserId u) clerkId) (users db) = Some user.

(** [createAccount] throws an error with this message and leaves the store
    as it was. *)
Definition rejectsWith (env : Env) (data : AccountInput) (db : Database)
           (msg : jsstring) : Prop :=
  exists e, createAccount env data db = (Throw e, db) /\ message e = msg.

(** [account?.isDefault] on a row of the page. *)
Definition rowIsDefault (r : Serialized AccountWithCount) : bool :=
  acc_isDefault (account (source r)).

(** What the page keeps of a call of [getCurrentBudget]. *)
Definition budgetOf {B} (getCurrentBudget : jsstring -> Completion B)
           (accountId : jsstring) : option B :=
  match getCurrentBudget accountId with
  | Normal b => Some b
  | Throw _ => None
  end.

(** ** The transaction actions *)

(** The signed-in user's record, for the transaction actions. *)
Definition signedInLedger (env : Ledger.LedgerEnv) (st : Ledger.Store)
           (clerkId : jsstring) (user : User) : Prop :=
  auth (Ledger.base env) = Normal (Some clerkId) /\ clerkId <> [] /\
  fail_user_findUnique (Ledger.base env) = None /\
  find (fun u => str_eqb (clerkUserId u) clerkId) (Ledger.st_users st) = Some user.

(** The account with this id that this user owns, as [findUnique] sees it. *)
Definition ownAccount (st : Ledger.Store) (id userId : jsstring) : option Account :=
  find (fun a => str_eqb (acc_id a) id && str_eqb (acc_userId a) userId)
       (Ledger.st_accounts st).

(** The transaction with this id that this user owns. *)
Definition ownTransaction (st : Ledger.Store) (id userId : jsstring)
  : option Ledger.TransactionRow :=
  find (fun t => str_eqb (Ledger.row_id t) id && str_eqb (Ledger.row_userId t) userId)
       (Ledger.st_transactions st).

(** The row [createTransaction] writes: the id is the input's [id] key or
    a fresh one, the owner is the caller. *)
Definition newRow (env : Ledger.LedgerEnv) (userId : jsstring)
           (data : Ledger.TransactionInput) : Ledger.TransactionRow :=
  Ledger.mkRow (match Ledger.ti_id data with
                | Some i => i
                | None => new_id (Ledger.base env)
                end)
               userId (Ledger.ti_accountId data)
               (Ledger.ti_type data)
               (Decimal_of (Ledger.base env) (Ledger.ti_amount data))
               (Ledger.ti_date data) (Ledger.ti_isRecurring data)
               (Ledger.ti_recurringInterval data)
               (Ledger.nextRecurringDate env data) (Ledger.ti_details data).

(** The amount as it counts for a balance: negated for an expense, as it
    is for every other type. *)
Definition signedBy (type : jsstring) (amount signed : number) : Prop :=
  (type = lit "EXPENSE" -> signed = SFopp amount) /\
  (type <> lit "EXPENSE" -> signed = amount).

(** The accounts after the balance of the accounts with this id is
    replaced. *)
Definition rebalanced (id : jsstring) (newBalance : Decimal -> Decimal)
           (accounts : list Account) : list Account :=
  map (fun a => if str_eqb (acc_id a) id
                then Ledger.setBalance (newBalance (acc_balance a)) a else a)
      accounts.


(** ** Worlds for the examples *)

(** An answer with prose, single back-ticks and an upper-case tag around
    the fenced object. *)
Definition chattyAnswer (body : jsstring) : jsstring :=
  fenced (lit "Here is `the` data: ") (lit "JSON") [newline] body [newline]
         (lit " done").

(** An answer whose prose holds braces. *)
Definition bracedProse (body : jsstring) : jsstring :=
  fenced (lit "Fields {amount}: ") (lit "json") [newline] body [newline] [].

(** The double 1. *)
Definition one : jsonNumber := JN_finite false 4503599627370496 (-52).

(** An answer whose date is an object with own members [toString] and
    [valueOf]: they are numbers, so the object has no callable conversion
    method. *)
Definition brokenDateText : jsstring :=
  object [ member "amount" (lit "12");
           member "date" (object [ member "toString" (lit "1");
                                   member "valueOf" (lit "1") ]);
           member "description" (quoted "Lunch");
           member "category" (quoted "luxury") ].

Definition brokenDateValue : json :=
  JObj [ (lit "amount", JNum twelve);
         (lit "date", JObj [ (lit "toString", JNum one);
                             (lit "valueOf", JNum one) ]);
         (lit "description", JStr (lit "Lunch"));
         (lit "category", JStr (lit "luxury")) ].

(** [new Date(v)] on a decoded object: the conversion to a primitive finds
    the own member [toString], which is not callable, and throws a
    TypeError; any other object converts to a text that is no date. *)
Definition strictDate (v : json) : Completion Date :=
  match v with
  | JObj members =>
      match lookup members (lit "toString") with
      | Some _ => Throw (new_Error (lit "Cannot convert object to primitive value"))
      | None => Normal InvalidDate
      end
  | _ => sampleDate v
  end.

(** The world of the examples with this conversion, in which the text above
    decodes. *)
Definition strictWorldOf (outcomes : list FetchOutcome) : World :=
  mkWorld (Some sampleKey) sampleCategories
    (outcomeAt (combine (map (fun e => requestUrl e sampleKey) endpointsToTry)
                        outcomes))
    (fun text => if str_eqb text brokenDateText then Some brokenDateValue
                 else sampleDecode text)
    strictDate 1700000000000
    (lit "Cannot read properties of null")
    (lit "is not a function").

(** A ledger with the two users, their accounts and one expense of each. *)
Definition lunch : Ledger.TransactionRow :=
  Ledger.mkRow (lit "t1") (lit "u1") (lit "a1") (lit "EXPENSE") (mkDecimal 12 0)
               1500 false None None [].

Definition bobsRent : Ledger.TransactionRow :=
  Ledger.mkRow (lit "t2") (lit "u2") (lit "b1") (lit "EXPENSE") (mkDecimal 12 0)
               1600 false None None [].

Definition ledger : Ledger.Store :=
  Ledger.mkStore [alice; mkUser (lit "u2") (lit "clerk_bob")]
                 [ checking;
                   mkAccount (lit "b1") (lit "u2") (lit "Bob") (lit "CURRENT")
                             (mkDecimal 12 0) true 500 ]
                 [ lunch; bobsRent ].

(** The double 5. *)
Definition five : jsonNumber := JN_finite false 5629499534213120 (-50).

(** Whole amounts: the double of a whole decimal and the whole number of a
    double. *)
Definition numberOfWhole (d : Decimal) : number :=
  binary_normalize 53 1024 (coefficient d) 0 false.

Definition wholeOf (x : number) : Z :=
  match x with
  | S754_finite s m e => let v := Z.shiftl (Z.pos m) e in if s then (- v)%Z else v
  | _ => 0%Z
  end.

(** The session of the first user, a store that answers, and the
    conversions on whole amounts. *)
Definition wholeEnv : Env :=
  mkEnv (Normal (Some (lit "clerk_alice"))) (Normal Allowed)
        None None None None None
        (fun _ => Number_of twelve)
        (fun x => mkDecimal (wholeOf x) 0)
        numberOfWhole
        (lit "t9") 2000.

Definition ledgerEnv (updateFails : option Error) : Ledger.LedgerEnv :=
  Ledger.mkLedgerEnv wholeEnv None None None None updateFails
                     (new_Error (lit "Record to update not found"))
                     (fun b x => mkDecimal (coefficient b + wholeOf x) (exponent b))
                     (fun n t => t + n * 86400000)%Z
                     (fun _ t => t) (fun _ t => t).

Definition subscription (interval : string) : Ledger.TransactionInput :=
  Ledger.mkTxInput None None (lit "EXPENSE") (Number_of twelve) 1700 (lit "a1")
                   true (Some (lit interval)) [].

(** An expense of 5 on the account with this id. *)
Definition coffee (accountId : string) : Ledger.TransactionInput :=
  Ledger.mkTxInput None None (lit "EXPENSE") (Number_of five) 1700 (lit accountId)
                   false None [].


(** A second user and her account, beside the store of the examples. *)
Definition bob : User := mkUser (lit "u2") (lit "clerk_bob").

Definition bobsAccount : Account :=
  mkAccount (lit "b1") (lit "u2") (lit "Bob") (lit "CURRENT")
            (mkDecimal 12 0) true 500.

Definition oldSavings : Account :=
  mkAccount (lit "a0") (lit "u1") (lit "Old savings") (lit "SAVINGS")
            (mkDecimal 12 0) false 100.

Definition sharedStore : Database :=
  mkDb [alice; bob] [oldSavings; bobsAccount; checking] [].

(** An SDK whose first model is unknown, whose second model answers in
    prose and whose third answers with the JSON of a receipt. *)
Definition sampleSdk : Gemini.Sdk :=
  Gemini.mkSdk
    (fun m => if str_eqb m (lit "gemini-1.5-flash")
              then Throw (new_Error (lit "model not found"))
              else if str_eqb m (lit "gemini-1.5-pro")
                   then Normal (lit "API test successful")
                   else Normal (lit "Here you go: " ++ receiptText))
    (fun _ => lit "Unexpected token").

(** A table without expense categories. *)
Definition incomeOnly (w : World) : World :=
  mkWorld (GEMINI_API_KEY w)
          [ mkCategory (lit "salary") (lit "INCOME") ]
          (fetch w) (JSON_parse w) (new_Date w) (now w)
          (msg_null_property w) (msg_not_a_function w).

(** The world of the examples without a credential. *)
Definition noKeyWorld : World :=
  mkWorld None sampleCategories (fun _ => unreachable) sampleDecode sampleDate
          1700000000000 (lit "Cannot read properties of null")
          (lit "is not a function").

Definition photo : File := mkFile 204800 (lit "image/jpeg").

End MoreSpec.

Import Transaction ReceiptScanner Dashboard Spec Samples MoreSpec.

(** Unfolding of the effect combinators. *)
Ltac run_eff :=
  cbv beta delta [bind tryCatch ret throw lift db_call requireFound] in *;
  cbn beta iota zeta in *.

(* ================================================================== *)
(** * Strings: basic facts *)
(* ================================================================== *)

Section StringFacts.

Lemma str_eqb_refl (s : jsstring) : str_eqb s s = true.
Proof.
  induction s as [|c s IH]; simpl; [reflexivity|].
  now rewrite N.eqb_refl, IH.
Qed.

Lemma str_eqb_eq (a b : jsstring) : str_eqb a b = true <-> a = b.
Proof.
  split.
  - revert b; induction a as [|x a IH]; intros [|y b]; simpl; try easy.
    intros H. apply andb_true_iff in H as [Hx Hab].
    apply N.eqb_eq in Hx. f_equal; auto.
  - intros ->. apply str_eqb_refl.
Qed.

Lemma str_eqb_neq (a b : jsstring) : str_eqb a b = false <-> a <> b.
Proof.
  rewrite <- str_eqb_eq. destruct (str_eqb a b); split; congruence.
Qed.

Lemma dropPrefix_app (p s : jsstring) : dropPrefix p (p ++ s) = Some s.
Proof.
  induction p as [|c p IH]; simpl; [now destruct s|].
  now rewrite N.eqb_refl.
Qed.

Lemma dropPrefix_Some (p s r : jsstring) :
  dropPrefix p s = Some r -> s = p ++ r.
Proof.
  revert s; induction p as [|c p IH]; intros [|y s]; simpl; try congruence.
  destruct (N.eqb c y) eqn:E; [|congruence].
  apply N.eqb_eq in E. subst y. intros H. f_equal. auto.
Qed.

Lemma startsWith_app (p s : jsstring) : startsWith (p ++ s) p = true.
Proof. unfold startsWith. now rewrite dropPrefix_app. Qed.

Lemma startsWith_true (s p : jsstring) :
  startsWith s p = true -> exists r, s = p ++ r.
Proof.
  unfold startsWith. destruct (dropPrefix p s) eqn:E; [|discriminate].
  intros _. exists j. now apply dropPrefix_Some.
Qed.

Lemma includes_cons (c : code_unit) (s sub : jsstring) :
  includes s sub = true -> includes (c :: s) sub = true.
Proof.
  intros H. cbn [includes]. rewrite H. apply orb_true_r.
Qed.

Lemma includes_app_l (a s sub : jsstring) :
  includes s sub = true -> includes (a ++ s) sub = true.
Proof.
  intros H. induction a as [|c a IH]; [assumption|].
  simpl app. now apply includes_cons.
Qed.

Lemma includes_start (s sub : jsstring) :
  startsWith s sub = true -> includes s sub = true.
Proof. intros H. destruct s; cbn [includes]; now rewrite H. Qed.

(** A string includes each of its pieces. *)
Lemma includes_middle (a m b : jsstring) : includes (a ++ m ++ b) m = true.
Proof. apply includes_app_l, includes_start, startsWith_app. Qed.

Lemma includes_true (s sub : jsstring) :
  includes s sub = true -> exists a b, s = a ++ sub ++ b.
Proof.
  induction s as [|c s IH]; cbn [includes]; intros H.
  - rewrite orb_false_r in H. apply startsWith_true in H as [r ->].
    now exists [], r.
  - apply orb_true_iff in H as [H|H].
    + apply startsWith_true in H as [r ->]. now exists [], r.
    + destruct (IH H) as (a & b & ->). now exists (c :: a), b.
Qed.

End StringFacts.

(* ================================================================== *)
(** * ReceiptScanner *)
(* ================================================================== *)

Section ScannerFacts.

Lemma has_includes (d sub : jsstring) :
  includes [] sub = false -> has d sub = includes d sub.
Proof. intros H. destruct d; [now rewrite H|reflexivity]. Qed.

Lemma classify_unfold (r : ExtractionResult) :
  classify r =
  if errorMarked (description r) then ErrorPath
  else if num_gt (amount r) num_zero || nonGeneric (description r)
  then SuccessPath
  else if formatMarked (description r) then InfoPath
  else InfoFallback.
Proof.
  unfold classify, errorMarked, formatMarked.
  now rewrite !has_includes by reflexivity.
Qed.

Lemma nonGeneric_formatMarked (d : jsstring) :
  formatMarked d = true -> nonGeneric d = false.
Proof.
  unfold formatMarked, nonGeneric, hasNeither. intros H.
  destruct d; [reflexivity|]. rewrite H. apply andb_false_r.
Qed.

End ScannerFacts.

(** C8 (counterexample).  A result with a positive amount whose description
    contains "format not recognized" and no error marker is presented on the
    success path, while the stated order puts it on the info path. *)
Lemma C8_counterexample :
  let r := mkResult (Number_of twelve) (ValidDate 1700000000000)
                    (lit "format not recognized") (lit "Unknown merchant")
                    sentinel in
  classify r = SuccessPath /\ classify_spec r = InfoPath /\
  scanEffect (Some r) false =
    [ onScanComplete r; toast_success (lit "Receipt scanned successfully!") ].
Proof. vm_compute. repeat split. Qed.

(** C8 (amended).  The effect of the component presents a delivered result
    by the first test that holds, in this order: an error marker ("Error:" or
    "Failed to connect") gives the error path; otherwise a positive amount or
    a non-generic description (non-empty, with neither "Receipt scan" nor
    "format not recognized") gives the success path; otherwise
    "format not recognized" gives the info path; otherwise the info
    fallback.  This is the stated order except for a result without error
    marker whose amount is positive and whose description contains
    "format not recognized". *)
Theorem C8_presentation_order (r : ExtractionResult) :
  let d := description r in
  scanEffect (Some r) false = present (classify r) r /\
  (errorMarked d = true -> classify r = ErrorPath) /\
  (errorMarked d = false ->
   num_gt (amount r) num_zero || nonGeneric d = true ->
   classify r = SuccessPath) /\
  (errorMarked d = false ->
   num_gt (amount r) num_zero || nonGeneric d = false ->
   formatMarked d = true -> classify r = InfoPath) /\
  (errorMarked d = false ->
   num_gt (amount r) num_zero || nonGeneric d = false ->
   formatMarked d = false -> classify r = InfoFallback) /\
  (classify r = classify_spec r <->
   ~ (errorMarked d = false /\ num_gt (amount r) num_zero = true /\
      formatMarked d = true)).
Proof.
  intros d. split; [reflexivity|].
  rewrite classify_unfold. fold d.
  repeat split.
  - now intros ->.
  - now intros -> ->.
  - now intros -> -> ->.
  - now intros -> -> ->.
  - unfold classify_spec. fold d. fold (errorMarked d) (formatMarked d).
    destruct (errorMarked d); [intros _ [[=] _]|].
    destruct (formatMarked d) eqn:F.
    + rewrite (nonGeneric_formatMarked _ F), orb_false_r.
      destruct (num_gt (amount r) num_zero); [discriminate|].
      now intros _ (_ & [=] & _).
    + now intros _ (_ & _ & [=]).
  - unfold classify_spec. fold d. fold (errorMarked d) (formatMarked d).
    destruct (errorMarked d); [reflexivity|].
    destruct (formatMarked d) eqn:F; [|reflexivity].
    rewrite (nonGeneric_formatMarked _ F), orb_false_r.
    destruct (num_gt (amount r) num_zero); [|reflexivity].
    intros H. exfalso. apply H. now repeat split.
Qed.

Lemma C8_presentation_order_witness :
  let r := mkResult num_zero (ValidDate 1700000000000)
                    (lit "Receipt scan - AI response format not recognized. Please manually enter details.")
                    (lit "Unknown merchant") sentinel in
  errorMarked (description r) = false /\
  num_gt (amount r) num_zero || nonGeneric (description r) = false /\
  formatMarked (description r) = true /\
  classify r = InfoPath.
Proof.
  intros r.
  split; [vm_compute; reflexivity|].
  split; [vm_compute; reflexivity|].
  split; [vm_compute; reflexivity|].
  destruct (C8_presentation_order r) as (_ & _ & _ & H & _).
  apply H; vm_compute; reflexivity.
Defined.


(* ================================================================== *)
(** * Dashboard readers *)
(* ================================================================== *)

Section ReaderFacts.

Variables (env : Env) (db : Database) (clerkId : jsstring).
Hypothesis signedIn : auth env = Normal (Some clerkId).
Hypothesis nonEmpty : clerkId <> [].

Lemma requireUser_signedIn : requireUser env db = (Normal clerkId, db).
Proof.
  unfold requireUser. run_eff. rewrite signedIn.
  destruct clerkId; [contradiction|reflexivity].
Qed.

Lemma getUserAccounts_total :
  exists rows, getUserAccounts env db = (Normal rows, db).
Proof.
  unfold getUserAccounts, bind at 1. rewrite requireUser_signedIn.
  unfold user_findUnique, account_findMany_counted. run_eff.
  destruct (fail_user_findUnique env); [eauto|].
  destruct (find _ (users db)); [|eauto].
  destruct (fail_account_findMany env); eauto.
Qed.

Lemma getDashboardData_total :
  exists rows, getDashboardData env db = (Normal rows, db).
Proof.
  unfold getDashboardData, bind at 1. rewrite requireUser_signedIn.
  unfold user_findUnique, transaction_findMany. run_eff.
  destruct (fail_user_findUnique env); [eauto|].
  destruct (find _ (users db)); [|eauto].
  destruct (fail_transaction_findMany env); eauto.
Qed.

Lemma getUserAccounts_unreachable :
  accountsUnreachable env \/ userMissing db clerkId ->
  getUserAccounts env db = (Normal [], db).
Proof.
  unfold getUserAccounts, bind at 1. rewrite requireUser_signedIn.
  unfold user_findUnique, account_findMany_counted, accountsUnreachable,
    userMissing. run_eff.
  intros [[H|H]|H].
  - destruct (fail_user_findUnique env); [reflexivity|congruence].
  - destruct (fail_user_findUnique env); [reflexivity|].
    destruct (find _ (users db)); [|reflexivity].
    destruct (fail_account_findMany env); [reflexivity|congruence].
  - destruct (fail_user_findUnique env); [reflexivity|].
    now rewrite H.
Qed.

Lemma getDashboardData_unreachable :
  transactionsUnreachable env \/ userMissing db clerkId ->
  getDashboardData env db = (Normal [], db).
Proof.
  unfold getDashboardData, bind at 1. rewrite requireUser_signedIn.
  unfold user_findUnique, transaction_findMany, transactionsUnreachable,
    userMissing. run_eff.
  intros [[H|H]|H].
  - destruct (fail_user_findUnique env); [reflexivity|congruence].
  - destruct (fail_user_findUnique env); [reflexivity|].
    destruct (find _ (users db)); [|reflexivity].
    destruct (fail_transaction_findMany env); [reflexivity|congruence].
  - destruct (fail_user_findUnique env); [reflexivity|].
    now rewrite H.
Qed.

Lemma getUserAccounts_noAccounts :
  noAccounts env db clerkId -> getUserAccounts env db = (Normal [], db).
Proof.
  intros (F1 & F2 & u & Hu & Hnone).
  unfold getUserAccounts, bind at 1. rewrite requireUser_signedIn.
  unfold user_findUnique, account_findMany_counted. run_eff.
  now rewrite F1, Hu, F2, Hnone.
Qed.

Lemma getDashboardData_noTransactions :
  noTransactions env db clerkId -> getDashboardData env db = (Normal [], db).
Proof.
  intros (F1 & F2 & u & Hu & Hnone).
  unfold getDashboardData, bind at 1. rewrite requireUser_signedIn.
  unfold user_findUnique, transaction_findMany. run_eff.
  now rewrite F1, Hu, F2, Hnone.
Qed.

End ReaderFacts.

(** C9.  When authentication yields a user id, [getUserAccounts] and
    [getDashboardData] return and never throw; when the user record is
    missing or one of their queries fails they return the empty array, which
    is also what they return for a user of a reachable store who owns no
    rows, so the two situations give the caller the same value. *)
Theorem C9_readers_return_empty_on_failure
        (env : Env) (db : Database) (clerkId : jsstring) :
  auth env = Normal (Some clerkId) -> clerkId <> [] ->
  (exists rows, getUserAccounts env db = (Normal rows, db)) /\
  (exists rows, getDashboardData env db = (Normal rows, db)) /\
  (accountsUnreachable env \/ userMissing db clerkId ->
   getUserAccounts env db = (Normal [], db)) /\
  (transactionsUnreachable env \/ userMissing db clerkId ->
   getDashboardData env db = (Normal [], db)) /\
  (forall env' db',
      auth env' = Normal (Some clerkId) ->
      accountsUnreachable env \/ userMissing db clerkId ->
      noAccounts env' db' clerkId ->
      fst (getUserAccounts env db) = fst (getUserAccounts env' db')) /\
  (forall env' db',
      auth env' = Normal (Some clerkId) ->
      transactionsUnreachable env \/ userMissing db clerkId ->
      noTransactions env' db' clerkId ->
      fst (getDashboardData env db) = fst (getDashboardData env' db')).
Proof.
  intros Hauth Hne. repeat split.
  - now apply getUserAccounts_total with clerkId.
  - now apply getDashboardData_total with clerkId.
  - now apply getUserAccounts_unreachable.
  - now apply getDashboardData_unreachable.
  - intros env' db' Hauth' Hbad Hnone.
    rewrite (getUserAccounts_unreachable Hauth Hne Hbad).
    now rewrite (getUserAccounts_noAccounts Hauth' Hne Hnone).
  - intros env' db' Hauth' Hbad Hnone.
    rewrite (getDashboardData_unreachable Hauth Hne Hbad).
    now rewrite (getDashboardData_noTransactions Hauth' Hne Hnone).
Qed.

Lemma C9_readers_return_empty_on_failure_witness :
  let down := sampleEnv None (Some connectionLost) in
  let up := sampleEnv None None in
  auth down = Normal (Some (lit "clerk_alice")) /\
  accountsUnreachable down /\
  noAccounts up emptyStore (lit "clerk_alice") /\
  getUserAccounts down store = (Normal [], store) /\
  fst (getUserAccounts down store) = fst (getUserAccounts up emptyStore).
Proof.
  intros down up.
  assert (Hauth : auth down = Normal (Some (lit "clerk_alice"))) by reflexivity.
  assert (Hne : lit "clerk_alice" <> []) by discriminate.
  assert (Hbad : accountsUnreachable down) by (right; discriminate).
  assert (Hnone : noAccounts up emptyStore (lit "clerk_alice")).
  { split; [reflexivity|]. split; [reflexivity|].
    exists alice. split; reflexivity. }
  destruct (@C9_readers_return_empty_on_failure down store _ Hauth Hne)
    as (_ & _ & H3 & _ & H5 & _).
  split; [exact Hauth|]. split; [exact Hbad|]. split; [exact Hnone|].
  split; [apply H3; now left|].
  apply H5; [reflexivity|now left|exact Hnone].
Defined.


(* ================================================================== *)
(** * createAccount and the default account *)
(* ================================================================== *)

Section DefaultAccountFacts.

(** Every run of [createAccount] either throws with the store untouched, or
    reaches the creation step for the signed-in user. *)
Lemma createAccount_cases (env : Env) (data : AccountInput) (db : Database) :
  (exists e, createAccount env data db = (Throw e, db)) \/
  (exists user,
      let should := decideDefault (seenAccounts env (user_id user) db) data in
      let db1 := afterClearing env (user_id user) should db in
      let a := newAccount env (user_id user) data should in
      (exists e, createAccount env data db = (Throw e, db1)) \/
      createAccount env data db = (Normal (serializeAccount env a), added a db1)).
Proof.
  unfold createAccount, createAccount_try, requireUser, user_findUnique,
    account_findMany, account_updateMany_clearDefault, account_create.
  run_eff.
  destruct (auth env) as [[[|c u]|]|e]; eauto.
  destruct (protect env) as [[| |]|e]; eauto.
  destruct (fail_user_findUnique env); eauto.
  destruct (find _ (users db)) as [user|]; eauto.
  destruct (isNaN _); eauto.
  right. exists user.
  unfold seenAccounts, afterClearing, decideDefault, newAccount, cleared, added.
  destruct (fail_account_findMany env); cbn beta iota zeta.
  - destruct (fail_account_updateMany env), (fail_account_create env); eauto.
  - destruct (filter _ (accounts db)); cbn beta iota zeta.
    + destruct (fail_account_updateMany env), (fail_account_create env); eauto.
    + destruct (in_isDefault data); cbn beta iota zeta;
        destruct (fail_account_updateMany env), (fail_account_create env); eauto.
Qed.

Lemma ownedBy_true (u : jsstring) (a : Account) :
  ownedBy u a = true <-> acc_userId a = u.
Proof. apply str_eqb_eq. Qed.

Lemma defaultsOf_cleared_own (u : jsstring) (db : Database) :
  defaultsOf u (cleared u db) = [].
Proof.
  unfold defaultsOf, cleared; simpl.
  induction (accounts db) as [|a l IH]; [reflexivity|]. simpl.
  destruct (ownedBy u a && acc_isDefault a) eqn:E.
  - unfold clearDefault at 1 2. unfold ownedBy at 1. simpl.
    now rewrite andb_false_r.
  - now rewrite E.
Qed.

Lemma defaultsOf_cleared_other (u u' : jsstring) (db : Database) :
  u' <> u -> defaultsOf u' (cleared u db) = defaultsOf u' db.
Proof.
  intros Hne. unfold defaultsOf, cleared; simpl.
  induction (accounts db) as [|a l IH]; [reflexivity|]. simpl.
  destruct (ownedBy u a && acc_isDefault a) eqn:E.
  - apply andb_true_iff in E as [Ho _]. apply ownedBy_true in Ho.
    assert (H1 : ownedBy u' (clearDefault a) = false).
    { unfold ownedBy, clearDefault; simpl. apply str_eqb_neq. congruence. }
    assert (H2 : ownedBy u' a = false).
    { unfold ownedBy. apply str_eqb_neq. congruence. }
    now rewrite H1, H2.
  - now rewrite IH.
Qed.

Lemma accountsOf_cleared_nil (u u' : jsstring) (db : Database) :
  accountsOf u' db = [] -> accountsOf u' (cleared u db) = [].
Proof.
  unfold accountsOf, cleared; simpl.
  induction (accounts db) as [|a l IH]; [reflexivity|]. simpl.
  assert (E : ownedBy u'
                (if ownedBy u a && acc_isDefault a then clearDefault a else a)
              = ownedBy u' a) by now destruct (ownedBy u a && acc_isDefault a).
  rewrite E. destruct (ownedBy u' a); [discriminate|exact IH].
Qed.

Lemma defaultsOf_added (u : jsstring) (a : Account) (db : Database) :
  defaultsOf u (added a db) =
  defaultsOf u db ++ (if ownedBy u a && acc_isDefault a then [a] else []).
Proof.
  unfold defaultsOf, added; simpl. rewrite filter_app. simpl.
  now destruct (ownedBy u a && acc_isDefault a).
Qed.

Lemma accountsOf_added (u : jsstring) (a : Account) (db : Database) :
  accountsOf u (added a db) =
  accountsOf u db ++ (if ownedBy u a then [a] else []).
Proof.
  unfold accountsOf, added; simpl. rewrite filter_app. simpl.
  now destruct (ownedBy u a).
Qed.

Lemma jsstring_eq_dec (a b : jsstring) : {a = b} + {a <> b}.
Proof. apply list_eq_dec, N.eq_dec. Qed.

(** Clearing keeps "at most one default" for everybody. *)
Lemma atMostOne_afterClearing (env : Env) (u u' : jsstring) (should : bool)
      (db : Database) :
  atMostOneDefault u' db -> atMostOneDefault u' (afterClearing env u should db).
Proof.
  unfold afterClearing, atMostOneDefault. intros H.
  destruct should; [|exact H].
  destruct (fail_account_updateMany env); [exact H|].
  destruct (jsstring_eq_dec u' u) as [->|Hne].
  - rewrite defaultsOf_cleared_own. simpl. lia.
  - now rewrite defaultsOf_cleared_other.
Qed.

End DefaultAccountFacts.

(** C10 (counterexample).  The user owns one default account; the new
    account asks to be the default; the clearing [updateMany] fails and the
    [create] succeeds: the user ends with two default accounts. *)
Lemma C10_counterexample :
  let env := sampleEnv (Some connectionLost) None in
  atMostOneDefault (lit "u1") store /\
  exists s db',
    createAccount env (savings true) store = (Normal s, db') /\
    acc_isDefault (source s) = true /\
    defaultsOf (lit "u1") db' = [checking; source s] /\
    ~ atMostOneDefault (lit "u1") db'.
Proof.
  intros env. split; [vm_compute; lia|].
  eexists. eexists. split; [vm_compute; reflexivity|].
  split; [reflexivity|]. split; [vm_compute; reflexivity|].
  vm_compute. lia.
Qed.

(** C10 (amended).  [createAccount] keeps "at most one default account per
    user" whenever its clearing [updateMany] does not fail, and keeps "a
    default account exists when any account exists" whenever it returns:
    a user with no existing account gets the new one as default whatever
    [isDefault] says; and when the new account is default and the clearing
    did not fail, it is the user's only default account in the store it was
    added to. *)
Theorem C10_default_account_invariant
        (env : Env) (data : AccountInput) (db : Database) :
  let db' := snd (createAccount env data db) in
  (fail_account_updateMany env = None ->
   forall u, atMostOneDefault u db -> atMostOneDefault u db') /\
  (forall s, fst (createAccount env data db) = Normal s ->
     let a := source s in
     In a (accounts db') /\
     (forall u, someDefaultIfAny u db -> someDefaultIfAny u db') /\
     (accountsOf (acc_userId a) db = [] \/ fail_account_findMany env <> None ->
      acc_isDefault a = true) /\
     (fail_account_updateMany env = None -> acc_isDefault a = true ->
      defaultsOf (acc_userId a) db' = [a])).
Proof.
  intros db'. subst db'.
  destruct (createAccount_cases env data db) as [[e E]|[user H]].
  { rewrite E. simpl. split; [auto|]. intros s [=]. }
  cbv zeta in H.
  set (uid := user_id user) in *.
  set (should := decideDefault (seenAccounts env uid db) data) in *.
  set (db1 := afterClearing env uid should db) in *.
  set (a := newAccount env uid data should) in *.
  assert (Hown : forall u, ownedBy u a = true <-> u = uid).
  { intros u. rewrite ownedBy_true. subst a. simpl. split; congruence. }
  split.
  - (* at most one default *)
    intros Hup u Hone.
    assert (H1 : atMostOneDefault u db1)
      by now apply atMostOne_afterClearing.
    destruct H as [[e E]|E]; rewrite E; simpl; [exact H1|].
    unfold atMostOneDefault. rewrite defaultsOf_added.
    destruct (ownedBy u a && acc_isDefault a) eqn:Ea.
    + apply andb_true_iff in Ea as [Ho Hd]. apply Hown in Ho. subst u.
      assert (Hs : should = true) by exact Hd.
      unfold db1, afterClearing. rewrite Hs, Hup.
      rewrite defaultsOf_cleared_own. simpl. lia.
    + rewrite app_nil_r. exact H1.
  - intros s Hs.
    destruct H as [[e E]|E]; rewrite E in Hs; simpl in Hs; [discriminate|].
    injection Hs as <-. rewrite E. simpl.
    change (source (serializeAccount env a)) with a.
    change (acc_userId a) with uid.
    change (acc_isDefault a) with should.
    repeat split.
    + apply in_or_app. right. now left.
    + (* a default exists when an account exists *)
      intros u Hinv Hany. rewrite defaultsOf_added.
      destruct (jsstring_eq_dec u uid) as [->|Hne].
      * assert (Ho : ownedBy uid a = true) by now apply Hown.
        rewrite Ho. change (acc_isDefault a) with should. simpl.
        assert (Hcase : should = true \/ should = false)
          by (destruct should; auto).
        destruct Hcase as [Hsh|Hsh]; rewrite Hsh;
          [now destruct (defaultsOf uid db1)|].
        rewrite app_nil_r.
        assert (Hdb1 : db1 = db) by (unfold db1, afterClearing; now rewrite Hsh).
        rewrite Hdb1. apply Hinv.
        unfold should, decideDefault, seenAccounts in Hsh.
        unfold accountsOf.
        destruct (fail_account_findMany env); [discriminate|].
        destruct (filter (ownedBy uid) (accounts db)); [discriminate|easy].
      * assert (Ho : ownedBy u a = false).
        { destruct (ownedBy u a) eqn:Ho; [|reflexivity].
          apply Hown in Ho. contradiction. }
        rewrite Ho. simpl. rewrite app_nil_r.
        rewrite accountsOf_added, Ho, app_nil_r in Hany.
        unfold db1, afterClearing in *.
        destruct should; [|now apply Hinv].
        destruct (fail_account_updateMany env); [now apply Hinv|].
        rewrite defaultsOf_cleared_other by assumption.
        apply Hinv. intros Hnil. apply Hany.
        now apply accountsOf_cleared_nil.
    + (* the first account is the default *)
      intros Hnone. unfold should, decideDefault, seenAccounts.
      destruct (fail_account_findMany env); [reflexivity|].
      destruct Hnone as [Hnone|Hnone]; [|congruence].
      unfold accountsOf in Hnone. now rewrite Hnone.
    + (* the only default *)
      intros Hup Hsh. rewrite defaultsOf_added.
      assert (Ho : ownedBy uid a = true) by now apply Hown.
      rewrite Ho. change (acc_isDefault a) with should. rewrite Hsh. simpl.
      unfold db1, afterClearing. rewrite Hsh, Hup.
      now rewrite defaultsOf_cleared_own.
Qed.

Lemma C10_default_account_invariant_witness :
  let env := sampleEnv None None in
  fail_account_updateMany env = None /\
  atMostOneDefault (lit "u1") store /\
  atMostOneDefault (lit "u1") (snd (createAccount env (savings true) store)).
Proof.
  intros env.
  split; [reflexivity|].
  assert (Hpre : atMostOneDefault (lit "u1") store) by (vm_compute; lia).
  split; [exact Hpre|].
  destruct (C10_default_account_invariant env (savings true) store) as [H _].
  apply H; [reflexivity|exact Hpre].
Defined.


(* ================================================================== *)
(** * scanReceipt: the endpoint loop *)
(* ================================================================== *)

Section LoopFacts.

Variable w : World.

Lemma attempt_success (ep : jsstring) (p : json) (l : NetLog) :
  payloadOf (outcomeOf w ep) = Some p ->
  attempt w (apiKey w) ep l = (Normal (Break p), l ++ [urlOf w ep]).
Proof.
  unfold payloadOf, outcomeOf, urlOf, attempt, await_fetch. run_eff.
  destruct (fetch w _) as [e|r]; [discriminate|].
  destruct (ok r); [|discriminate].
  destruct (body_json r); [|discriminate].
  now intros [= ->].
Qed.

Lemma attempt_failure (ep : jsstring) (l : NetLog) :
  payloadOf (outcomeOf w ep) = None ->
  exists e, failureOf (outcomeOf w ep) = Some e /\
            attempt w (apiKey w) ep l = (Normal (Continue e), l ++ [urlOf w ep]).
Proof.
  unfold payloadOf, failureOf, outcomeOf, urlOf, attempt, await_fetch. run_eff.
  destruct (fetch w _) as [e|r]; [eauto|].
  destruct (ok r).
  - destruct (body_json r); [discriminate|eauto].
  - destruct (body_text r); eauto.
Qed.

Lemma tryEndpoints_allFail (endpoints : list jsstring) :
  allFail w endpoints ->
  forall st l,
    tryEndpoints w (apiKey w) endpoints st l =
    (Normal (mkLoop (apiResponse st) (lastFailure w endpoints (lastError st))),
     l ++ map (urlOf w) endpoints).
Proof.
  induction endpoints as [|ep rest IH]; intros Hall st l.
  - simpl. unfold ret. rewrite app_nil_r. now destruct st.
  - cbn [tryEndpoints]. unfold bind at 1.
    destruct (attempt_failure ep l) as (e & He & ->);
      [apply Hall; now left|].
    rewrite IH by (intros x Hx; apply Hall; now right).
    cbn [map lastFailure fold_left apiResponse lastError].
    rewrite He, <- app_assoc. reflexivity.
Qed.

Lemma tryEndpoints_firstSuccess (pre : list jsstring) (ep : jsstring)
      (post : list jsstring) (p : json) :
  allFail w pre ->
  payloadOf (outcomeOf w ep) = Some p ->
  forall st l,
    tryEndpoints w (apiKey w) (pre ++ ep :: post) st l =
    (Normal (mkLoop p (lastFailure w pre (lastError st))),
     l ++ map (urlOf w) (pre ++ [ep])).
Proof.
  induction pre as [|x pre IH]; intros Hall Hp st l.
  - cbn [app tryEndpoints]. unfold bind at 1.
    now rewrite (attempt_success _ l Hp).
  - cbn [app tryEndpoints]. unfold bind at 1.
    destruct (attempt_failure x l) as (e & He & ->);
      [apply Hall; now left|].
    rewrite IH; [|intros y Hy; apply Hall; now right|assumption].
    cbn [map app lastFailure fold_left apiResponse lastError].
    rewrite He, <- app_assoc. reflexivity.
Qed.

(** Either every endpoint of a list fails, or there is a first one that
    succeeds. *)
Lemma endpoints_split (endpoints : list jsstring) :
  allFail w endpoints \/
  exists pre ep post p,
    endpoints = pre ++ ep :: post /\ allFail w pre /\
    payloadOf (outcomeOf w ep) = Some p.
Proof.
  induction endpoints as [|x rest IH].
  - left. intros ep [].
  - destruct (payloadOf (outcomeOf w x)) as [p|] eqn:Hx.
    + right. exists [], x, rest, p. repeat split; [|assumption].
      intros ep [].
    + destruct IH as [Hall|(pre & ep & post & p & -> & Hpre & Hp)].
      * left. intros ep [<-|Hin]; auto.
      * right. exists (x :: pre), ep, post, p. repeat split; [|assumption].
        intros y [<-|Hin]; auto.
Qed.

Lemma lastFailure_nonempty (endpoints : list jsstring) (init : option Error) :
  endpoints <> [] -> allFail w endpoints ->
  exists e, lastFailure w endpoints init = Some e /\
            failureOf (outcomeOf w (last endpoints [])) = Some e.
Proof.
  revert init. induction endpoints as [|x rest IH]; intros init Hne Hall;
    [contradiction|].
  destruct (attempt_failure x [] (Hall x (or_introl eq_refl))) as (e & He & _).
  destruct rest as [|y rest].
  - exists e. cbn. now rewrite He.
  - cbn [lastFailure fold_left]. rewrite He.
    destruct (IH (Some e)) as (e' & H1 & H2);
      [discriminate|intros z Hz; apply Hall; now right|].
    exists e'. split; [exact H1|exact H2].
Qed.

End LoopFacts.

(* ================================================================== *)
(** * scanReceipt: shape of a run *)
(* ================================================================== *)

Section RunFacts.

Variable w : World.

Lemma bind_Normal {S A B} (m : Eff S A) (f : A -> Eff S B) st b st' :
  bind m f st = (Normal b, st') ->
  exists a st1, m st = (Normal a, st1) /\ f a st1 = (Normal b, st').
Proof.
  unfold bind. destruct (m st) as [[a|e] st1]; [eauto|discriminate].
Qed.

(** The outer [catch] turns every completion into a returned result. *)
Lemma scanReceipt_returns (formData : FormData) (l : NetLog) :
  exists r l', scanReceipt w formData l = (Normal r, l') /\
    ((scanReceipt_try w formData l = (Normal r, l')) \/
     (exists e, scanReceipt_try w formData l = (Throw e, l')
                /\ r = errorResult w e)).
Proof.
  unfold scanReceipt, tryCatch.
  destruct (scanReceipt_try w formData l) as [[r|e] l']; unfold ret; eauto 7.
Qed.

Lemma stateless_ret {S A} (a : A) : stateless (@ret S A a).
Proof. now intros st st0. Qed.

Lemma stateless_throw {S A} (e : Error) : stateless (@throw S A e).
Proof. now intros st st0. Qed.

Lemma stateless_lift {S A} (c : Completion A) : stateless (@lift S A c).
Proof. now intros st st0. Qed.

Lemma stateless_bind {S A B} (m : Eff S A) (f : A -> Eff S B) :
  stateless m -> (forall a, stateless (f a)) -> stateless (bind m f).
Proof.
  intros Hm Hf st st0. unfold bind.
  rewrite (Hm st st0), (Hm st0 st0).
  destruct (fst (m st0)) as [a|e]; [|reflexivity].
  cbn. rewrite (Hf a st st0). now rewrite (Hf a st0 st0).
Qed.

Lemma stateless_tryCatch {S A} (m : Eff S A) (h : Error -> Eff S A) :
  stateless m -> (forall e, stateless (h e)) -> stateless (tryCatch m h).
Proof.
  intros Hm Hh st st0. unfold tryCatch.
  rewrite (Hm st st0), (Hm st0 st0).
  destruct (fst (m st0)) as [a|e]; [reflexivity|].
  cbn. rewrite (Hh e st st0). now rewrite (Hh e st0 st0).
Qed.

Create HintDb stateless.

Local Hint Resolve stateless_ret stateless_throw stateless_lift
  stateless_bind stateless_tryCatch : stateless.

Lemma stateless_sanitizeDate (data : json) : stateless (sanitizeDate w data).
Proof.
  unfold sanitizeDate.
  destruct (get data (Name "date")) as [d|];
    [destruct (truthy_json d)|]; auto with stateless.
Qed.

Lemma stateless_sanitize (data : json) : stateless (sanitize w data).
Proof.
  unfold sanitize.
  destruct data; auto using stateless_sanitizeDate with stateless.
Qed.

Lemma stateless_parseAndValidate (jsonString : jsstring) :
  stateless (parseAndValidate w jsonString).
Proof.
  unfold parseAndValidate. apply stateless_tryCatch; auto with stateless.
  destruct (JSON_parse w jsonString); auto using stateless_sanitize with stateless.
Qed.

Lemma tryCatch_ret_Normal {S A} (m : Eff S A) (h : Error -> A) st :
  exists a st', tryCatch m (fun e => ret (h e)) st = (Normal a, st').
Proof.
  unfold tryCatch, ret. destruct (m st) as [[a|e] st1]; eauto.
Qed.

(** The inner [try]/[catch] always returns. *)
Lemma parseAndValidate_total (jsonString : jsstring) (l : NetLog) :
  exists r, parseAndValidate w jsonString l = (Normal r, l).
Proof.
  rewrite (stateless_parseAndValidate jsonString l l).
  unfold parseAndValidate at 1.
  match goal with
  | |- context [tryCatch ?m _ l] =>
      destruct (tryCatch_ret_Normal m (fun _ => formatNotRecognized w) l)
        as (r & l1 & ->)
  end.
  now exists r.
Qed.

Lemma stateless_extractText (p : json) : stateless (extractText w p).
Proof.
  unfold extractText. destruct p; auto with stateless;
    match goal with
    | |- stateless (match ?t with Some _ => _ | None => _ end) =>
        destruct t
    end; auto with stateless.
Qed.

(** The processing of a kept response makes no request. *)
Lemma stateless_processResponse (p : json) : stateless (processResponse w p).
Proof.
  unfold processResponse. apply stateless_bind.
  - apply stateless_extractText.
  - intros text. apply stateless_bind.
    + unfold asString. destruct text; auto with stateless.
    + intros s0. apply stateless_parseAndValidate.
Qed.

Lemma processResponse_log (p : json) (l : NetLog) :
  processResponse w p l = (fst (processResponse w p []), l).
Proof. apply stateless_processResponse. Qed.

(** ** The pre-checks *)

Lemma scanReceipt_missing (formData : FormData) :
  missing (formData_get formData (lit "file")) = true ->
  run (scanReceipt w formData) =
  (Normal (errorResult w (new_Error (lit "No file provided"))), []).
Proof.
  intros H. unfold run, scanReceipt, scanReceipt_try. run_eff.
  now rewrite H.
Qed.

Lemma scanReceipt_oversize (formData : FormData) (file : FormEntry) :
  formData_get formData (lit "file") = Some file ->
  missing (Some file) = false -> oversize file = true ->
  run (scanReceipt w formData) =
  (Normal (errorResult w (new_Error (lit "File size should be less than 5MB"))),
   []).
Proof.
  intros Hf Hm Ho. unfold run, scanReceipt, scanReceipt_try. run_eff.
  now rewrite Hf, Hm, Ho.
Qed.

Lemma scanReceipt_unconfigured (formData : FormData) (file : FormEntry) :
  formData_get formData (lit "file") = Some file ->
  missing (Some file) = false -> oversize file = false ->
  unconfigured w = true ->
  run (scanReceipt w formData) =
  (Normal (errorResult w (new_Error
     (lit "GEMINI_API_KEY is not configured in environment variables"))), []).
Proof.
  intros Hf Hm Ho Hk. unfold run, scanReceipt, scanReceipt_try. run_eff.
  rewrite Hf, Hm, Ho. unfold unconfigured in Hk. now rewrite Hk.
Qed.

(** ** After the pre-checks *)

Lemma scanReceipt_accepted (formData : FormData) :
  accepted w formData = true ->
  run (scanReceipt w formData) =
  tryCatch (st <- tryEndpoints w (apiKey w) endpointsToTry (mkLoop JNull None) ;;
            afterLoop w st)
           (fun error => ret (errorResult w error)) [].
Proof.
  unfold accepted, run, scanReceipt, scanReceipt_try, afterLoop.
  destruct (formData_get formData (lit "file")) as [[f|s0]|]; try discriminate.
  destruct (GEMINI_API_KEY w) as [[|c k]|] eqn:Hk; try discriminate.
  intros Hsize. run_eff.
  assert (Hlt : oversize (FileEntry f) = false).
  { apply N.ltb_ge. now apply N.leb_le. }
  rewrite Hlt. reflexivity.
Qed.

Lemma scanReceipt_allFail (formData : FormData) :
  accepted w formData = true ->
  allFail w endpointsToTry ->
  exists e,
    failureOf (outcomeOf w (last endpointsToTry [])) = Some e /\
    run (scanReceipt w formData) =
    (Normal (errorResult w e), map (urlOf w) endpointsToTry).
Proof.
  intros Hacc Hall.
  destruct (@lastFailure_nonempty w endpointsToTry None) as (e & He & Hlast);
    [discriminate|assumption|].
  exists e. split; [exact Hlast|].
  rewrite (scanReceipt_accepted _ Hacc).
  unfold tryCatch, bind at 1.
  rewrite (@tryEndpoints_allFail w endpointsToTry Hall).
  cbn [apiResponse lastError]. rewrite He.
  unfold afterLoop. cbn [apiResponse lastError truthy_json negb].
  reflexivity.
Qed.

Lemma scanReceipt_kept (formData : FormData) (pre : list jsstring)
      (ep : jsstring) (post : list jsstring) (p : json) :
  accepted w formData = true ->
  endpointsToTry = pre ++ ep :: post ->
  allFail w pre ->
  payloadOf (outcomeOf w ep) = Some p ->
  truthy_json p = true \/ pre = [] ->
  run (scanReceipt w formData) =
  (Normal (resultOfPayload w p), map (urlOf w) (pre ++ [ep])).
Proof.
  intros Hacc Heps Hpre Hp Hkeep.
  rewrite (scanReceipt_accepted _ Hacc), Heps.
  unfold tryCatch, bind at 1.
  rewrite (@tryEndpoints_firstSuccess w pre ep post p Hpre Hp).
  cbn [apiResponse lastError app].
  unfold afterLoop. cbn [apiResponse lastError].
  assert (Hres : forall l,
             match processResponse w p l with
             | (Normal a, st') => (Normal a, st')
             | (Throw e, st') => ret (errorResult w e) st'
             end = (Normal (resultOfPayload w p), l)).
  { intros l. rewrite processResponse_log. unfold resultOfPayload.
    now destruct (fst (processResponse w p [])). }
  destruct Hkeep as [Ht| ->].
  - rewrite Ht. cbn [negb].
    destruct (lastFailure w pre None); unfold bind, ret; apply Hres.
  - cbn [lastFailure fold_left]. unfold bind, ret at 1. apply Hres.
Qed.

(** Whatever a run returns normally from the [try] block was built by the
    inner [try]/[catch]. *)
Lemma scanReceipt_try_Normal (formData : FormData) (l l' : NetLog)
      (r : ExtractionResult) :
  scanReceipt_try w formData l = (Normal r, l') ->
  exists jsonString l1, parseAndValidate w jsonString l1 = (Normal r, l').
Proof.
  unfold scanReceipt_try, processResponse. intros H.
  repeat (apply bind_Normal in H as (? & ? & _ & H)).
  eauto.
Qed.

(** ** The requests of a run *)

Lemma snd_bind_stateless {S A B} (m : Eff S A) (f : A -> Eff S B) st :
  (forall a, stateless (f a)) -> snd (bind m f st) = snd (m st).
Proof.
  intros Hf. unfold bind. destruct (m st) as [[a|e] st1]; [|reflexivity].
  now rewrite (Hf a st1 st1).
Qed.

Lemma snd_tryCatch_stateless {S A} (m : Eff S A) (h : Error -> Eff S A) st :
  (forall e, stateless (h e)) -> snd (tryCatch m h st) = snd (m st).
Proof.
  intros Hh. unfold tryCatch. destruct (m st) as [[a|e] st1]; [reflexivity|].
  now rewrite (Hh e st1 st1).
Qed.

Lemma stateless_afterLoop (st : LoopState) : stateless (afterLoop w st).
Proof.
  unfold afterLoop. apply stateless_bind.
  - destruct (lastError st); [destruct (negb _)|]; auto with stateless.
  - intros _. apply stateless_processResponse.
Qed.

Lemma scanReceipt_requests_accepted (formData : FormData) :
  accepted w formData = true ->
  snd (run (scanReceipt w formData)) =
  snd (tryEndpoints w (apiKey w) endpointsToTry (mkLoop JNull None) []).
Proof.
  intros Hacc. rewrite (scanReceipt_accepted _ Hacc).
  rewrite snd_tryCatch_stateless by auto with stateless.
  apply snd_bind_stateless, stateless_afterLoop.
Qed.

Lemma scanReceipt_notAFile (formData : FormData) (s0 : jsstring) :
  formData_get formData (lit "file") = Some (StringEntry s0) ->
  missing (Some (StringEntry s0)) = false ->
  unconfigured w = false ->
  run (scanReceipt w formData) =
  (Normal (errorResult w (new_Error (msg_not_a_function w))), []).
Proof.
  intros Hf Hm Hk. unfold run, scanReceipt, scanReceipt_try. run_eff.
  rewrite Hf, Hm. change (oversize (StringEntry s0)) with false.
  unfold unconfigured in Hk. now rewrite Hk.
Qed.

(** A call that is not accepted makes no request. *)
Lemma scanReceipt_requests_rejected (formData : FormData) :
  accepted w formData = false -> snd (run (scanReceipt w formData)) = [].
Proof.
  intros Hrej.
  destruct (formData_get formData (lit "file")) as [file|] eqn:Hf.
  2:{ rewrite scanReceipt_missing; [reflexivity|now rewrite Hf]. }
  destruct (missing (Some file)) eqn:Hm.
  { rewrite scanReceipt_missing; [reflexivity|now rewrite Hf]. }
  destruct (oversize file) eqn:Ho.
  { now rewrite (scanReceipt_oversize _ Hf Hm Ho). }
  destruct (unconfigured w) eqn:Hk.
  { now rewrite (scanReceipt_unconfigured _ Hf Hm Ho Hk). }
  destruct file as [f|s0].
  - exfalso. unfold accepted in Hrej. rewrite Hf in Hrej.
    unfold unconfigured in Hk.
    destruct (GEMINI_API_KEY w) as [[|c k]|]; try discriminate.
    unfold oversize in Ho. apply N.ltb_ge in Ho. apply N.leb_le in Ho.
    congruence.
  - now rewrite (scanReceipt_notAFile _ Hf Hm Hk).
Qed.

Lemma firstn_map_app {A B} (f : A -> B) (pre : list A) (x : A) (post : list A) :
  map f (pre ++ [x]) = firstn (S (List.length pre)) (map f (pre ++ x :: post)).
Proof.
  induction pre as [|y pre IH]; [reflexivity|].
  cbn [app map List.length]. rewrite firstn_cons. now f_equal.
Qed.

(** The requests of a call are an initial segment of the endpoint list, in
    order. *)
Lemma scanReceipt_requests_prefix (formData : FormData) :
  exists n, snd (run (scanReceipt w formData)) =
            firstn n (map (urlOf w) endpointsToTry).
Proof.
  destruct (accepted w formData) eqn:Hacc.
  - rewrite (scanReceipt_requests_accepted _ Hacc).
    destruct (endpoints_split w endpointsToTry)
      as [Hall|(pre & ep & post & p & Heps & Hpre & Hp)].
    + rewrite (@tryEndpoints_allFail w endpointsToTry Hall).
      exists (List.length endpointsToTry). cbn [snd app].
      now rewrite <- (length_map (urlOf w)), firstn_all.
    + rewrite Heps.
      rewrite (@tryEndpoints_firstSuccess w pre ep post p Hpre Hp).
      exists (S (List.length pre)). cbn [snd app]. apply firstn_map_app.
  - exists 0%nat. now rewrite scanReceipt_requests_rejected.
Qed.

(** ** The result built from a kept payload *)

Lemma resultOfPayload_text (p : json) (text : jsstring) :
  fst (extractText w p []) = Normal (JStr text) ->
  parseAndValidate w (extractJsonString text) [] =
  (Normal (resultOfPayload w p), []).
Proof.
  intros Htext. unfold resultOfPayload, processResponse.
  unfold bind at 1. rewrite (stateless_extractText p [] []), Htext.
  cbn [asString]. unfold bind at 1, ret at 1.
  destruct (parseAndValidate_total (extractJsonString text) [])
    as (r & ->). reflexivity.
Qed.

End RunFacts.


(* ================================================================== *)
(** * scanReceipt: every returned result is well formed *)
(* ================================================================== *)

Section ResultFacts.

Variable w : World.

Lemma num_ge_abs (n : jsonNumber) :
  num_ge (Math_abs (Number_of n)) num_zero = true.
Proof. now destruct n. Qed.

Lemma sanitizeAmount_nonneg (data : json) :
  num_ge (sanitizeAmount data) num_zero = true.
Proof.
  unfold sanitizeAmount.
  destruct (get data (Name "amount")) as [[]|]; try reflexivity.
  apply num_ge_abs.
Qed.

Lemma existsb_str_eqb (c : jsstring) (l : list jsstring) :
  existsb (str_eqb c) l = true <-> In c l.
Proof.
  rewrite existsb_exists. split.
  - intros (x & Hin & Heq). apply str_eqb_eq in Heq. now subst.
  - intros Hin. exists c. split; [assumption|apply str_eqb_refl].
Qed.

Lemma sanitizeCategory_cases (data : json) :
  sanitizeCategory w data = sentinel \/
  (sanitizeCategory w data <> [] /\
   get data (Name "category") = Some (JStr (sanitizeCategory w data)) /\
   In (sanitizeCategory w data) (validCategoryList w)).
Proof.
  unfold sanitizeCategory.
  destruct (get data (Name "category")) as [[]|]; auto.
  destruct (truthy_json (JStr s) && Array_includes (validCategoryList w) (JStr s))
    eqn:E; auto.
  right. apply andb_true_iff in E as [Ht Hin].
  repeat split.
  - destruct s; [discriminate|discriminate].
  - now apply existsb_str_eqb.
Qed.

Lemma sanitizeCategory_outside (data : json) :
  (forall c, get data (Name "category") = Some (JStr c) ->
             ~ In c (validCategoryList w)) ->
  sanitizeCategory w data = sentinel.
Proof.
  intros Hout.
  destruct (sanitizeCategory_cases data) as [H|(_ & Hget & Hin)]; [exact H|].
  now destruct (Hout _ Hget).
Qed.

(** ** [split] undoes [join] on ids without a comma *)

Lemma split_commaFree (x : jsstring) : commaFree x -> split x 44%N = [x].
Proof.
  unfold commaFree. induction x as [|c x IH]; intros H; [reflexivity|].
  cbn [split]. destruct (N.eqb c 44%N) eqn:E.
  - apply N.eqb_eq in E. subst c. exfalso. apply H. now left.
  - rewrite IH; [reflexivity|]. intros Hin. apply H. now right.
Qed.

Lemma split_app_comma (x rest : jsstring) :
  commaFree x -> split (x ++ 44%N :: rest) 44%N = x :: split rest 44%N.
Proof.
  unfold commaFree. induction x as [|c x IH]; intros H; [reflexivity|].
  cbn [app split]. destruct (N.eqb c 44%N) eqn:E.
  - apply N.eqb_eq in E. subst c. exfalso. apply H. now left.
  - rewrite IH; [reflexivity|]. intros Hin. apply H. now right.
Qed.

Lemma split_join (ids : list jsstring) :
  ids <> [] -> (forall id, In id ids -> commaFree id) ->
  split (join ids (lit ",")) 44%N = ids.
Proof.
  induction ids as [|x rest IH]; intros Hne Hfree; [contradiction|].
  destruct rest as [|y rest].
  - cbn [join]. apply split_commaFree, Hfree. now left.
  - change (join (x :: y :: rest) (lit ","))
      with (x ++ 44%N :: join (y :: rest) (lit ",")).
    rewrite split_app_comma by (apply Hfree; now left).
    rewrite IH; [reflexivity|discriminate|].
    intros id Hin. apply Hfree. now right.
Qed.

Lemma validCategoryList_ids (c : jsstring) :
  (forall id, In id (expenseCategoryIds w) -> commaFree id) ->
  c <> [] -> In c (validCategoryList w) -> In c (expenseCategoryIds w).
Proof.
  unfold validCategoryList, validExpenseCategories. intros Hfree Hc Hin.
  destruct (expenseCategoryIds w) as [|x rest] eqn:E.
  - cbn in Hin. destruct Hin as [<-|[]]. contradiction.
  - rewrite split_join in Hin; [assumption|discriminate|assumption].
Qed.

(** ** The three kinds of returned result *)

Lemma wellFormed_errorResult (e : Error) : wellFormed w (errorResult w e).
Proof. split; [reflexivity|now left]. Qed.

Lemma wellFormed_formatNotRecognized : wellFormed w (formatNotRecognized w).
Proof. split; [reflexivity|now left]. Qed.

(** What the inner [try]/[catch] returns: the fixed default, or the
    validated fields of a decoded value that is not [null]. *)
Lemma parseAndValidate_cases (jsonString : jsstring) (l : NetLog) :
  parseAndValidate w jsonString l = (Normal (formatNotRecognized w), l) \/
  exists data d,
    JSON_parse w jsonString = Some data /\ data <> JNull /\
    sanitizeDate w data l = (Normal d, l) /\
    parseAndValidate w jsonString l =
    (Normal (mkResult (sanitizeAmount data) d
               (sanitizeText (get data (Name "description")) (lit "Receipt scan"))
               (sanitizeText (get data (Name "merchantName"))
                             (lit "Unknown merchant"))
               (sanitizeCategory w data)), l).
Proof.
  unfold parseAndValidate, tryCatch.
  destruct (JSON_parse w jsonString) as [data|]; [|now left].
  pose proof (stateless_sanitizeDate w data l []) as Hd.
  destruct (fst (sanitizeDate w data [])) as [d|e].
  - destruct data; try (now left);
      right; eexists; exists d;
      (split; [reflexivity|]); (split; [discriminate|]);
      (split; [exact Hd|]);
      unfold sanitize, bind; rewrite Hd; reflexivity.
  - left. destruct data; unfold sanitize, bind; try rewrite Hd; reflexivity.
Qed.

Lemma parseAndValidate_wellFormed (jsonString : jsstring) (l l' : NetLog)
      (r : ExtractionResult) :
  parseAndValidate w jsonString l = (Normal r, l') -> wellFormed w r.
Proof.
  destruct (parseAndValidate_cases jsonString l)
    as [E|(data & d & _ & _ & _ & E)]; rewrite E; intros [= <- _].
  - apply wellFormed_formatNotRecognized.
  - split; [apply sanitizeAmount_nonneg|]. cbn [category].
    destruct (sanitizeCategory_cases data) as [H|(H1 & _ & H2)]; auto.
Qed.

Lemma scanReceipt_wellFormed (formData : FormData) :
  exists r requests,
    run (scanReceipt w formData) = (Normal r, requests) /\ wellFormed w r.
Proof.
  destruct (scanReceipt_returns w formData [])
    as (r & l' & E & [Htry|(e & _ & ->)]).
  - exists r, l'. split; [exact E|].
    apply scanReceipt_try_Normal in Htry as (s0 & l1 & Hp).
    now apply parseAndValidate_wellFormed in Hp.
  - eexists. exists l'. split; [exact E|]. apply wellFormed_errorResult.
Qed.

End ResultFacts.

(** ** The fields of a validated payload *)

Lemma sanitizeDate_converts (w : World) (data : json) (l : NetLog) :
  (forall v, get data (Name "date") = Some v -> truthy_json v = true ->
             exists d, new_Date w v = Normal d) ->
  exists d,
    sanitizeDate w data l = (Normal d, l) /\
    (forall v, get data (Name "date") = Some v -> truthy_json v = true ->
               new_Date w v = Normal d) /\
    ((forall v, get data (Name "date") = Some v -> truthy_json v = false) ->
     d = ValidDate (now w)).
Proof.
  intros Hconv. unfold sanitizeDate.
  destruct (get data (Name "date")) as [v|] eqn:Hget.
  - destruct (truthy_json v) eqn:Ht.
    + destruct (Hconv v eq_refl Ht) as [d Hd]. exists d.
      unfold lift. rewrite Hd. split; [reflexivity|]. split.
      * intros v' Hv' _. now injection Hv' as <-.
      * intros H. specialize (H v eq_refl). congruence.
    + exists (ValidDate (now w)). split; [reflexivity|]. split.
      * intros v' Hv' Ht'. injection Hv' as <-. congruence.
      * reflexivity.
  - exists (ValidDate (now w)). split; [reflexivity|]. split.
    + intros v' Hv'. discriminate Hv'.
    + reflexivity.
Qed.

Lemma sanitizeDate_throws (w : World) (data v : json) (e : Error) (l : NetLog) :
  get data (Name "date") = Some v -> truthy_json v = true ->
  new_Date w v = Throw e ->
  sanitizeDate w data l = (Throw e, l).
Proof.
  intros Hget Ht He. unfold sanitizeDate, lift. now rewrite Hget, Ht, He.
Qed.

Lemma sanitizeText_kept (x : value) (placeholder s : jsstring) :
  x = Some (JStr s) -> trim s <> [] -> sanitizeText x placeholder = trim s.
Proof.
  intros -> Hne. unfold sanitizeText. now destruct (trim s).
Qed.

Lemma sanitizeText_placeholder (x : value) (placeholder : jsstring) :
  (forall s, x = Some (JStr s) -> trim s = []) ->
  sanitizeText x placeholder = placeholder.
Proof.
  intros H. unfold sanitizeText. destruct x as [[]|]; try reflexivity.
  now rewrite (H s eq_refl).
Qed.

(** C1 (counterexample).  The answer decodes to an object whose category
    lies outside the allow-list and whose date is an object that
    [new Date] cannot convert.  The conversion throws inside the inner
    [try], so the call returns the default result: the category is the
    sentinel, but the parsed amount 12 and the parsed description are not
    kept. *)
Lemma C1_counterexample :
  let w := strictWorldOf [succeed (answer brokenDateText)] in
  accepted w upload = true /\
  JSON_parse w (extractJsonString brokenDateText) = Some brokenDateValue /\
  get brokenDateValue (Name "amount") = Some (JNum twelve) /\
  get brokenDateValue (Name "description") = Some (JStr (lit "Lunch")) /\
  get brokenDateValue (Name "category") = Some (JStr (lit "luxury")) /\
  ~ In (lit "luxury") (validCategoryList w) /\
  exists r,
    fst (run (scanReceipt w upload)) = Normal r /\
    category r = sentinel /\
    amount r = num_zero /\
    amount r <> SFabs (Number_of twelve) /\
    description r <> lit "Lunch".
Proof.
  intros w.
  split; [reflexivity|]. split; [vm_compute; reflexivity|].
  split; [reflexivity|]. split; [reflexivity|]. split; [reflexivity|].
  split.
  { vm_compute. intros H.
    repeat (destruct H as [H|H]; [discriminate H|]). exact H. }
  eexists. split; [vm_compute; reflexivity|].
  split; [reflexivity|]. split; [reflexivity|].
  split; [discriminate|].
  intros H. apply str_eqb_eq in H. vm_compute in H. discriminate.
Qed.

(** C1 (amended).  Every call of [scanReceipt] returns a result (it never
    throws) whose amount is at least 0 and whose category is the sentinel
    "other-expense" or a member of the list the code validates against; when
    no id of the category table contains a comma, that list is the set of
    allowed expense-category ids.  When the kept answer decodes to a value
    other than [null] that carries no category of the list, and converting
    its date does not throw, the category is the sentinel and the other
    fields are kept: the amount is the absolute value of a numeric amount
    and 0 otherwise, the date is the converted date (the current time when
    the date is absent or falsy), description and merchant name are the
    trimmed strings when they are strings with a non-empty trim and the
    placeholders otherwise.  When the decoded value is [null] or converting
    its date throws, the result is the fixed default. *)
Theorem C1_result_invariant (w : World) (formData : FormData) :
  (exists r requests,
      run (scanReceipt w formData) = (Normal r, requests) /\
      num_ge (amount r) num_zero = true /\
      (category r = sentinel \/ In (category r) (validCategoryList w)) /\
      ((forall id, In id (expenseCategoryIds w) -> commaFree id) ->
       category r = sentinel \/ In (category r) (expenseCategoryIds w))) /\
  (forall pre ep post p text data,
      accepted w formData = true ->
      endpointsToTry = pre ++ ep :: post ->
      allFail w pre ->
      payloadOf (outcomeOf w ep) = Some p ->
      truthy_json p = true \/ pre = [] ->
      fst (extractText w p []) = Normal (JStr text) ->
      JSON_parse w (extractJsonString text) = Some data ->
      (data <> JNull ->
       (forall v, get data (Name "date") = Some v -> truthy_json v = true ->
                  exists d, new_Date w v = Normal d) ->
       (forall c, get data (Name "category") = Some (JStr c) ->
                  ~ In c (validCategoryList w)) ->
       exists r,
         run (scanReceipt w formData) = (Normal r, map (urlOf w) (pre ++ [ep])) /\
         category r = sentinel /\
         (forall n, get data (Name "amount") = Some (JNum n) ->
                    amount r = SFabs (Number_of n)) /\
         ((forall n, get data (Name "amount") <> Some (JNum n)) ->
          amount r = num_zero) /\
         (forall v, get data (Name "date") = Some v -> truthy_json v = true ->
                    new_Date w v = Normal (date r)) /\
         ((forall v, get data (Name "date") = Some v -> truthy_json v = false) ->
          date r = ValidDate (now w)) /\
         (forall s, get data (Name "description") = Some (JStr s) ->
                    trim s <> [] -> description r = trim s) /\
         ((forall s, get data (Name "description") = Some (JStr s) -> trim s = []) ->
          description r = lit "Receipt scan") /\
         (forall s, get data (Name "merchantName") = Some (JStr s) ->
                    trim s <> [] -> merchantName r = trim s) /\
         ((forall s, get data (Name "merchantName") = Some (JStr s) -> trim s = []) ->
          merchantName r = lit "Unknown merchant")) /\
      (data = JNull \/
       (exists v e, get data (Name "date") = Some v /\ truthy_json v = true /\
                    new_Date w v = Throw e) ->
       run (scanReceipt w formData) =
       (Normal (formatNotRecognized w), map (urlOf w) (pre ++ [ep])))).
Proof.
  split.
  - destruct (scanReceipt_wellFormed w formData) as (r & l & E & Hamt & Hcat).
    exists r, l. repeat split; [exact E|exact Hamt| |].
    + destruct Hcat as [H|[_ H]]; auto.
    + intros Hfree. destruct Hcat as [H|[H1 H2]]; [now left|right].
      now apply validCategoryList_ids.
  - intros pre ep post p text data Hacc Heps Hpre Hp Hkeep Htext Hparse.
    rewrite (@scanReceipt_kept w formData pre ep post p Hacc Heps Hpre Hp Hkeep).
    pose proof (@resultOfPayload_text w p text Htext) as Hres.
    unfold parseAndValidate, tryCatch in Hres. rewrite Hparse in Hres.
    split.
    + intros Hnull Hconv Hout.
      destruct (@sanitizeDate_converts w data [] Hconv) as (d & Hd & Hd1 & Hd2).
      assert (E : resultOfPayload w p =
                  mkResult (sanitizeAmount data) d
                    (sanitizeText (get data (Name "description")) (lit "Receipt scan"))
                    (sanitizeText (get data (Name "merchantName"))
                                  (lit "Unknown merchant"))
                    (sanitizeCategory w data)).
      { unfold sanitize, bind in Hres.
        destruct data; try contradiction; rewrite Hd in Hres;
          unfold ret in Hres; now injection Hres as <-. }
      exists (resultOfPayload w p). split; [reflexivity|]. rewrite E.
      cbn [category amount date description merchantName].
      split; [now apply sanitizeCategory_outside|].
      split; [intros n Hn; unfold sanitizeAmount; now rewrite Hn|].
      split.
      { intros Hn. unfold sanitizeAmount.
        destruct (get data (Name "amount")) as [[]|]; try reflexivity.
        now destruct (Hn n). }
      split; [exact Hd1|]. split; [exact Hd2|].
      split; [intros s0 Hs Hne; now apply sanitizeText_kept|].
      split; [intros H; now apply sanitizeText_placeholder|].
      split; [intros s0 Hs Hne; now apply sanitizeText_kept|].
      intros H; now apply sanitizeText_placeholder.
    + intros Hbad. f_equal. f_equal.
      destruct Hbad as [-> | (v & e & Hget & Ht & He)].
      * unfold sanitize, throw, ret in Hres. now injection Hres as <-.
      * pose proof (@sanitizeDate_throws w data v e [] Hget Ht He) as Hthrow.
        unfold sanitize, bind in Hres.
        destruct data; try rewrite Hthrow in Hres;
          unfold throw, ret in Hres; now injection Hres as <-.
Qed.

Lemma C1_result_invariant_witness :
  let w := worldOf [succeed (answer (fencedAnswer badCategoryText))] in
  (forall id, In id (expenseCategoryIds w) -> commaFree id) /\
  exists r,
    run (scanReceipt w upload) = (Normal r, [urlOf w (nth 0 endpointsToTry [])]) /\
    num_ge (amount r) num_zero = true /\
    (category r = sentinel \/ In (category r) (expenseCategoryIds w)) /\
    category r = sentinel /\
    amount r = S754_finite false 5629499534213120 (-50) /\
    date r = ValidDate (now w) /\
    description r = lit "Receipt scan" /\
    merchantName r = lit "Boutique".
Proof.
  intros w.
  assert (Hfree : forall id, In id (expenseCategoryIds w) -> commaFree id).
  { intros id Hin. vm_compute in Hin.
    destruct Hin as [<-|[<-|[<-|[]]]]; vm_compute; intuition discriminate. }
  split; [exact Hfree|].
  destruct (C1_result_invariant w upload) as [(r0 & l0 & E0 & Hamt & _ & Hcat) H].
  destruct (H [] (nth 0 endpointsToTry []) (tl endpointsToTry)
              (answer (fencedAnswer badCategoryText))
              (fencedAnswer badCategoryText) badCategoryValue)
    as [Hkept _].
  - reflexivity.
  - reflexivity.
  - intros ep [].
  - reflexivity.
  - now right.
  - reflexivity.
  - vm_compute. reflexivity.
  - destruct Hkept as (r & E & Hc & Ha & _ & _ & Hd & _ & Hdesc & Hm & _).
    + discriminate.
    + intros v Hv. discriminate Hv.
    + intros c Hc. injection Hc as <-. vm_compute. intros Hin.
      repeat (destruct Hin as [Hin|Hin]; [discriminate Hin|]). exact Hin.
    + rewrite E in E0. injection E0 as <- _.
      exists r. split; [exact E|]. split; [exact Hamt|].
      split; [now apply Hcat|]. split; [exact Hc|].
      split; [exact (Ha minusFive eq_refl)|].
      split; [apply Hd; intros v Hv; discriminate Hv|].
      split; [apply Hdesc; intros s0 Hs; discriminate Hs|].
      rewrite (Hm (lit "Boutique") eq_refl); [reflexivity|discriminate].
Defined.


(* ================================================================== *)
(** * scanReceipt: failures *)
(* ================================================================== *)

(** C2 (counterexample).  With no file in the form data the call does not
    throw: it returns a result whose description carries the rejection
    message, and no request is made. *)
Lemma C2_counterexample :
  let w := worldOf [] in
  run (scanReceipt w emptyForm) =
    (Normal (mkResult num_zero (ValidDate (now w))
               (lit "Error: No file provided. Please manually enter receipt details.")
               (lit "Error occurred") sentinel), []) /\
  ~ (exists e requests, run (scanReceipt w emptyForm) = (Throw e, requests)).
Proof.
  intros w.
  assert (E : run (scanReceipt w emptyForm) =
              (Normal (mkResult num_zero (ValidDate (now w))
                 (lit "Error: No file provided. Please manually enter receipt details.")
                 (lit "Error occurred") sentinel), []))
    by (vm_compute; reflexivity).
  split; [exact E|].
  intros (e & l & H). rewrite E in H. discriminate.
Qed.

(** C2 (amended).  [scanReceipt] never throws.  A missing file, a file
    larger than 5 MB and an unconfigured credential are detected, in this
    order, before any request is made, and each is returned as the result of
    the outer handler: description "Error: <message>. Please manually enter
    receipt details.", amount 0, category "other-expense". *)
Theorem C2_rejections_are_returned (w : World) (formData : FormData) :
  (exists r requests, run (scanReceipt w formData) = (Normal r, requests)) /\
  (missing (formData_get formData (lit "file")) = true ->
   run (scanReceipt w formData) =
   (Normal (errorResult w (new_Error (lit "No file provided"))), [])) /\
  (forall file,
      formData_get formData (lit "file") = Some file ->
      missing (Some file) = false -> oversize file = true ->
      run (scanReceipt w formData) =
      (Normal (errorResult w
                 (new_Error (lit "File size should be less than 5MB"))), [])) /\
  (forall file,
      formData_get formData (lit "file") = Some file ->
      missing (Some file) = false -> oversize file = false ->
      unconfigured w = true ->
      run (scanReceipt w formData) =
      (Normal (errorResult w (new_Error
         (lit "GEMINI_API_KEY is not configured in environment variables"))),
       [])) /\
  (forall e requests,
      run (scanReceipt_try w formData) = (Throw e, requests) ->
      run (scanReceipt w formData) = (Normal (errorResult w e), requests)) /\
  (forall e, amount (errorResult w e) = num_zero /\
             merchantName (errorResult w e) = lit "Error occurred" /\
             category (errorResult w e) = lit "other-expense" /\
             description (errorResult w e) =
             lit "Error: " ++ message e
             ++ lit ". Please manually enter receipt details.").
Proof.
  repeat split.
  - destruct (scanReceipt_returns w formData []) as (r & l & E & _). eauto.
  - apply scanReceipt_missing.
  - intros file. apply scanReceipt_oversize.
  - intros file. apply scanReceipt_unconfigured.
  - intros e requests H. unfold run, scanReceipt, tryCatch in *. now rewrite H.
Qed.

Lemma C2_rejections_are_returned_witness :
  let w := worldOf [] in
  let file := FileEntry (mkFile 6000000 (lit "image/png")) in
  formData_get hugeUpload (lit "file") = Some file /\
  missing (Some file) = false /\ oversize file = true /\
  run (scanReceipt w hugeUpload) =
  (Normal (errorResult w (new_Error (lit "File size should be less than 5MB"))),
   []).
Proof.
  intros w file.
  split; [reflexivity|]. split; [reflexivity|]. split; [reflexivity|].
  destruct (C2_rejections_are_returned w hugeUpload) as (_ & _ & H & _).
  apply (H file); reflexivity.
Defined.

(** C4.  When the call is accepted and every endpoint attempt fails, the
    error recorded for the last endpoint is surfaced: all four requests are
    made and the returned result has amount 0, category "other-expense" and a
    description that contains that error's message. *)
Theorem C4_last_error_surfaced (w : World) (formData : FormData) :
  accepted w formData = true ->
  allFail w endpointsToTry ->
  exists e,
    failureOf (outcomeOf w (last endpointsToTry [])) = Some e /\
    run (scanReceipt w formData) =
      (Normal (errorResult w e), map (urlOf w) endpointsToTry) /\
    amount (errorResult w e) = num_zero /\
    category (errorResult w e) = sentinel /\
    includes (description (errorResult w e)) (message e) = true.
Proof.
  intros Hacc Hall.
  destruct (@scanReceipt_allFail w formData Hacc Hall) as (e & Hlast & Hrun).
  exists e. repeat split; try assumption.
  cbn [description errorResult]. apply includes_middle.
Qed.

Lemma C4_last_error_surfaced_witness :
  let w := worldOf [unreachable; unavailable; garbled; unavailable] in
  accepted w upload = true /\ allFail w endpointsToTry /\
  exists e,
    message e = lit "API request failed: 503 Service Unavailable - overloaded" /\
    run (scanReceipt w upload) =
      (Normal (errorResult w e), map (urlOf w) endpointsToTry).
Proof.
  intros w.
  assert (Hacc : accepted w upload = true) by reflexivity.
  assert (Hall : allFail w endpointsToTry).
  { intros ep [<-|[<-|[<-|[<-|[]]]]]; vm_compute; reflexivity. }
  split; [exact Hacc|]. split; [exact Hall|].
  destruct (@C4_last_error_surfaced w upload Hacc Hall)
    as (e & Hlast & Hrun & _).
  exists e. split; [|exact Hrun].
  vm_compute in Hlast. injection Hlast as <-. vm_compute. reflexivity.
Defined.

(** C5.  When the response kept by the loop yields an answer text whose
    candidate JSON span fails to decode, the decode error is not propagated:
    the call returns the fixed default result, whose description contains
    "format not recognized", with amount 0, the current date, merchant name
    "Unknown merchant" and category "other-expense". *)
Theorem C5_decode_failure_default
        (w : World) (formData : FormData) (pre : list jsstring) (ep : jsstring)
        (post : list jsstring) (p : json) (text : jsstring) :
  accepted w formData = true ->
  endpointsToTry = pre ++ ep :: post ->
  allFail w pre ->
  payloadOf (outcomeOf w ep) = Some p ->
  truthy_json p = true \/ pre = [] ->
  fst (extractText w p []) = Normal (JStr text) ->
  JSON_parse w (extractJsonString text) = None ->
  fst (run (scanReceipt w formData)) = Normal (formatNotRecognized w) /\
  includes (description (formatNotRecognized w))
           (lit "format not recognized") = true /\
  amount (formatNotRecognized w) = num_zero /\
  date (formatNotRecognized w) = ValidDate (now w) /\
  merchantName (formatNotRecognized w) = lit "Unknown merchant" /\
  category (formatNotRecognized w) = lit "other-expense".
Proof.
  intros Hacc Heps Hpre Hp Hkeep Htext Hdecode.
  split; [|repeat split].
  rewrite (@scanReceipt_kept w formData pre ep post p Hacc Heps Hpre Hp Hkeep).
  cbn [fst]. f_equal.
  pose proof (@resultOfPayload_text w p text Htext) as H.
  unfold parseAndValidate, tryCatch in H. rewrite Hdecode in H.
  unfold throw, ret in H. now injection H as <-.
Qed.

Lemma C5_decode_failure_default_witness :
  let w := worldOf [unavailable; succeed (answer (lit "I cannot read this image."))] in
  fst (run (scanReceipt w upload)) = Normal (formatNotRecognized w).
Proof.
  intros w.
  refine (proj1 (@C5_decode_failure_default w upload
                   [nth 0 endpointsToTry []] (nth 1 endpointsToTry [])
                   [nth 2 endpointsToTry []; nth 3 endpointsToTry []]
                   (answer (lit "I cannot read this image."))
                   (lit "I cannot read this image.") _ _ _ _ _ _ _));
    try reflexivity.
  - intros ep [<-|[]]. vm_compute. reflexivity.
  - left. reflexivity.
Defined.

(** C6 (the code at the failing input).  The first endpoint answers with a
    JSON object whose date is the word "yesterday": the payload decodes, the
    date is not parsable, and the returned date is Invalid Date, not the
    current time. *)
Theorem C6_unparsable_date_is_returned :
  let w := worldOf [succeed (answer badDateText)] in
  JSON_parse w (extractJsonString badDateText) = Some badDateValue /\
  new_Date w (JStr (lit "yesterday")) = Normal InvalidDate /\
  exists r,
    fst (run (scanReceipt w upload)) = Normal r /\
    date r = InvalidDate /\
    isValidDate (date r) = false.
Proof.
  intros w. split; [vm_compute; reflexivity|]. split; [reflexivity|].
  eexists. split; [vm_compute; reflexivity|].
  split; reflexivity.
Qed.


(* ================================================================== *)
(** * scanReceipt: the candidate JSON span *)
(* ================================================================== *)

Section FenceFacts.

Lemma fence_backticks : fence = [backtick; backtick; backtick].
Proof. reflexivity. Qed.

(** ** The quantifiers *)

Lemma re_ws_star_found {R} (ws t : jsstring) (k : jsstring -> option R) (r : R) :
  Forall blank ws ->
  match t with c :: _ => isWhiteSpace c = false | [] => True end ->
  k t = Some r ->
  re_ws_star (ws ++ t) k = Some r.
Proof.
  intros Hws Ht Hk. induction Hws as [|c ws Hc _ IH].
  - cbn [app]. destruct t as [|c t]; cbn [re_ws_star]; [exact Hk|].
    now rewrite Ht.
  - cbn [app re_ws_star]. unfold blank in Hc. now rewrite Hc, IH.
Qed.

Lemma re_ws_star_none {R} (s : jsstring) (k : jsstring -> option R) :
  (forall ws t, s = ws ++ t -> Forall blank ws -> k t = None) ->
  re_ws_star s k = None.
Proof.
  induction s as [|c s IH]; intros H; cbn [re_ws_star].
  - apply (H [] []); [reflexivity|constructor].
  - assert (Hhere : k (c :: s) = None)
      by (apply (H [] (c :: s)); [reflexivity|constructor]).
    destruct (isWhiteSpace c) eqn:Hc; [|exact Hhere].
    rewrite IH; [exact Hhere|].
    intros ws t -> Hws. apply (H (c :: ws) t); [reflexivity|].
    now constructor.
Qed.

Lemma re_any_lazy_first {R} (body tail : jsstring)
      (k : jsstring -> jsstring -> option R) (r : R) :
  forall acc,
    (forall b1 b2, body = b1 ++ b2 -> b2 <> [] ->
                   k (rev acc ++ b1) (b2 ++ tail) = None) ->
    k (rev acc ++ body) tail = Some r ->
    re_any_lazy acc (body ++ tail) k = Some r.
Proof.
  induction body as [|c body IH]; intros acc Hnone Hk.
  - rewrite app_nil_r in Hk. cbn [app].
    destruct tail; cbn [re_any_lazy]; now rewrite Hk.
  - cbn [app re_any_lazy].
    assert (H0 : k (rev acc) (c :: body ++ tail) = None).
    { specialize (Hnone [] (c :: body) eq_refl).
      rewrite app_nil_r in Hnone. apply Hnone. discriminate. }
    rewrite H0. apply IH.
    + intros b1 b2 -> Hb2. cbn [rev]. rewrite <- app_assoc. cbn [app].
      apply (Hnone (c :: b1) b2); [reflexivity|assumption].
    + cbn [rev]. rewrite <- app_assoc. exact Hk.
Qed.

(** ** No fence starts inside a body that ends with a brace *)

Lemma blank_prefix_of_solid (ws b rest t : jsstring) (x : code_unit) :
  Forall blank ws -> isWhiteSpace x = false ->
  (b ++ [x]) ++ rest = ws ++ t ->
  exists b', b ++ [x] = ws ++ b' ++ [x] /\ t = (b' ++ [x]) ++ rest.
Proof.
  intros Hws Hx. revert b. induction Hws as [|c ws Hc _ IH]; intros b E.
  - exists b. now split.
  - destruct b as [|y b].
    + cbn in E. injection E as -> _. unfold blank in Hc. congruence.
    + cbn in E. injection E as -> E.
      destruct (IH b E) as (b' & E1 & E2).
      exists b'. split; [|exact E2]. cbn. now rewrite E1.
Qed.

Lemma no_fence_at_suffix (b1 b' rest : jsstring) :
  includes (b1 ++ b' ++ [rbrace]) fence = false ->
  dropPrefix fence ((b' ++ [rbrace]) ++ rest) = None.
Proof.
  intros Hno. rewrite fence_backticks.
  destruct b' as [|a [|b [|c b']]]; cbn [app dropPrefix]; try reflexivity.
  - destruct (N.eqb backtick a); reflexivity.
  - destruct (N.eqb backtick a), (N.eqb backtick b); reflexivity.
  - destruct (N.eqb backtick a) eqn:Ea; [|reflexivity].
    destruct (N.eqb backtick b) eqn:Eb; [|reflexivity].
    destruct (N.eqb backtick c) eqn:Ec; [|reflexivity].
    apply N.eqb_eq in Ea, Eb, Ec. subst a b c.
    exfalso.
    change ((backtick :: backtick :: backtick :: b') ++ [rbrace])
      with (fence ++ (b' ++ [rbrace])) in Hno.
    now rewrite includes_middle in Hno.
Qed.

(** ** One match *)

Lemma suffix_ends (b1 b2 mid : jsstring) (x : code_unit) :
  mid ++ [x] = b1 ++ b2 -> b2 <> [] ->
  exists b', b2 = b' ++ [x] /\ mid = b1 ++ b'.
Proof.
  intros E Hne.
  destruct (exists_last Hne) as (b' & y & ->).
  rewrite app_assoc in E. apply app_inj_tail in E as [-> ->].
  now exists b'.
Qed.

Lemma matchFence_fenced (tag ws1 mid ws2 after : jsstring) :
  let body := lbrace :: mid ++ [rbrace] in
  tag = [] \/ tag = lit "json" ->
  Forall blank ws1 -> Forall blank ws2 ->
  includes body fence = false ->
  matchFence (fence ++ tag ++ ws1 ++ body ++ ws2 ++ fence ++ after)
  = Some (body, after).
Proof.
  intros body Htag Hws1 Hws2 Hno.
  unfold matchFence, re_lit at 1. rewrite dropPrefix_app.
  set (k2 := fun s2 : jsstring => re_ws_star s2 _).
  assert (Hk2 : k2 (ws1 ++ body ++ ws2 ++ fence ++ after) = Some (body, after)).
  { unfold k2. apply re_ws_star_found; [assumption|reflexivity|].
    apply (@re_any_lazy_first _ body (ws2 ++ fence ++ after)).
    - (* no shorter capture *)
      intros b1 b2 Hsplit Hb2. cbn [rev app].
      apply re_ws_star_none. intros ws t Hst Hws.
      unfold re_lit.
      change body with ((lbrace :: mid) ++ [rbrace]) in Hsplit.
      destruct (@suffix_ends b1 b2 (lbrace :: mid) rbrace Hsplit Hb2)
        as (b' & -> & Hmid).
      destruct (@blank_prefix_of_solid ws b' (ws2 ++ fence ++ after) t rbrace
                  Hws eq_refl Hst) as (b'' & E1 & ->).
      assert (Hb' : b' = ws ++ b'').
      { rewrite app_assoc in E1. now apply app_inj_tail in E1 as [-> _]. }
      clear E1.
      rewrite (no_fence_at_suffix (b1 ++ ws) b''); [reflexivity|].
      rewrite <- Hno. unfold body.
      change (lbrace :: mid ++ [rbrace]) with ((lbrace :: mid) ++ [rbrace]).
      rewrite Hmid, Hb'. now rewrite <- !app_assoc.
    - (* the capture that ends at the closing fence *)
      cbn [rev app].
      apply (@re_ws_star_found _ ws2 (fence ++ after));
        [assumption|reflexivity|].
      unfold re_lit. now rewrite dropPrefix_app. }
  destruct Htag as [->| ->].
  - cbn [app]. unfold re_opt, re_lit.
    destruct (dropPrefix (lit "json") (ws1 ++ body ++ ws2 ++ fence ++ after))
      as [s'|] eqn:Ed; [|exact Hk2].
    exfalso. destruct ws1 as [|c ws1].
    + discriminate Ed.
    + inversion Hws1 as [|? ? Hc _]; subst. unfold blank in Hc.
      change (lit "json") with [106; 115; 111; 110]%N in Ed.
      cbn [app dropPrefix] in Ed.
      destruct (N.eqb 106 c) eqn:Ec; [|discriminate].
      apply N.eqb_eq in Ec. subst c. discriminate Hc.
  - unfold re_opt, re_lit. rewrite dropPrefix_app. now rewrite Hk2.
Qed.

(** ** The global replace *)

Lemma matchFence_plain (c : code_unit) (s : jsstring) :
  c <> backtick -> matchFence (c :: s) = None.
Proof.
  intros Hc. unfold matchFence, re_lit at 1. rewrite fence_backticks.
  cbn [dropPrefix]. destruct (N.eqb backtick c) eqn:E; [|reflexivity].
  apply N.eqb_eq in E. congruence.
Qed.

Lemma replaceFences_plain (a t : jsstring) :
  Forall plain a -> replaceFences 0 (a ++ t) = a ++ replaceFences 0 t.
Proof.
  intros Ha. induction Ha as [|c a [Hc _] _ IH]; [reflexivity|].
  cbn [app replaceFences]. rewrite matchFence_plain by exact Hc.
  now rewrite IH.
Qed.

Lemma replaceFences_skip (m t : jsstring) :
  replaceFences (List.length m) (m ++ t) = replaceFences 0 t.
Proof. induction m as [|c m IH]; [reflexivity|exact IH]. Qed.

Lemma replaceFences_match (m group1 rest : jsstring) (c : code_unit) :
  matchFence (c :: m ++ rest) = Some (group1, rest) ->
  replaceFences 0 (c :: m ++ rest) = group1 ++ replaceFences 0 rest.
Proof.
  intros H. cbn [replaceFences]. rewrite H. f_equal.
  rewrite length_app, Nat.add_sub. apply replaceFences_skip.
Qed.

Lemma replaceFences_fenced (before tag ws1 mid ws2 after : jsstring) :
  let body := lbrace :: mid ++ [rbrace] in
  Forall plain before -> Forall plain after ->
  tag = [] \/ tag = lit "json" ->
  Forall blank ws1 -> Forall blank ws2 ->
  includes body fence = false ->
  replaceFences 0 (fenced before tag ws1 body ws2 after)
  = before ++ body ++ after.
Proof.
  intros body Hb Ha Htag Hws1 Hws2 Hno. unfold fenced.
  rewrite replaceFences_plain by assumption. f_equal.
  pose proof (@matchFence_fenced tag ws1 mid ws2 after Htag Hws1 Hws2 Hno) as Hm.
  fold body in Hm.
  assert (Hshape :
            fence ++ tag ++ ws1 ++ body ++ ws2 ++ fence ++ after =
            backtick :: (backtick :: backtick :: tag ++ ws1 ++ body ++ ws2 ++ fence)
                        ++ after).
  { rewrite fence_backticks. cbn [app]. now rewrite <- !app_assoc. }
  rewrite Hshape in *.
  rewrite (replaceFences_match _ _ Hm). f_equal.
  rewrite <- (app_nil_r after) at 1.
  rewrite replaceFences_plain by assumption. apply app_nil_r.
Qed.

(** ** Trimming around a solid core *)

Lemma trimStart_app_solid (a : jsstring) (c : code_unit) (m : jsstring) :
  isWhiteSpace c = false -> trimStart (a ++ c :: m) = trimStart a ++ c :: m.
Proof.
  intros Hc. induction a as [|x a IH]; cbn [app trimStart].
  - now rewrite Hc.
  - now destruct (isWhiteSpace x).
Qed.

Lemma trimEnd_app_solid (m : jsstring) (c : code_unit) (b : jsstring) :
  isWhiteSpace c = false -> trimEnd (m ++ c :: b) = m ++ c :: trimEnd b.
Proof.
  intros Hc. unfold trimEnd.
  rewrite rev_app_distr. cbn [rev]. rewrite <- app_assoc. cbn [app].
  rewrite trimStart_app_solid by exact Hc.
  rewrite rev_app_distr. cbn [rev]. rewrite rev_involutive.
  now rewrite <- app_assoc.
Qed.

Lemma Forall_trimStart (P : code_unit -> Prop) (a : jsstring) :
  Forall P a -> Forall P (trimStart a).
Proof.
  intros H. induction H as [|x a Hx Ha IH]; cbn [trimStart]; [constructor|].
  destruct (isWhiteSpace x); [exact IH|now constructor].
Qed.

Lemma Forall_trimEnd (P : code_unit -> Prop) (a : jsstring) :
  Forall P a -> Forall P (trimEnd a).
Proof.
  intros H. unfold trimEnd. apply Forall_rev, Forall_trimStart.
  now apply Forall_rev.
Qed.

(** [trim] around a core that starts with [c] and ends with [d], both not
    white space. *)
Lemma trim_solid (a : jsstring) (c : code_unit) (m : jsstring) (d : code_unit)
      (b : jsstring) :
  isWhiteSpace c = false -> isWhiteSpace d = false ->
  trim (a ++ (c :: m ++ [d]) ++ b) = trimStart a ++ (c :: m ++ [d]) ++ trimEnd b.
Proof.
  intros Hc Hd. unfold trim. cbn [app].
  rewrite trimStart_app_solid by exact Hc.
  replace (trimStart a ++ c :: (m ++ [d]) ++ b)
    with ((trimStart a ++ c :: m) ++ d :: b)
    by (rewrite <- !app_assoc; reflexivity).
  rewrite trimEnd_app_solid by exact Hd.
  now rewrite <- !app_assoc.
Qed.

(** ** First brace, last brace, and the span between them *)

Lemma indexOf_first (p t : jsstring) :
  Forall plain p ->
  indexOf (p ++ lbrace :: t) (lit "{") = Z.of_nat (List.length p).
Proof.
  intros Hp. induction Hp as [|c p (_ & Hc & _) _ IH].
  - reflexivity.
  - cbn [app indexOf List.length].
    assert (Hs : startsWith (c :: p ++ lbrace :: t) (lit "{") = false).
    { unfold startsWith. change (lit "{") with [lbrace]. cbn [dropPrefix].
      destruct (N.eqb lbrace c) eqn:E; [|reflexivity].
      apply N.eqb_eq in E. congruence. }
    rewrite Hs, IH.
    destruct (Z.of_nat (List.length p) <? 0)%Z eqn:E; lia.
Qed.

Lemma lastIndexOf_none (q : jsstring) :
  Forall plain q -> lastIndexOf q (lit "}") = (-1)%Z.
Proof.
  intros Hq. induction Hq as [|c q (_ & _ & Hc) _ IH]; [reflexivity|].
  cbn [lastIndexOf]. rewrite IH. cbn [Z.leb Z.compare].
  unfold startsWith. change (lit "}") with [rbrace]. cbn [dropPrefix].
  destruct (N.eqb rbrace c) eqn:E; [|reflexivity].
  apply N.eqb_eq in E. congruence.
Qed.

Lemma lastIndexOf_last (x q : jsstring) :
  Forall plain q ->
  lastIndexOf (x ++ rbrace :: q) (lit "}") = Z.of_nat (List.length x).
Proof.
  intros Hq. induction x as [|c x IH].
  - cbn [app lastIndexOf List.length]. now rewrite lastIndexOf_none.
  - cbn [app lastIndexOf List.length]. rewrite IH.
    destruct (0 <=? Z.of_nat (List.length x))%Z eqn:E; lia.
Qed.

Lemma substring_middle (p b q : jsstring) :
  substring (p ++ b ++ q) (Z.of_nat (List.length p))
            (Z.of_nat (List.length p + List.length b)) = b.
Proof.
  unfold substring. rewrite !length_app.
  set (lp := List.length p). set (lb := List.length b).
  set (lq := List.length q).
  replace (Z.min (Z.max (Z.of_nat lp) 0) (Z.of_nat (lp + (lb + lq))))
    with (Z.of_nat lp) by lia.
  replace (Z.min (Z.max (Z.of_nat (lp + lb)) 0) (Z.of_nat (lp + (lb + lq))))
    with (Z.of_nat (lp + lb)) by lia.
  replace (Z.min (Z.of_nat lp) (Z.of_nat (lp + lb))) with (Z.of_nat lp) by lia.
  replace (Z.max (Z.of_nat lp) (Z.of_nat (lp + lb)))
    with (Z.of_nat (lp + lb)) by lia.
  replace (Z.to_nat (Z.of_nat (lp + lb) - Z.of_nat lp)) with lb by lia.
  rewrite Nat2Z.id. unfold lp, lb.
  rewrite skipn_app, skipn_all, Nat.sub_diag. cbn [app skipn].
  rewrite firstn_app, firstn_all, Nat.sub_diag. cbn [firstn].
  apply app_nil_r.
Qed.

(** The candidate span of a fenced answer is its body. *)
Lemma extractJsonString_fenced (before tag ws1 mid ws2 after : jsstring) :
  let body := lbrace :: mid ++ [rbrace] in
  Forall plain before -> Forall plain after ->
  tag = [] \/ tag = lit "json" ->
  Forall blank ws1 -> Forall blank ws2 ->
  includes body fence = false ->
  extractJsonString (fenced before tag ws1 body ws2 after) = body.
Proof.
  intros body Hb Ha Htag Hws1 Hws2 Hno. unfold extractJsonString.
  (* the first trim only shortens the prose around the block *)
  assert (Htrim1 : trim (fenced before tag ws1 body ws2 after)
                   = fenced (trimStart before) tag ws1 body ws2 (trimEnd after)).
  { unfold fenced.
    replace (before ++ fence ++ tag ++ ws1 ++ body ++ ws2 ++ fence ++ after)
      with (before
            ++ (backtick :: (backtick :: backtick :: tag ++ ws1 ++ body ++ ws2
                             ++ [backtick; backtick]) ++ [backtick])
            ++ after)
      by (rewrite fence_backticks; cbn [app]; rewrite <- !app_assoc;
          reflexivity).
    rewrite trim_solid by reflexivity.
    rewrite fence_backticks. cbn [app]. rewrite <- !app_assoc. reflexivity. }
  rewrite Htrim1.
  pose proof (@replaceFences_fenced (trimStart before) tag ws1 mid ws2
                (trimEnd after) (Forall_trimStart Hb) (Forall_trimEnd Ha)
                Htag Hws1 Hws2 Hno) as Hreplace.
  cbv zeta in Hreplace. fold body in Hreplace. rewrite Hreplace.
  set (p := trimStart before). set (q := trimEnd after).
  assert (Hp : Forall plain (trimStart p))
    by now apply Forall_trimStart, Forall_trimStart.
  assert (Hq : Forall plain (trimEnd q))
    by now apply Forall_trimEnd, Forall_trimEnd.
  assert (Htrim2 : trim (p ++ body ++ q) = trimStart p ++ body ++ trimEnd q)
    by (apply trim_solid; reflexivity).
  rewrite Htrim2.
  set (p' := trimStart p) in *. set (q' := trimEnd q) in *.
  assert (Hstart : indexOf (p' ++ body ++ q') (lit "{")
                   = Z.of_nat (List.length p'))
    by (apply indexOf_first; assumption).
  assert (Hend : lastIndexOf (p' ++ body ++ q') (lit "}")
                 = Z.of_nat (List.length (p' ++ lbrace :: mid))).
  { replace (p' ++ body ++ q') with ((p' ++ lbrace :: mid) ++ rbrace :: q')
      by (unfold body; cbn [app]; rewrite <- !app_assoc; reflexivity).
    now apply lastIndexOf_last. }
  rewrite Hstart, Hend.
  rewrite length_app. cbn [List.length].
  assert (Hcond :
            negb (Z.of_nat (List.length p') =? -1)%Z
            && negb (Z.of_nat (List.length p' + S (List.length mid)) =? -1)%Z
            && (Z.of_nat (List.length p' + S (List.length mid))
                >? Z.of_nat (List.length p'))%Z = true).
  { rewrite !andb_true_iff, !negb_true_iff, !Z.eqb_neq, Z.gtb_ltb, Z.ltb_lt.
    lia. }
  rewrite Hcond.
  replace (Z.of_nat (List.length p' + S (List.length mid)) + 1)%Z
    with (Z.of_nat (List.length p' + List.length body))
    by (unfold body; cbn [List.length]; rewrite length_app; cbn [List.length];
        lia).
  apply substring_middle.
Qed.

End FenceFacts.


(* ================================================================== *)
(** * scanReceipt: endpoint selection and fenced answers *)
(* ================================================================== *)

(** C3 (counterexample).  The first endpoint answers with HTTP 200 and a
    body that is not JSON, the second with HTTP 200 and a payload: the loop
    does not stop at the first HTTP success, it goes on to the second
    endpoint and the result is built from the second response. *)
Lemma C3_counterexample :
  let w := worldOf [garbled; succeed (answer receiptText)] in
  let first := nth 0 endpointsToTry [] in
  let second := nth 1 endpointsToTry [] in
  httpSuccess (outcomeOf w first) = true /\
  run (scanReceipt w upload) =
    (Normal (resultOfPayload w (answer receiptText)),
     [urlOf w first; urlOf w second]) /\
  snd (run (scanReceipt w upload)) <> [urlOf w first].
Proof.
  intros w first second.
  split; [reflexivity|].
  assert (E : run (scanReceipt w upload) =
              (Normal (resultOfPayload w (answer receiptText)),
               [urlOf w first; urlOf w second]))
    by (vm_compute; reflexivity).
  split; [exact E|]. rewrite E. discriminate.
Qed.

(** The other way the loop departs from "first success wins": a kept
    payload that is falsy (here [null]) after an earlier failure makes the
    call throw the earlier error. *)
Example falsy_payload_surfaces_earlier_failure :
  let w := worldOf [unavailable; succeed JNull] in
  exists e,
    failureOf (outcomeOf w (nth 0 endpointsToTry [])) = Some e /\
    run (scanReceipt w upload) =
      (Normal (errorResult w e),
       [urlOf w (nth 0 endpointsToTry []); urlOf w (nth 1 endpointsToTry [])]).
Proof.
  intros w. eexists. split; [vm_compute; reflexivity|].
  vm_compute. reflexivity.
Qed.

(** A kept payload that is falsy after an earlier failure: the call
    surfaces the error of the last failing endpoint before it. *)
Lemma scanReceipt_falsy (w : World) (formData : FormData) (pre : list jsstring)
      (ep : jsstring) (post : list jsstring) (p : json) :
  accepted w formData = true ->
  endpointsToTry = pre ++ ep :: post ->
  allFail w pre ->
  payloadOf (outcomeOf w ep) = Some p ->
  truthy_json p = false -> pre <> [] ->
  exists e, failureOf (outcomeOf w (last pre [])) = Some e /\
            run (scanReceipt w formData) =
            (Normal (errorResult w e), map (urlOf w) (pre ++ [ep])).
Proof.
  intros Hacc Heps Hpre Hp Hfalsy Hne.
  destruct (@lastFailure_nonempty w pre None Hne Hpre) as (e & He & Hlast).
  exists e. split; [exact Hlast|].
  rewrite (@scanReceipt_accepted w formData Hacc), Heps.
  unfold tryCatch, bind at 1.
  rewrite (@tryEndpoints_firstSuccess w pre ep post p Hpre Hp).
  cbn [apiResponse lastError app].
  unfold afterLoop. cbn [apiResponse lastError].
  rewrite He, Hfalsy. reflexivity.
Qed.

(** C3 (amended).  The loop goes through the fixed list of four distinct
    endpoint URLs in order, with at most one request per endpoint: the
    requests of a call are an initial segment of the list.  An attempt
    succeeds exactly when the response is an HTTP success whose body decodes
    as JSON; a rejected request, a non-2xx status and an HTTP success whose
    body does not decode are failures.  The loop stops at the first
    successful attempt, whatever its payload: the requests of the call are
    those of the failing endpoints before it and its own, and no later
    endpoint is requested; when every attempt fails all four endpoints are
    requested.  When the kept payload is truthy (or no attempt failed before
    it), the returned result is the one built from that payload, whatever
    the earlier failures were; when it is falsy after an earlier failure,
    the result is the error result of the last failure before it. *)
Theorem C3_first_success_wins (w : World) (formData : FormData) :
  List.length endpointsToTry = 4%nat /\
  NoDup endpointsToTry /\
  (exists n, snd (run (scanReceipt w formData)) =
             firstn n (map (urlOf w) endpointsToTry)) /\
  (forall o p, payloadOf o = Some p ->
               httpSuccess o = true /\ failureOf o = None) /\
  (forall o, payloadOf o = None <->
             (exists e, o = Rejected e) \/
             (exists r, o = Resolved r /\
                        (ok r = false \/ exists e, body_json r = Throw e))) /\
  (forall pre ep post p,
      accepted w formData = true ->
      endpointsToTry = pre ++ ep :: post ->
      allFail w pre ->
      payloadOf (outcomeOf w ep) = Some p ->
      snd (run (scanReceipt w formData)) = map (urlOf w) (pre ++ [ep]) /\
      (truthy_json p = true \/ pre = [] ->
       run (scanReceipt w formData) =
       (Normal (resultOfPayload w p), map (urlOf w) (pre ++ [ep]))) /\
      (truthy_json p = false -> pre <> [] ->
       exists e, failureOf (outcomeOf w (last pre [])) = Some e /\
                 fst (run (scanReceipt w formData)) = Normal (errorResult w e))) /\
  (accepted w formData = true -> allFail w endpointsToTry ->
   snd (run (scanReceipt w formData)) = map (urlOf w) endpointsToTry).
Proof.
  split; [reflexivity|]. split.
  { unfold endpointsToTry.
    repeat (constructor;
            [cbn [In]; intros H;
             repeat (destruct H as [H|H]; [apply str_eqb_eq in H;
                                           vm_compute in H; discriminate|]);
             exact H|]).
    constructor. }
  split; [apply scanReceipt_requests_prefix|]. split.
  { intros [e|r] p; cbn [payloadOf httpSuccess failureOf]; [discriminate|].
    destruct (ok r); [|discriminate].
    destruct (body_json r); [auto|discriminate]. }
  split.
  { intros [e|r]; cbn [payloadOf].
    - split; [intros _; left; now exists e|reflexivity].
    - destruct (ok r) eqn:Hok.
      + destruct (body_json r) as [j|e] eqn:Hb.
        * split; [discriminate|].
          intros [[e He]|(r' & Hr & [Hf|[e He]])]; [discriminate| |].
          -- injection Hr as <-. congruence.
          -- injection Hr as <-. congruence.
        * split; [|reflexivity]. intros _. right. exists r.
          split; [reflexivity|]. right. now exists e.
      + split; [|reflexivity]. intros _. right. exists r.
        split; [reflexivity|]. now left. }
  split.
  { intros pre ep post p Hacc Heps Hpre Hp.
    assert (Hlog : snd (run (scanReceipt w formData)) = map (urlOf w) (pre ++ [ep])).
    { rewrite (@scanReceipt_requests_accepted w formData Hacc), Heps.
      rewrite (@tryEndpoints_firstSuccess w pre ep post p Hpre Hp).
      reflexivity. }
    split; [exact Hlog|]. split.
    - intros Hkeep. apply (@scanReceipt_kept w formData pre ep post p); auto.
    - intros Hfalsy Hne.
      destruct (@scanReceipt_falsy w formData pre ep post p
                  Hacc Heps Hpre Hp Hfalsy Hne) as (e & Hlast & Hrun).
      exists e. split; [exact Hlast|]. now rewrite Hrun. }
  intros Hacc Hall.
  destruct (@scanReceipt_allFail w formData Hacc Hall) as (e & _ & Hrun).
  now rewrite Hrun.
Qed.

Lemma C3_first_success_wins_witness :
  let w := worldOf [unavailable; succeed (answer (fencedAnswer receiptText))] in
  let first := nth 0 endpointsToTry [] in
  let second := nth 1 endpointsToTry [] in
  accepted w upload = true /\
  allFail w [first] /\
  payloadOf (outcomeOf w second) = Some (answer (fencedAnswer receiptText)) /\
  run (scanReceipt w upload) =
    (Normal (resultOfPayload w (answer (fencedAnswer receiptText))),
     [urlOf w first; urlOf w second]).
Proof.
  intros w first second.
  assert (Hpre : allFail w [first])
    by (intros ep [<-|[]]; vm_compute; reflexivity).
  split; [reflexivity|]. split; [exact Hpre|]. split; [reflexivity|].
  destruct (C3_first_success_wins w upload) as (_ & _ & _ & _ & _ & H & _).
  destruct (H [first] second
              [nth 2 endpointsToTry []; nth 3 endpointsToTry []]
              (answer (fencedAnswer receiptText))
              eq_refl eq_refl Hpre eq_refl) as (_ & Hkept & _).
  apply Hkept. left. reflexivity.
Defined.

(* ================================================================== *)
(** * scanReceipt: a JSON object among text without braces *)
(* ================================================================== *)

Section StripFacts.

Lemma blank_braceFree (c : code_unit) : blank c -> braceFree c.
Proof.
  unfold blank, braceFree. intros H.
  split; intros ->; vm_compute in H; discriminate H.
Qed.

Lemma braceFree_fence : Forall braceFree fence.
Proof. rewrite fence_backticks. repeat constructor; discriminate. Qed.

Lemma braceFree_no_lbrace (a b : jsstring) :
  Forall braceFree (a ++ lbrace :: b) -> False.
Proof.
  intros H. apply Forall_app in H as [_ H].
  inversion H as [|? ? [Hc _] _]; subst. now apply Hc.
Qed.

Lemma braceFree_no_rbrace (a b : jsstring) :
  Forall braceFree (a ++ rbrace :: b) -> False.
Proof.
  intros H. apply Forall_app in H as [_ H].
  inversion H as [|? ? [_ Hc] _]; subst. now apply Hc.
Qed.

(** ** What a match of the fence pattern consists of *)

Lemma re_lit_sound {R} (p s : jsstring) (k : jsstring -> option R) (r : R) :
  re_lit p s k = Some r -> exists s', s = p ++ s' /\ k s' = Some r.
Proof.
  unfold re_lit. destruct (dropPrefix p s) as [s'|] eqn:E; [|discriminate].
  intros H. exists s'. split; [now apply dropPrefix_Some|exact H].
Qed.

Lemma re_opt_sound {R} (p s : jsstring) (k : jsstring -> option R) (r : R) :
  re_opt p s k = Some r ->
  exists q s', (q = [] \/ q = p) /\ s = q ++ s' /\ k s' = Some r.
Proof.
  unfold re_opt. destruct (re_lit p s k) as [r0|] eqn:E.
  - intros H. injection H as <-.
    apply re_lit_sound in E as (s' & -> & Hk).
    exists p, s'. auto.
  - intros H. exists [], s. auto.
Qed.

Lemma re_ws_star_sound {R} (s : jsstring) (k : jsstring -> option R) (r : R) :
  re_ws_star s k = Some r ->
  exists ws t, s = ws ++ t /\ Forall blank ws /\ k t = Some r.
Proof.
  induction s as [|c s IH]; cbn [re_ws_star]; intros H.
  - exists [], []. auto.
  - destruct (isWhiteSpace c) eqn:Hc.
    + destruct (re_ws_star s k) as [r0|] eqn:E.
      * injection H as <-.
        destruct (IH eq_refl) as (ws & t & -> & Hws & Hk).
        exists (c :: ws), t. repeat split; [|exact Hk].
        now constructor.
      * exists [], (c :: s). auto.
    + exists [], (c :: s). auto.
Qed.

Lemma re_any_lazy_sound {R} (s : jsstring)
      (k : jsstring -> jsstring -> option R) (r : R) :
  forall acc,
    re_any_lazy acc s k = Some r ->
    exists g t, s = g ++ t /\ k (rev acc ++ g) t = Some r.
Proof.
  induction s as [|c s IH]; intros acc; cbn [re_any_lazy].
  - destruct (k (rev acc) []) as [r0|] eqn:E; [|discriminate].
    intros H. injection H as <-. exists [], [].
    split; [reflexivity|now rewrite app_nil_r].
  - destruct (k (rev acc) (c :: s)) as [r0|] eqn:E.
    + intros H. injection H as <-. exists [], (c :: s).
      split; [reflexivity|now rewrite app_nil_r].
    + intros H. apply IH in H as (g & t & -> & Hk).
      exists (c :: g), t. split; [reflexivity|].
      cbn [rev] in Hk. now rewrite <- app_assoc in Hk.
Qed.

(** A match is an opening fence with its tag and white space, the capture,
    white space and a closing fence; what is matched outside the capture
    holds no brace. *)
Lemma matchFence_shape (s g rest : jsstring) :
  matchFence s = Some (g, rest) ->
  exists c x y,
    s = (c :: x) ++ g ++ (y ++ fence) ++ rest /\
    Forall braceFree (c :: x) /\ Forall braceFree (y ++ fence).
Proof.
  unfold matchFence. intros H.
  apply re_lit_sound in H as (s1 & -> & H).
  apply re_opt_sound in H as (q & s2 & Hq & -> & H).
  apply re_ws_star_sound in H as (ws1 & s3 & -> & Hws1 & H).
  apply re_any_lazy_sound in H as (g0 & s4 & -> & H).
  apply re_ws_star_sound in H as (ws2 & s5 & -> & Hws2 & H).
  apply re_lit_sound in H as (s6 & -> & H).
  cbn [rev app] in H. injection H as <- <-.
  assert (Hq' : Forall braceFree q).
  { destruct Hq as [-> | ->]; [constructor|].
    change (lit "json") with [106; 115; 111; 110]%N.
    repeat constructor; discriminate. }
  assert (Hb1 : Forall braceFree ws1)
    by (eapply Forall_impl; [|exact Hws1]; apply blank_braceFree).
  assert (Hb2 : Forall braceFree ws2)
    by (eapply Forall_impl; [|exact Hws2]; apply blank_braceFree).
  exists backtick, ([backtick; backtick] ++ q ++ ws1), ws2.
  split; [|split].
  - rewrite fence_backticks. cbn [app]. now rewrite <- !app_assoc.
  - change (backtick :: [backtick; backtick] ++ q ++ ws1)
      with (fence ++ q ++ ws1).
    repeat (apply Forall_app; split); auto using braceFree_fence.
  - apply Forall_app; split; auto using braceFree_fence.
Qed.

(** The replace only keeps code units of its input. *)
Lemma replaceFences_In (s : jsstring) :
  forall skip c, In c (replaceFences skip s) -> In c s.
Proof.
  induction s as [|a s IH]; intros skip c; cbn [replaceFences]; [trivial|].
  destruct skip as [|n].
  - destruct (matchFence (a :: s)) as [[g rest]|] eqn:E.
    + intros H. apply in_app_or in H as [H|H].
      * apply matchFence_shape in E as (c0 & x & y & E & _).
        rewrite E. apply in_or_app. right. apply in_or_app. now left.
      * right. now apply IH in H.
    + intros [<-|H]; [now left|right; now apply IH in H].
  - intros H. right. now apply IH in H.
Qed.

Lemma replaceFences_braceFree (s : jsstring) :
  Forall braceFree s -> Forall braceFree (replaceFences 0 s).
Proof.
  intros H. apply Forall_forall. intros c Hc.
  apply replaceFences_In in Hc. revert c Hc. now apply Forall_forall.
Qed.

(** ** The object survives the replace *)

Section Core.

Variables (mid : jsstring).
Local Notation "'body'" := (lbrace :: mid ++ [rbrace]).
Hypothesis noFence : includes body fence = false.

(** No match starts inside the object. *)
Lemma replaceFences_body (b' b1 Q : jsstring) :
  includes (b1 ++ b' ++ [rbrace]) fence = false ->
  replaceFences 0 ((b' ++ [rbrace]) ++ Q)
  = (b' ++ [rbrace]) ++ replaceFences 0 Q.
Proof.
  revert b1. induction b' as [|a b' IH]; intros b1 Hno.
  - cbn [app replaceFences].
    rewrite matchFence_plain by discriminate. reflexivity.
  - assert (Hm : matchFence (((a :: b') ++ [rbrace]) ++ Q) = None).
    { unfold matchFence, re_lit at 1.
      now rewrite (@no_fence_at_suffix b1 (a :: b') Q Hno). }
    cbn [app] in Hm. cbn [app replaceFences]. rewrite Hm. f_equal.
    apply (IH (b1 ++ [a])). rewrite <- app_assoc. exact Hno.
Qed.

Lemma replaceFences_from_body (Q : jsstring) :
  replaceFences 0 (body ++ Q) = body ++ replaceFences 0 Q.
Proof.
  change body with ((lbrace :: mid) ++ [rbrace]).
  apply (@replaceFences_body (lbrace :: mid) [] Q). exact noFence.
Qed.

Lemma body_starts (l t u : jsstring) :
  body ++ t = l ++ u -> l <> [] -> exists l', l = lbrace :: l'.
Proof.
  intros E Hne. destruct l as [|a l]; [contradiction|].
  cbn [app] in E. injection E as <- _. now exists l.
Qed.

Lemma body_ends (l l4 : jsstring) :
  body = l ++ l4 -> l4 <> [] -> exists l', l4 = l' ++ [rbrace].
Proof.
  intros E Hne.
  change body with ((lbrace :: mid) ++ [rbrace]) in E.
  destruct (@suffix_ends l l4 (lbrace :: mid) rbrace E Hne) as (b' & -> & _).
  now exists b'.
Qed.

(** Text without braces, the object, text without braces: after the
    replace the object is still there, between texts without braces. *)
Lemma replaceFences_core (n : nat) :
  forall P Q,
    (List.length P <= n)%nat ->
    Forall braceFree P -> Forall braceFree Q ->
    exists P' Q',
      replaceFences 0 (P ++ body ++ Q) = P' ++ body ++ Q' /\
      Forall braceFree P' /\ Forall braceFree Q'.
Proof.
  assert (Hbase : forall Q, Forall braceFree Q ->
            exists P' Q',
              replaceFences 0 (body ++ Q) = P' ++ body ++ Q' /\
              Forall braceFree P' /\ Forall braceFree Q').
  { intros Q HQ. exists [], (replaceFences 0 Q).
    split; [apply replaceFences_from_body|].
    split; [constructor|now apply replaceFences_braceFree]. }
  induction n as [|n IH]; intros P Q Hlen HP HQ.
  - destruct P; [now apply Hbase|cbn in Hlen; lia].
  - destruct P as [|c P]; [now apply Hbase|].
    cbn [List.length] in Hlen.
    destruct (matchFence ((c :: P) ++ body ++ Q)) as [[g rest]|] eqn:E.
    + (* a match starts here *)
      destruct (matchFence_shape _ E) as (c0 & x & y & Hs & Hx & Hy).
      assert (Hrun : replaceFences 0 ((c :: P) ++ body ++ Q)
                     = g ++ replaceFences 0 rest).
      { rewrite Hs in E |- *.
        replace ((c0 :: x) ++ g ++ (y ++ fence) ++ rest)
          with (c0 :: (x ++ g ++ y ++ fence) ++ rest) in E |- *
          by (cbn [app]; now rewrite <- !app_assoc).
        now apply replaceFences_match. }
      rewrite Hrun. clear Hrun E.
      set (X := c0 :: x) in *. set (Y := y ++ fence) in *.
      assert (HYne : Y <> []).
      { unfold Y. rewrite fence_backticks. now destruct y. }
      assert (Hs' : (c :: P) ++ (body ++ Q) = (X ++ g) ++ (Y ++ rest))
        by (rewrite Hs; now rewrite <- !app_assoc).
      clear Hs.
      apply app_eq_app in Hs' as [l [[HP' Hrest] | [HXg Hrest]]].
      * (* the capture ends before the object *)
        apply app_eq_app in Hrest as [l2 [[HY Hb] | [Hl Hr]]].
        -- destruct l2 as [|a l2].
           ++ rewrite app_nil_r in HY. change ([] ++ rest) with rest in Hb.
              subst l rest.
              rewrite HP' in HP.
              apply Forall_app in HP as [HP _].
              apply Forall_app in HP as [_ Hg].
              destruct (Hbase Q HQ) as (P' & Q' & E' & HP'' & HQ').
              rewrite E'.
              exists (g ++ P'), Q'. rewrite <- app_assoc.
              split; [reflexivity|]. split; [|exact HQ'].
              apply Forall_app; now split.
           ++ exfalso.
              destruct (@body_starts (a :: l2) Q rest Hb) as (l' & El);
                [discriminate|].
              rewrite El in HY. rewrite HY in Hy.
              now apply braceFree_no_lbrace in Hy.
        -- subst l rest. rewrite HP' in HP.
           apply Forall_app in HP as [HP Hl].
           apply Forall_app in HP as [_ Hg].
           apply Forall_app in Hl as [_ Hl2].
           destruct (IH l2 Q) as (P' & Q' & E' & HP'' & HQ'); auto.
           { apply (f_equal (@List.length _)) in HP'.
             rewrite !length_app in HP'. unfold X in HP'.
             cbn [List.length] in HP'. lia. }
           rewrite E'. exists (g ++ P'), Q'. rewrite <- app_assoc.
           split; [reflexivity|]. split; [|exact HQ'].
           apply Forall_app; now split.
      * (* the capture reaches the object *)
        destruct l as [|a l].
        { exfalso. change ([] ++ Y ++ rest) with (Y ++ rest) in Hrest.
          destruct (@body_starts Y Q rest Hrest HYne) as (l' & El).
          rewrite El in Hy. now apply (@braceFree_no_lbrace [] l') in Hy. }
        destruct (@body_starts (a :: l) Q (Y ++ rest) Hrest) as (l0 & El);
          [discriminate|].
        assert (Hsplit : exists l3, c :: P = X ++ l3 /\ g = l3 ++ a :: l).
        { apply app_eq_app in HXg as [l3 [[HX Hl] | [HP' Hg]]].
          - destruct l3 as [|b l3].
            + exists []. rewrite app_nil_r in HX. cbn [app] in Hl.
              split; [now rewrite app_nil_r|now symmetry].
            + exfalso. rewrite El in Hl. cbn [app] in Hl.
              injection Hl as Hb _. subst b. rewrite HX in Hx.
              now apply braceFree_no_lbrace in Hx.
          - exists l3. now split. }
        destruct Hsplit as (l3 & HP' & Hg).
        assert (Hl3 : Forall braceFree l3).
        { rewrite HP' in HP. now apply Forall_app in HP as [_ HP]. }
        assert (Hthrough : forall l4, a :: l = body ++ l4 ->
                                      Q = l4 ++ Y ++ rest ->
                  exists P' Q',
                    g ++ replaceFences 0 rest = P' ++ body ++ Q' /\
                    Forall braceFree P' /\ Forall braceFree Q').
        { intros l4 El4 EQ. rewrite EQ in HQ.
          apply Forall_app in HQ as [Hl4 HQ].
          apply Forall_app in HQ as [_ Hr].
          exists l3, (l4 ++ replaceFences 0 rest).
          rewrite Hg, El4, <- !app_assoc.
          split; [reflexivity|]. split; [exact Hl3|].
          apply Forall_app; split; [exact Hl4|].
          now apply replaceFences_braceFree. }
        apply app_eq_app in Hrest as [l4 [[Hb HYr] | [Hl HQ']]].
        -- destruct l4 as [|b l4].
           ++ rewrite app_nil_r in Hb. change ([] ++ Q) with Q in HYr.
              apply (Hthrough []); [now rewrite app_nil_r|now symmetry].
           ++ exfalso.
              destruct (@body_ends (a :: l) (b :: l4) Hb) as (l' & El');
                [discriminate|].
              rewrite El' in HYr.
              apply app_eq_app in HYr as [l5 [[HY _] | [Hl4 _]]].
              ** rewrite HY in Hy. rewrite <- app_assoc in Hy.
                 now apply braceFree_no_rbrace in Hy.
              ** assert (Hinc : includes body fence = true).
                 { rewrite Hb, El', Hl4. unfold Y.
                   rewrite <- !app_assoc.
                   rewrite (app_assoc (a :: l) y).
                   apply includes_middle. }
                 congruence.
        -- now apply (Hthrough l4).
    + (* no match starts here *)
      change ((c :: P) ++ body ++ Q) with (c :: P ++ body ++ Q) in E |- *.
      cbn [replaceFences]. rewrite E.
      apply Forall_cons_iff in HP as [Hc HP].
      destruct (IH P Q) as (P' & Q' & E' & HP' & HQ'); auto; [lia|].
      rewrite E'. exists (c :: P'), Q'.
      split; [reflexivity|]. split; [now constructor|exact HQ'].
Qed.

(** ** First brace, last brace *)

Lemma indexOf_first_brace (p t : jsstring) :
  Forall braceFree p ->
  indexOf (p ++ lbrace :: t) (lit "{") = Z.of_nat (List.length p).
Proof.
  intros Hp. induction Hp as [|c p (Hc & _) _ IH].
  - reflexivity.
  - cbn [app indexOf List.length].
    assert (Hs : startsWith (c :: p ++ lbrace :: t) (lit "{") = false).
    { unfold startsWith. change (lit "{") with [lbrace]. cbn [dropPrefix].
      destruct (N.eqb lbrace c) eqn:E; [|reflexivity].
      apply N.eqb_eq in E. congruence. }
    rewrite Hs, IH.
    destruct (Z.of_nat (List.length p) <? 0)%Z eqn:E; lia.
Qed.

Lemma lastIndexOf_no_brace (q : jsstring) :
  Forall braceFree q -> lastIndexOf q (lit "}") = (-1)%Z.
Proof.
  intros Hq. induction Hq as [|c q (_ & Hc) _ IH]; [reflexivity|].
  cbn [lastIndexOf]. rewrite IH. cbn [Z.leb Z.compare].
  unfold startsWith. change (lit "}") with [rbrace]. cbn [dropPrefix].
  destruct (N.eqb rbrace c) eqn:E; [|reflexivity].
  apply N.eqb_eq in E. congruence.
Qed.

Lemma lastIndexOf_last_brace (x q : jsstring) :
  Forall braceFree q ->
  lastIndexOf (x ++ rbrace :: q) (lit "}") = Z.of_nat (List.length x).
Proof.
  intros Hq. induction x as [|c x IH].
  - cbn [app lastIndexOf List.length]. now rewrite lastIndexOf_no_brace.
  - cbn [app lastIndexOf List.length]. rewrite IH.
    destruct (0 <=? Z.of_nat (List.length x))%Z eqn:E; lia.
Qed.

(** The candidate span of a text in which the object stands between texts
    without braces is the object, whatever fences the text holds. *)
Lemma extractJsonString_core (P Q : jsstring) :
  Forall braceFree P -> Forall braceFree Q ->
  (exists P' Q',
      stripped (P ++ body ++ Q) = P' ++ body ++ Q' /\
      Forall braceFree P' /\ Forall braceFree Q') /\
  extractJsonString (P ++ body ++ Q) = body.
Proof.
  intros HP HQ.
  assert (Htrim1 : trim (P ++ body ++ Q) = trimStart P ++ body ++ trimEnd Q)
    by (apply trim_solid; reflexivity).
  destruct (@replaceFences_core (List.length (trimStart P)) (trimStart P)
              (trimEnd Q) (le_n _) (Forall_trimStart HP) (Forall_trimEnd HQ))
    as (P1 & Q1 & Hrep & HP1 & HQ1).
  assert (Htrim2 : trim (P1 ++ body ++ Q1) = trimStart P1 ++ body ++ trimEnd Q1)
    by (apply trim_solid; reflexivity).
  assert (Hstripped : stripped (P ++ body ++ Q)
                      = trimStart P1 ++ body ++ trimEnd Q1).
  { unfold stripped. now rewrite Htrim1, Hrep, Htrim2. }
  set (p' := trimStart P1) in *. set (q' := trimEnd Q1) in *.
  assert (Hp' : Forall braceFree p') by now apply Forall_trimStart.
  assert (Hq' : Forall braceFree q') by now apply Forall_trimEnd.
  split; [exists p', q'; auto|].
  unfold extractJsonString. fold (stripped (P ++ body ++ Q)).
  rewrite Hstripped.
  assert (Hstart : indexOf (p' ++ body ++ q') (lit "{")
                   = Z.of_nat (List.length p'))
    by (apply indexOf_first_brace; assumption).
  assert (Hend : lastIndexOf (p' ++ body ++ q') (lit "}")
                 = Z.of_nat (List.length (p' ++ lbrace :: mid))).
  { replace (p' ++ body ++ q') with ((p' ++ lbrace :: mid) ++ rbrace :: q')
      by (cbn [app]; rewrite <- !app_assoc; reflexivity).
    now apply lastIndexOf_last_brace. }
  rewrite Hstart, Hend.
  rewrite length_app. cbn [List.length].
  assert (Hcond :
            negb (Z.of_nat (List.length p') =? -1)%Z
            && negb (Z.of_nat (List.length p' + S (List.length mid)) =? -1)%Z
            && (Z.of_nat (List.length p' + S (List.length mid))
                >? Z.of_nat (List.length p'))%Z = true).
  { rewrite !andb_true_iff, !negb_true_iff, !Z.eqb_neq, Z.gtb_ltb, Z.ltb_lt.
    lia. }
  rewrite Hcond.
  replace (Z.of_nat (List.length p' + S (List.length mid)) + 1)%Z
    with (Z.of_nat (List.length p' + List.length body))
    by (cbn [List.length]; rewrite length_app; cbn [List.length]; lia).
  apply substring_middle.
Qed.

End Core.

End StripFacts.

(** C7 (counterexample).  The answer wraps a valid JSON object whose
    description contains three back-ticks.  The fence pattern matches from
    the opening fence to the back-ticks inside the string, so the candidate
    span is not the embedded JSON, and the returned description differs from
    the embedded one. *)
Lemma C7_counterexample :
  let w := worldOf [succeed (answer (fencedAnswer backtickText))] in
  JSON_parse w backtickText = Some backtickValue /\
  sanitizeText (get backtickValue (Name "description")) (lit "Receipt scan")
    = lit "a```b" /\
  extractJsonString (fencedAnswer backtickText) = strippedText /\
  strippedText <> backtickText /\
  exists r, fst (run (scanReceipt w upload)) = Normal r /\
            description r = lit "ab".
Proof.
  intros w.
  split; [vm_compute; reflexivity|]. split; [vm_compute; reflexivity|].
  split; [vm_compute; reflexivity|].
  split; [intros H; apply str_eqb_eq in H; vm_compute in H; discriminate|].
  eexists. split; [vm_compute; reflexivity|]. vm_compute. reflexivity.
Qed.

Lemma braceFree_forallb (s : jsstring) :
  forallb (fun c => negb (N.eqb c lbrace) && negb (N.eqb c rbrace)) s = true ->
  Forall braceFree s.
Proof.
  intros H. apply Forall_forall. intros c Hc.
  rewrite forallb_forall in H. specialize (H c Hc).
  apply andb_true_iff in H as [H1 H2].
  apply negb_true_iff, N.eqb_neq in H1, H2. now split.
Qed.

(** Braces in the prose around the block move the candidate span: it starts
    at the first brace of the prose, does not decode, and the call returns
    the default result. *)
Example brace_in_prose_widens_the_span :
  let w := worldOf [succeed (answer (bracedProse receiptText))] in
  extractJsonString (bracedProse receiptText) <> receiptText /\
  fst (run (scanReceipt w upload)) = Normal (formatNotRecognized w).
Proof.
  intros w. split; [|vm_compute; reflexivity].
  intros H. apply str_eqb_eq in H. vm_compute in H. discriminate.
Qed.

(** C7 (amended).  Given an answer text that wraps a JSON object in a fenced
    code block (prose, the opening fence, any tag, white space, the object,
    white space, the closing fence, prose) where prose and tag hold no brace
    and the object's text contains no run of three back-ticks: after the
    fences are replaced and the text trimmed, the object's text is still
    there between texts without braces, so the candidate span from the first
    brace to the last brace is exactly the object's text; when moreover the
    prose holds no back-tick and the tag is empty or [json], the replace
    leaves exactly prose, object, prose.  The call returns the validated
    fields of the decoded object, with the converted date (the current time
    when the date is absent or falsy), when converting its date does not
    throw, and the fixed default result when it throws. *)
Theorem C7_fenced_answer
        (w : World) (formData : FormData) (pre : list jsstring) (ep : jsstring)
        (post : list jsstring) (p : json)
        (before tag ws1 mid ws2 after : jsstring)
        (members : list (jsstring * json)) :
  let body := lbrace :: mid ++ [rbrace] in
  let data := JObj members in
  let text := fenced before tag ws1 body ws2 after in
  accepted w formData = true ->
  endpointsToTry = pre ++ ep :: post ->
  allFail w pre ->
  payloadOf (outcomeOf w ep) = Some p ->
  truthy_json p = true \/ pre = [] ->
  fst (extractText w p []) = Normal (JStr text) ->
  Forall braceFree before -> Forall braceFree tag -> Forall braceFree after ->
  Forall blank ws1 -> Forall blank ws2 ->
  includes body fence = false ->
  JSON_parse w body = Some data ->
  (exists P Q, stripped text = P ++ body ++ Q /\
               Forall braceFree P /\ Forall braceFree Q) /\
  (Forall plain before -> Forall plain after -> tag = [] \/ tag = lit "json" ->
   replaceFences 0 text = before ++ body ++ after) /\
  extractJsonString text = body /\
  (forall d,
     (exists v, get data (Name "date") = Some v /\ truthy_json v = true /\
                new_Date w v = Normal d) \/
     ((forall v, get data (Name "date") = Some v -> truthy_json v = false) /\
      d = ValidDate (now w)) ->
     fst (run (scanReceipt w formData)) =
     Normal (mkResult (sanitizeAmount data) d
               (sanitizeText (get data (Name "description")) (lit "Receipt scan"))
               (sanitizeText (get data (Name "merchantName"))
                             (lit "Unknown merchant"))
               (sanitizeCategory w data))) /\
  (forall v e,
     get data (Name "date") = Some v -> truthy_json v = true ->
     new_Date w v = Throw e ->
     fst (run (scanReceipt w formData)) = Normal (formatNotRecognized w)).
Proof.
  intros body data text. subst text data body.
  intros Hacc Heps Hpre Hp Hkeep Htext Hb Htag Ha Hws1 Hws2 Hno Hparse.
  assert (Hshape : fenced before tag ws1 (lbrace :: mid ++ [rbrace]) ws2 after
                   = (before ++ fence ++ tag ++ ws1) ++ (lbrace :: mid ++ [rbrace])
                     ++ (ws2 ++ fence ++ after)).
  { unfold fenced. now rewrite <- !app_assoc. }
  assert (HP : Forall braceFree (before ++ fence ++ tag ++ ws1)).
  { repeat (apply Forall_app; split); auto using braceFree_fence.
    eapply Forall_impl; [|exact Hws1]. apply blank_braceFree. }
  assert (HQ : Forall braceFree (ws2 ++ fence ++ after)).
  { repeat (apply Forall_app; split); auto using braceFree_fence.
    eapply Forall_impl; [|exact Hws2]. apply blank_braceFree. }
  destruct (@extractJsonString_core mid Hno _ _ HP HQ) as [Hstripped Hspan].
  rewrite <- Hshape in Hstripped, Hspan.
  split; [exact Hstripped|]. split.
  { intros Hb' Ha' Htag'. now apply replaceFences_fenced. }
  split; [exact Hspan|].
  rewrite (@scanReceipt_kept w formData pre ep post p Hacc Heps Hpre Hp Hkeep).
  cbn [fst].
  pose proof (@resultOfPayload_text w p _ Htext) as H.
  rewrite Hspan in H.
  unfold parseAndValidate, tryCatch in H. rewrite Hparse in H.
  unfold sanitize, bind in H.
  split.
  - intros d Hd.
    assert (Hdate : sanitizeDate w (JObj members) [] = (Normal d, [])).
    { unfold sanitizeDate.
      destruct Hd as [(v & Hget & Ht & Hv) | [Hfalsy ->]].
      - rewrite Hget, Ht. unfold lift. now rewrite Hv.
      - destruct (get (JObj members) (Name "date")) as [v|]; [|reflexivity].
        now rewrite (Hfalsy v eq_refl). }
    rewrite Hdate in H. unfold ret in H.
    f_equal. now injection H as <-.
  - intros v e Hget Ht Hv.
    rewrite (@sanitizeDate_throws w (JObj members) v e [] Hget Ht Hv) in H.
    unfold ret in H. f_equal. now injection H as <-.
Qed.

Lemma C7_fenced_answer_witness :
  let w := worldOf [succeed (answer (chattyAnswer receiptText))] in
  extractJsonString (chattyAnswer receiptText) = receiptText /\
  fst (run (scanReceipt w upload)) =
  Normal (mkResult (Number_of twelve) (ValidDate 1703462400000)
            (lit "Grocery shopping") (lit "Store Name") (lit "groceries")).
Proof.
  intros w.
  pose (mid := removelast (tl receiptText)).
  assert (Hbody : receiptText = lbrace :: mid ++ [rbrace])
    by (vm_compute; reflexivity).
  destruct (@C7_fenced_answer w upload [] (nth 0 endpointsToTry [])
              (tl endpointsToTry) (answer (chattyAnswer receiptText))
              (lit "Here is `the` data: ") (lit "JSON") [newline] mid [newline]
              (lit " done")
              [ (lit "amount", JNum twelve);
                (lit "date", JStr (lit isoDate));
                (lit "description", JStr (lit "Grocery shopping"));
                (lit "merchantName", JStr (lit "Store Name"));
                (lit "category", JStr (lit "groceries")) ])
    as (_ & _ & Hspan & Hrun & _).
  - reflexivity.
  - reflexivity.
  - intros ep [].
  - reflexivity.
  - now left.
  - rewrite <- Hbody. reflexivity.
  - apply braceFree_forallb. vm_compute. reflexivity.
  - apply braceFree_forallb. vm_compute. reflexivity.
  - apply braceFree_forallb. vm_compute. reflexivity.
  - repeat constructor.
  - repeat constructor.
  - rewrite <- Hbody. vm_compute. reflexivity.
  - rewrite <- Hbody. vm_compute. reflexivity.
  - rewrite <- Hbody in Hspan. split; [exact Hspan|].
    rewrite (Hrun (ValidDate 1703462400000)).
    + vm_compute. reflexivity.
    + left. exists (JStr (lit isoDate)). now repeat split.
Defined.


(* ================================================================== *)
(** * Further properties of scanReceipt and of the scanner widget *)
(* ================================================================== *)

Section TextFieldFacts.

Variable w : World.

Lemma sanitizeText_nonempty (x : value) (placeholder : jsstring) :
  placeholder <> [] -> sanitizeText x placeholder <> [].
Proof.
  intros Hp. unfold sanitizeText.
  destruct x as [[]|]; try exact Hp.
  destruct (trim s) eqn:E; [exact Hp|discriminate].
Qed.

(** The text fields of the three kinds of result. *)
Lemma parseAndValidate_nonempty (jsonString : jsstring) (l l' : NetLog)
      (r : ExtractionResult) :
  parseAndValidate w jsonString l = (Normal r, l') ->
  description r <> [] /\ merchantName r <> [].
Proof.
  destruct (parseAndValidate_cases w jsonString l)
    as [E|(data & d & _ & _ & _ & E)]; rewrite E; intros [= <- _]; cbn.
  - split; discriminate.
  - split; apply sanitizeText_nonempty; discriminate.
Qed.

End TextFieldFacts.

(** X1.  Whatever the input and the endpoints do, the result of
    [scanReceipt] has a non-empty description, merchant name and category. *)
Theorem X1_text_fields_nonempty (w : World) (formData : FormData) :
  exists r requests,
    run (scanReceipt w formData) = (Normal r, requests) /\
    description r <> [] /\ merchantName r <> [] /\ category r <> [].
Proof.
  destruct (scanReceipt_wellFormed w formData) as (r & l & E & _ & Hcat).
  exists r, l. split; [exact E|].
  assert (Hc : category r <> []).
  { destruct Hcat as [->|[H _]]; [discriminate|exact H]. }
  destruct (scanReceipt_returns w formData []) as (r' & l' & E' & Hpath).
  unfold run in E. rewrite E in E'. injection E' as <- <-.
  destruct Hpath as [Htry|(e & _ & ->)].
  - apply scanReceipt_try_Normal in Htry as (s0 & l1 & Hp).
    apply parseAndValidate_nonempty in Hp as [Hd Hm]. auto.
  - repeat split; try exact Hc; cbn; discriminate.
Qed.

(** X2.  When the table has expense categories and none of their ids
    contains a comma, splitting the joined id string gives the ids back, and a
    parsed category string is kept exactly when it is a non-empty expense id
    (or is the sentinel itself). *)
Theorem X2_category_list_round_trip (w : World) :
  expenseCategoryIds w <> [] ->
  (forall id, In id (expenseCategoryIds w) -> commaFree id) ->
  validCategoryList w = expenseCategoryIds w /\
  (forall data c,
      get data (Name "category") = Some (JStr c) ->
      (sanitizeCategory w data = c <->
       (c <> [] /\ In c (expenseCategoryIds w)) \/ c = sentinel)).
Proof.
  intros Hne Hfree.
  assert (Hlist : validCategoryList w = expenseCategoryIds w)
    by (unfold validCategoryList, validExpenseCategories; now apply split_join).
  split; [exact Hlist|].
  intros data c Hget. unfold sanitizeCategory. rewrite Hget, Hlist.
  unfold Array_includes.
  destruct (truthy_json (JStr c) && existsb (str_eqb c) (expenseCategoryIds w))
    eqn:E.
  - apply andb_true_iff in E as [Ht Hin]. apply existsb_str_eqb in Hin.
    split; [intros _; left; split; [now destruct c|exact Hin]|reflexivity].
  - split; [intros <-; now right|].
    intros [[Hc Hin]| ->]; [|reflexivity].
    exfalso. apply existsb_str_eqb in Hin. rewrite Hin, andb_true_r in E.
    now destruct c.
Qed.

Lemma X2_category_list_round_trip_witness :
  let w := worldOf [] in
  validCategoryList w = [ lit "groceries"; lit "travel"; lit "other-expense" ].
Proof.
  intros w.
  destruct (@X2_category_list_round_trip w) as [H _].
  - discriminate.
  - intros id Hin. vm_compute in Hin.
    destruct Hin as [<-|[<-|[<-|[]]]]; vm_compute; intuition discriminate.
  - rewrite H. reflexivity.
Defined.

(** X3.  When the table has no expense category, the list the code
    validates against holds only the empty string, and every call returns
    the sentinel category: no parsed category is ever kept. *)
Theorem X3_no_expense_category (w : World) (formData : FormData) :
  expenseCategoryIds w = [] ->
  validCategoryList w = [ [] ] /\
  exists r requests,
    run (scanReceipt w formData) = (Normal r, requests) /\
    category r = sentinel.
Proof.
  intros Hnone.
  assert (Hlist : validCategoryList w = [ [] ]).
  { unfold validCategoryList, validExpenseCategories. now rewrite Hnone. }
  split; [exact Hlist|].
  destruct (scanReceipt_wellFormed w formData) as (r & l & E & _ & Hcat).
  exists r, l. split; [exact E|].
  destruct Hcat as [H|[Hne Hin]]; [exact H|].
  rewrite Hlist in Hin. destruct Hin as [Hin|[]]. congruence.
Qed.

Lemma X3_no_expense_category_witness :
  let w := incomeOnly (worldOf [succeed (answer receiptText)]) in
  expenseCategoryIds w = [] /\
  exists r requests,
    run (scanReceipt w upload) = (Normal r, requests) /\ category r = sentinel.
Proof.
  intros w. split; [reflexivity|].
  apply (@X3_no_expense_category w upload). reflexivity.
Defined.


Section CandidateSpanFacts.

Lemma startsWith_char (c x : code_unit) (s : jsstring) :
  startsWith (x :: s) [c] = N.eqb c x.
Proof. unfold startsWith. cbn [dropPrefix]. now destruct (N.eqb c x). Qed.

(** [indexOf] of a one-code-unit pattern: absent, or the first occurrence. *)
Lemma indexOf_char_spec (c : code_unit) (s : jsstring) :
  (indexOf s [c] = (-1)%Z /\ ~ In c s) \/
  (exists a t, s = a ++ c :: t /\
               indexOf s [c] = Z.of_nat (List.length a) /\ ~ In c a).
Proof.
  induction s as [|x s IH].
  - left. split; [reflexivity|intros []].
  - cbn [indexOf]. rewrite startsWith_char.
    destruct (N.eqb c x) eqn:E.
    + apply N.eqb_eq in E. subst x. right. exists [], s.
      repeat split. intros [].
    + apply N.eqb_neq in E.
      destruct IH as [[-> Hno]|(a & t & -> & -> & Hno)].
      * left. split; [reflexivity|]. intros [H|H]; [congruence|contradiction].
      * right. exists (x :: a), t. repeat split.
        -- destruct (Z.of_nat (List.length a) <? 0)%Z eqn:L; cbn [List.length]; lia.
        -- intros [H|H]; [congruence|contradiction].
Qed.

(** [lastIndexOf] of a one-code-unit pattern: absent, or the last
    occurrence. *)
Lemma lastIndexOf_char_spec (c : code_unit) (s : jsstring) :
  (lastIndexOf s [c] = (-1)%Z /\ ~ In c s) \/
  (exists x q, s = x ++ c :: q /\
               lastIndexOf s [c] = Z.of_nat (List.length x) /\ ~ In c q).
Proof.
  induction s as [|y s IH].
  - left. split; [reflexivity|intros []].
  - cbn [lastIndexOf]. rewrite startsWith_char.
    destruct IH as [[-> Hno]|(x & q & -> & -> & Hno)].
    + cbn [Z.leb Z.compare].
      destruct (N.eqb c y) eqn:E.
      * apply N.eqb_eq in E. subst y. right. exists [], s. now repeat split.
      * apply N.eqb_neq in E. left. split; [reflexivity|].
        intros [H|H]; [congruence|contradiction].
    + right. exists (y :: x), q. repeat split; [|exact Hno].
      destruct (0 <=? Z.of_nat (List.length x))%Z eqn:L; cbn [List.length]; lia.
Qed.

Lemma app_split_longer (c : code_unit) (a t x u : jsstring) :
  a ++ c :: t = x ++ u -> (List.length a < List.length x)%nat ->
  exists mid, x = a ++ c :: mid /\ t = mid ++ u.
Proof.
  revert x. induction a as [|y a IH]; intros x E L.
  - destruct x as [|z x]; [cbn in L; lia|].
    cbn in E. injection E as -> ->. now exists x.
  - destruct x as [|z x]; [cbn in L; lia|].
    cbn in E. injection E as -> E. cbn in L.
    destruct (IH x E) as (mid & -> & ->); [lia|]. now exists mid.
Qed.

Lemma first_occurrence_le (c : code_unit) (a t a' t' : jsstring) :
  ~ In c a -> a ++ c :: t = a' ++ c :: t' ->
  (List.length a <= List.length a')%nat.
Proof.
  intros Hno E.
  destruct (Nat.le_gt_cases (List.length a) (List.length a')) as [H|H];
    [exact H|].
  symmetry in E.
  destruct (@app_split_longer c a' t' a (c :: t) E H) as (mid & -> & _).
  exfalso. apply Hno. apply in_or_app. right. now left.
Qed.

Lemma last_occurrence_ge (c : code_unit) (x q y q' : jsstring) :
  ~ In c q -> x ++ c :: q = y ++ c :: q' ->
  (List.length y <= List.length x)%nat.
Proof.
  intros Hno E.
  destruct (Nat.le_gt_cases (List.length y) (List.length x)) as [H|H];
    [exact H|].
  destruct (@app_split_longer c x q y (c :: q') E H) as (mid & _ & ->).
  exfalso. apply Hno. apply in_or_app. right. now left.
Qed.

(** The two cases of lines 381-386. *)
Lemma extractJsonString_cases (text : jsstring) :
  (exists a mid b,
      stripped text = a ++ (lbrace :: mid ++ [rbrace]) ++ b /\
      ~ In lbrace a /\ ~ In rbrace b /\
      extractJsonString text = lbrace :: mid ++ [rbrace]) \/
  (~ hasBraceSpan (stripped text) /\ extractJsonString text = stripped text).
Proof.
  unfold extractJsonString. fold (stripped text).
  set (s := stripped text).
  change (lit "{") with [lbrace]. change (lit "}") with [rbrace].
  destruct (indexOf_char_spec lbrace s) as [[Hs Hno]|(a & t & Ea & Hs & Hnoa)].
  { right. rewrite Hs. cbn [Z.eqb negb andb]. split; [|reflexivity].
    intros (a' & mid' & b' & E). apply Hno. rewrite E.
    apply in_or_app. right. now left. }
  destruct (lastIndexOf_char_spec rbrace s) as [[He Hno]|(x & q & Ex & He & Hnoq)].
  { right. rewrite He, andb_false_r. cbn [andb]. split; [|reflexivity].
    intros (a' & mid' & b' & E). apply Hno. rewrite E.
    apply in_or_app. right. right. apply in_or_app. right. now left. }
  rewrite Hs, He.
  assert (Hc1 : negb (Z.of_nat (List.length a) =? -1)%Z = true)
    by (apply negb_true_iff, Z.eqb_neq; lia).
  assert (Hc2 : negb (Z.of_nat (List.length x) =? -1)%Z = true)
    by (apply negb_true_iff, Z.eqb_neq; lia).
  rewrite Hc1, Hc2. cbn [andb].
  destruct (Z.of_nat (List.length x) >? Z.of_nat (List.length a))%Z eqn:G.
  - left. rewrite Z.gtb_ltb in G. apply Z.ltb_lt in G.
    assert (E : a ++ lbrace :: t = x ++ rbrace :: q) by congruence.
    destruct (@app_split_longer lbrace a t x (rbrace :: q) E ltac:(lia))
      as (mid & -> & ->).
    exists a, mid, q. repeat split; try assumption.
    + rewrite Ea. cbn [app]. now rewrite <- app_assoc.
    + replace s with (a ++ (lbrace :: mid ++ [rbrace]) ++ q)
        by (rewrite Ea; cbn [app]; now rewrite <- app_assoc).
      replace (Z.of_nat (List.length (a ++ lbrace :: mid)) + 1)%Z
        with (Z.of_nat (List.length a + List.length (lbrace :: mid ++ [rbrace])))
        by (cbn [List.length]; rewrite !length_app; cbn [List.length]; lia).
      apply substring_middle.
  - right. split; [|reflexivity].
    rewrite Z.gtb_ltb in G. apply Z.ltb_ge in G.
    intros (a' & mid' & b' & E).
    assert (L1 : (List.length a <= List.length a')%nat).
    { apply (@first_occurrence_le lbrace a t a' (mid' ++ rbrace :: b') Hnoa).
      congruence. }
    assert (L2 : (List.length (a' ++ lbrace :: mid') <= List.length x)%nat).
    { apply (@last_occurrence_ge rbrace x q (a' ++ lbrace :: mid') b' Hnoq).
      rewrite <- Ex, E. now rewrite <- app_assoc. }
    rewrite length_app in L2. cbn [List.length] in L2. lia.
Qed.

End CandidateSpanFacts.

(** X4.  The candidate JSON span of an answer text: when the trimmed,
    fence-stripped text has an opening brace somewhere before a closing
    brace, the candidate is the piece from its first opening brace to its
    last closing brace; otherwise the candidate is the whole text. *)
Theorem X4_candidate_span (text : jsstring) :
  (hasBraceSpan (stripped text) ->
   exists a mid b,
     stripped text = a ++ (lbrace :: mid ++ [rbrace]) ++ b /\
     ~ In lbrace a /\ ~ In rbrace b /\
     extractJsonString text = lbrace :: mid ++ [rbrace]) /\
  (~ hasBraceSpan (stripped text) -> extractJsonString text = stripped text).
Proof.
  destruct (extractJsonString_cases text) as [H|[Hno E]].
  - split; [intros _; exact H|].
    intros Hno. exfalso. apply Hno.
    destruct H as (a & mid & b & E & _). exists a, mid, b.
    rewrite E. cbn [app]. now rewrite <- app_assoc.
  - split; [intros H; contradiction|intros _; exact E].
Qed.

Lemma X4_candidate_span_witness :
  let text := lit "  Sure } here: {a} and {b} - done" in
  hasBraceSpan (stripped text) /\
  extractJsonString text = lit "{a} and {b}".
Proof.
  intros text.
  assert (Hspan : hasBraceSpan (stripped text)).
  { exists (lit "Sure } here: "), (lit "a} and {b"), (lit " - done").
    vm_compute. reflexivity. }
  split; [exact Hspan|].
  destruct (X4_candidate_span text) as [H _].
  destruct (H Hspan) as (a & mid & b & _ & _ & _ & E).
  rewrite E. rewrite <- E. vm_compute. reflexivity.
Defined.

(* ------------------------------------------------------------------ *)

Section WidgetFacts.

Variable w : World.

Lemma classify_errorResult (e : Error) : classify (errorResult w e) = ErrorPath.
Proof.
  rewrite classify_unfold. cbn [description errorResult].
  assert (H : errorMarked (lit "Error: " ++ message e
                           ++ lit ". Please manually enter receipt details.")
              = true).
  { unfold errorMarked. apply orb_true_iff. left.
    change (lit "Error: ") with (lit "Error:" ++ lit " ").
    rewrite <- app_assoc. apply includes_start, startsWith_app. }
  now rewrite H.
Qed.

Lemma scanReceipt_requests_nonempty (formData : FormData) :
  accepted w formData = true ->
  snd (run (scanReceipt w formData)) <> [].
Proof.
  intros Hacc. rewrite (@scanReceipt_requests_accepted w formData Hacc).
  destruct (endpoints_split w endpointsToTry)
    as [Hall|(pre & ep & post & p & Heps & Hpre & Hp)].
  - rewrite (@tryEndpoints_allFail w endpointsToTry Hall). discriminate.
  - rewrite Heps.
    rewrite (@tryEndpoints_firstSuccess w pre ep post p Hpre Hp).
    cbn [snd app]. now destruct pre.
Qed.

End WidgetFacts.

(** X5.  What the user sees for a failed scan: whenever the body of
    [scanReceipt] throws (a rejected input, all endpoints failing, any other
    exception), the widget shows the error toast and still hands the returned
    result to [onScanComplete]; for the default result of an answer that did
    not decode it shows the "format not recognized" info toast. *)
Theorem X5_failures_reach_the_user (w : World) (formData : FormData) :
  (forall e requests,
      run (scanReceipt_try w formData) = (Throw e, requests) ->
      exists r,
        run (scanReceipt w formData) = (Normal r, requests) /\
        scanEffect (Some r) false =
        [ toast_error (lit "AI service unavailable. Please manually enter receipt details.");
          onScanComplete r ]) /\
  scanEffect (Some (formatNotRecognized w)) false =
  [ onScanComplete (formatNotRecognized w);
    toast_info (lit "Receipt scanned but format not recognized. Please manually enter details.") ].
Proof.
  split; [|reflexivity].
  intros e requests H. exists (errorResult w e). split.
  - unfold run, scanReceipt, tryCatch in *. now rewrite H.
  - unfold scanEffect. cbn [negb]. now rewrite classify_errorResult.
Qed.

Lemma X5_failures_reach_the_user_witness :
  let w := worldOf [] in
  exists r,
    run (scanReceipt w upload) = (Normal r, map (urlOf w) endpointsToTry) /\
    scanEffect (Some r) false =
    [ toast_error (lit "AI service unavailable. Please manually enter receipt details.");
      onScanComplete r ].
Proof.
  intros w.
  destruct (X5_failures_reach_the_user w upload) as [H _].
  apply (H (new_Error (lit "fetch failed"))). vm_compute. reflexivity.
Defined.

(** X6.  The size check of the widget and the one of the action agree: a
    file over 5 MB is refused by the widget with a toast and never sent; a
    file the widget sends arrives as the [file] entry of the form, passes the
    action's file checks, and with a configured credential the call goes on
    to the endpoints. *)
Theorem X6_client_and_server_size_checks (w : World) (file : File) :
  match Widget.handleReceiptScan file with
  | Widget.Refused events =>
      oversize (FileEntry file) = true /\
      events = [ toast_error (lit "File size should be less than 5MB") ]
  | Widget.Sent formData =>
      formData_get formData (lit "file") = Some (FileEntry file) /\
      oversize (FileEntry file) = false /\
      accepted w formData = negb (unconfigured w) /\
      (unconfigured w = false -> snd (run (scanReceipt w formData)) <> [])
  end.
Proof.
  unfold Widget.handleReceiptScan.
  destruct (N.ltb (5 * 1024 * 1024) (file_size file)) eqn:E.
  - split; [exact E|reflexivity].
  - assert (Hacc : accepted w [ (lit "file", FileEntry file) ]
                   = negb (unconfigured w)).
    { unfold accepted, unconfigured. cbn [formData_get].
      change (str_eqb (lit "file") (lit "file")) with true. cbn iota.
      apply N.ltb_ge in E. apply N.leb_le in E.
      destruct (GEMINI_API_KEY w) as [[|c k]|]; try reflexivity.
      exact E. }
    repeat split; [exact E|exact Hacc|].
    intros Hk. apply scanReceipt_requests_nonempty. rewrite Hacc, Hk. reflexivity.
Qed.

Lemma X6_client_and_server_size_checks_witness :
  let w := worldOf [succeed (answer receiptText)] in
  unconfigured w = false /\
  snd (run (scanReceipt w [ (lit "file", FileEntry photo) ])) <> [].
Proof.
  intros w. split; [reflexivity|].
  pose proof (X6_client_and_server_size_checks w photo) as H.
  change (Widget.handleReceiptScan photo)
    with (Widget.Sent [ (lit "file", FileEntry photo) ]) in H.
  destruct H as (_ & _ & _ & H). apply H. reflexivity.
Defined.


(* ================================================================== *)
(** * listGeminiModels and testGeminiAPI *)
(* ================================================================== *)

Module GeminiFacts.
Import Gemini.

Lemma unconfigured_key (w : World) :
  match GEMINI_API_KEY w with Some (_ :: _) => false | _ => true end
  = unconfigured w.
Proof. reflexivity. Qed.

(** The run of [listGeminiModels], case by case. *)
Lemma listGeminiModels_run (w : World) :
  run (listGeminiModels w) =
  if unconfigured w
  then (Normal (errorObject (lit "GEMINI_API_KEY is not configured")), [])
  else
    (Normal
       (match fetch w (modelsUrl (apiKey w)) with
        | Rejected e => errorObject (message e)
        | Resolved r =>
            if ok r then
              match body_json r with
              | Normal data => data
              | Throw e => errorObject (message e)
              end
            else errorObject (lit "Failed to fetch models: "
                              ++ String_of_N (status r) ++ lit " "
                              ++ statusText r)
        end),
     [modelsUrl (apiKey w)]).
Proof.
  unfold run, listGeminiModels, await_fetch. run_eff.
  rewrite unconfigured_key.
  destruct (unconfigured w); [reflexivity|].
  destruct (fetch w (modelsUrl (apiKey w))) as [e|r]; [reflexivity|].
  destruct (ok r); [|reflexivity].
  now destruct (body_json r).
Qed.

(** X7.  [listGeminiModels] never throws and makes at most one request.
    Without a credential it returns [{ error }] with the configuration
    message and makes no request; a rejected request or an undecodable body
    returns the error's message, a non-2xx response returns
    "Failed to fetch models: <status> <statusText>", and a 2xx response
    returns the decoded body. *)
Theorem X7_listGeminiModels_outcomes (w : World) :
  let url := modelsUrl (apiKey w) in
  (exists r requests,
      run (listGeminiModels w) = (Normal r, requests) /\
      (List.length requests <= 1)%nat) /\
  (unconfigured w = true ->
   run (listGeminiModels w) =
   (Normal (errorObject (lit "GEMINI_API_KEY is not configured")), [])) /\
  (unconfigured w = false ->
   forall e, fetch w url = Rejected e ->
   run (listGeminiModels w) = (Normal (errorObject (message e)), [url])) /\
  (unconfigured w = false ->
   forall r, fetch w url = Resolved r -> ok r = false ->
   run (listGeminiModels w) =
   (Normal (errorObject (lit "Failed to fetch models: " ++ String_of_N (status r)
                         ++ lit " " ++ statusText r)), [url])) /\
  (unconfigured w = false ->
   forall r, fetch w url = Resolved r -> ok r = true ->
   run (listGeminiModels w) =
   (Normal (match body_json r with
            | Normal data => data
            | Throw e => errorObject (message e)
            end), [url])).
Proof.
  intros url. rewrite listGeminiModels_run. fold url.
  repeat split.
  - destruct (unconfigured w); eexists; eexists;
      (split; [reflexivity|cbn [List.length]; lia]).
  - now intros ->.
  - now intros -> e ->.
  - now intros -> r -> ->.
  - now intros -> r -> ->.
Qed.

Lemma X7_listGeminiModels_outcomes_witness :
  run (listGeminiModels noKeyWorld) =
  (Normal (errorObject (lit "GEMINI_API_KEY is not configured")), []).
Proof.
  destruct (X7_listGeminiModels_outcomes noKeyWorld) as (_ & H & _).
  apply H. reflexivity.
Defined.

(** ** The loop over the models *)

Section ProbeFacts.

Variables (w : World) (sdk : Sdk).

Lemma probe_verdict (m : jsstring) (l : Asked) :
  probe w sdk m l = (Normal (verdict w sdk m), l ++ [m]).
Proof.
  unfold probe, verdict, ask. run_eff.
  destruct (generateText sdk m) as [text|e]; [|reflexivity].
  destruct (negb (indexOf text (lit "{") =? -1)%Z
            && negb (lastIndexOf text (lit "}") =? -1)%Z); [|reflexivity].
  now destruct (JSON_parse w _).
Qed.

Lemma tryModels_none_works (models : list jsstring) :
  (forall m, In m models -> verdict w sdk m <> Works) ->
  forall st l,
    tryModels w sdk models st l =
    (Normal (mkTest (workingModel st)
                    (lastProbeError w sdk models (lastTestError st))),
     l ++ models).
Proof.
  induction models as [|m rest IH]; intros Hnone st l.
  - cbn. unfold ret. rewrite app_nil_r. now destruct st.
  - cbn [tryModels]. unfold bind at 1. rewrite probe_verdict.
    assert (Hm : verdict w sdk m <> Works) by (apply Hnone; now left).
    assert (Hrest : forall x, In x rest -> verdict w sdk x <> Works)
      by (intros x Hx; apply Hnone; now right).
    cbn [lastProbeError fold_left].
    destruct (verdict w sdk m) as [| |e]; [contradiction| |];
      rewrite (IH Hrest); cbn [workingModel lastTestError];
      rewrite <- app_assoc; reflexivity.
Qed.

Lemma tryModels_first_works (pre : list jsstring) (m : jsstring)
      (post : list jsstring) :
  (forall x, In x pre -> verdict w sdk x <> Works) ->
  verdict w sdk m = Works ->
  forall st l,
    tryModels w sdk (pre ++ m :: post) st l =
    (Normal (mkTest (Some m) (lastProbeError w sdk pre (lastTestError st))),
     l ++ pre ++ [m]).
Proof.
  induction pre as [|x pre IH]; intros Hpre Hm st l.
  - cbn [app tryModels]. unfold bind at 1. rewrite probe_verdict, Hm.
    reflexivity.
  - cbn [app tryModels]. unfold bind at 1. rewrite probe_verdict.
    assert (Hx : verdict w sdk x <> Works) by (apply Hpre; now left).
    assert (Hrest : forall y, In y pre -> verdict w sdk y <> Works)
      by (intros y Hy; apply Hpre; now right).
    cbn [lastProbeError fold_left].
    destruct (verdict w sdk x) as [| |e]; [contradiction| |];
      rewrite (IH Hrest Hm); cbn [workingModel lastTestError];
      rewrite <- app_assoc; reflexivity.
Qed.

Lemma lastProbeError_NoJson (models : list jsstring) (init : option Error) :
  (forall m, In m models -> verdict w sdk m = NoJson) ->
  lastProbeError w sdk models init = init.
Proof.
  revert init. induction models as [|m rest IH]; intros init H; [reflexivity|].
  cbn [lastProbeError fold_left]. rewrite (H m (or_introl eq_refl)).
  apply IH. intros x Hx. apply H. now right.
Qed.

End ProbeFacts.

(** X8.  [testGeminiAPI] never throws.  Without a credential it reports the
    configuration message and asks no model.  Otherwise it asks the models
    in the fixed order and stops at the first one whose answer has both
    braces with a decodable span between them, reporting that model; when no
    model works it reports the message of the last error thrown, or
    "No models available" when the models only gave answers without
    braces. *)
Theorem X8_testGeminiAPI_outcomes (w : World) (sdk : Sdk) :
  (exists r asked, testGeminiAPI w sdk [] = (Normal r, asked)) /\
  (unconfigured w = true ->
   testGeminiAPI w sdk [] =
   (Normal (TestFailed (lit "GEMINI_API_KEY is not configured")), [])) /\
  (unconfigured w = false ->
   forall pre m post,
     modelsToTry = pre ++ m :: post ->
     (forall x, In x pre -> verdict w sdk x <> Works) ->
     verdict w sdk m = Works ->
     testGeminiAPI w sdk [] = (Normal (TestSucceeded m), pre ++ [m])) /\
  (unconfigured w = false ->
   (forall m, In m modelsToTry -> verdict w sdk m <> Works) ->
   testGeminiAPI w sdk [] =
   (Normal (TestFailed
              (match lastProbeError w sdk modelsToTry None with
               | Some e => message e
               | None => lit "No models available"
               end)), modelsToTry)) /\
  (unconfigured w = false ->
   (forall m, In m modelsToTry -> verdict w sdk m = NoJson) ->
   testGeminiAPI w sdk [] =
   (Normal (TestFailed (lit "No models available")), modelsToTry)).
Proof.
  assert (Hnone : unconfigured w = false ->
            (forall m, In m modelsToTry -> verdict w sdk m <> Works) ->
            testGeminiAPI w sdk [] =
            (Normal (TestFailed
                       (match lastProbeError w sdk modelsToTry None with
                        | Some e => message e
                        | None => lit "No models available"
                        end)), modelsToTry)).
  { intros Hk Hall. unfold testGeminiAPI, tryCatch, bind at 1.
    rewrite unconfigured_key, Hk. unfold ret at 1, bind at 1.
    rewrite (@tryModels_none_works w sdk modelsToTry Hall).
    cbn [workingModel lastTestError app].
    now destruct (lastProbeError w sdk modelsToTry None). }
  repeat split.
  - unfold testGeminiAPI.
    match goal with
    | |- context [tryCatch ?m _ []] =>
        destruct (tryCatch_ret_Normal m (fun e => TestFailed (message e)) [])
          as (r & l & E)
    end.
    eauto.
  - intros Hk. unfold testGeminiAPI, tryCatch, bind at 1.
    now rewrite unconfigured_key, Hk.
  - intros Hk pre m post Heq Hpre Hm.
    unfold testGeminiAPI, tryCatch, bind at 1.
    rewrite unconfigured_key, Hk. unfold ret at 1, bind at 1.
    rewrite Heq, (@tryModels_first_works w sdk pre m post Hpre Hm). reflexivity.
  - exact Hnone.
  - intros Hk Hall. rewrite Hnone; [|exact Hk|].
    + now rewrite (@lastProbeError_NoJson w sdk modelsToTry None Hall).
    + intros m Hin. rewrite (Hall m Hin). discriminate.
Qed.

Lemma X8_testGeminiAPI_outcomes_witness :
  let w := worldOf [] in
  testGeminiAPI w sampleSdk [] =
  (Normal (TestSucceeded (lit "gemini-pro-vision")), modelsToTry).
Proof.
  intros w.
  destruct (X8_testGeminiAPI_outcomes w sampleSdk) as (_ & _ & H & _).
  apply (H eq_refl [lit "gemini-1.5-flash"; lit "gemini-1.5-pro"]
           (lit "gemini-pro-vision") []).
  - reflexivity.
  - intros x [<-|[<-|[]]]; vm_compute; discriminate.
  - vm_compute. reflexivity.
Defined.

End GeminiFacts.


(* ================================================================== *)
(** * Further properties of the dashboard actions *)
(* ================================================================== *)

Section OrderFacts.

Context {A : Type} (k : A -> Z).

Lemma insertDesc_In (x y : A) (l : list A) :
  In y (insertDesc k x l) <-> y = x \/ In y l.
Proof.
  induction l as [|z l IH]; cbn [insertDesc].
  - cbn. intuition.
  - destruct (k z <? k x)%Z; cbn [In]; [intuition|].
    rewrite IH. intuition.
Qed.

Lemma orderByDesc_In (y : A) (l : list A) :
  In y (orderByDesc k l) <-> In y l.
Proof.
  unfold orderByDesc. induction l as [|x l IH]; [reflexivity|].
  cbn [fold_right In]. rewrite insertDesc_In, IH. intuition.
Qed.

Lemma insertDesc_length (x : A) (l : list A) :
  List.length (insertDesc k x l) = S (List.length l).
Proof.
  induction l as [|z l IH]; cbn [insertDesc]; [reflexivity|].
  destruct (k z <? k x)%Z; cbn [List.length]; [reflexivity|now rewrite IH].
Qed.

Lemma orderByDesc_length (l : list A) :
  List.length (orderByDesc k l) = List.length l.
Proof.
  unfold orderByDesc. induction l as [|x l IH]; [reflexivity|].
  cbn [fold_right]. now rewrite insertDesc_length, IH.
Qed.

Lemma insertDesc_Sorted (x : A) (l : list A) :
  Sorted (newerFirst k) l -> Sorted (newerFirst k) (insertDesc k x l).
Proof.
  induction l as [|z l IH]; intros Hs; cbn [insertDesc].
  - repeat constructor.
  - destruct (k z <? k x)%Z eqn:E.
    + constructor; [exact Hs|]. constructor. unfold newerFirst.
      apply Z.ltb_lt in E. lia.
    + apply Z.ltb_ge in E. inversion Hs as [|? ? Hl Hhd]; subst.
      constructor; [now apply IH|].
      destruct l as [|u l]; cbn [insertDesc].
      * constructor. exact E.
      * destruct (k u <? k x)%Z; constructor; [exact E|].
        now inversion Hhd.
Qed.

Lemma orderByDesc_Sorted (l : list A) : Sorted (newerFirst k) (orderByDesc k l).
Proof.
  unfold orderByDesc. induction l as [|x l IH]; [constructor|].
  cbn [fold_right]. now apply insertDesc_Sorted.
Qed.

End OrderFacts.

Section ReaderRows.

Variables (env : Env) (db : Database) (clerkId : jsstring) (user : User).
Hypothesis signedIn : signedInAs env db clerkId user.

Lemma getUserAccounts_rows :
  fail_account_findMany env = None ->
  getUserAccounts env db =
  (Normal (map (serializeAccountRow env)
             (map (fun a =>
                     mkAccountWithCount a
                       (List.length
                          (filter (fun t => str_eqb (tx_accountId t) (acc_id a))
                                  (transactions db))))
                  (orderByDesc acc_createdAt (accountsOf (user_id user) db)))),
   db).
Proof.
  destruct signedIn as (Hauth & Hne & Hfu & Hfind). intros Hfm.
  unfold getUserAccounts, bind at 1.
  rewrite (@requireUser_signedIn env db clerkId Hauth Hne).
  unfold user_findUnique, account_findMany_counted, accountsOf. run_eff.
  now rewrite Hfu, Hfind, Hfm.
Qed.


End ReaderRows.

Lemma Sorted_map {A B} (f : A -> B) (R : B -> B -> Prop) (l : list A) :
  Sorted (fun x y => R (f x) (f y)) l -> Sorted R (map f l).
Proof.
  induction 1 as [|x l Hs IH Hhd]; cbn [map]; constructor; [exact IH|].
  destruct Hhd; cbn [map]; constructor. assumption.
Qed.




(* ------------------------------------------------------------------ *)

Section CreateAccountFacts.

Variables (env : Env) (data : AccountInput) (db : Database).

(** The run of [createAccount] for a signed-in user whose record exists. *)
Lemma createAccount_signedIn (clerkId : jsstring) (user : User) :
  signedInAs env db clerkId user ->
  let should := decideDefault (seenAccounts env (user_id user) db) data in
  let db1 := afterClearing env (user_id user) should db in
  let a := newAccount env (user_id user) data should in
  createAccount env data db =
  match protect env with
  | Throw e => (Throw (new_Error (message e)), db)
  | Normal DeniedRateLimit =>
      (Throw (new_Error (lit "Too many requests. Please try again later.")), db)
  | Normal DeniedOther => (Throw (new_Error (lit "Request blocked")), db)
  | Normal Allowed =>
      if isNaN (parseFloat env (in_balance data))
      then (Throw (new_Error (lit "Invalid balance amount")), db)
      else match fail_account_create env with
           | Some _ =>
               (Throw (new_Error
                         (lit "Failed to create account. Database connection issue.")),
                db1)
           | None => (Normal (serializeAccount env a), added a db1)
           end
  end.
Proof.
  intros (Hauth & Hne & Hfu & Hfind).
  unfold createAccount, createAccount_try, requireUser, user_findUnique,
    account_findMany, account_updateMany_clearDefault, account_create.
  run_eff. rewrite Hauth.
  destruct clerkId as [|c u]; [contradiction|].
  destruct (protect env) as [[| |]|e]; try reflexivity.
  rewrite Hfu, Hfind.
  destruct (isNaN _); [reflexivity|].
  unfold seenAccounts, afterClearing, decideDefault, newAccount, cleared, added.
  destruct (fail_account_findMany env); cbn beta iota zeta.
  - destruct (fail_account_updateMany env), (fail_account_create env);
      reflexivity.
  - destruct (filter _ (accounts db)); cbn beta iota zeta.
    + destruct (fail_account_updateMany env), (fail_account_create env);
        reflexivity.
    + destruct (in_isDefault data); cbn beta iota zeta;
        destruct (fail_account_updateMany env), (fail_account_create env);
        reflexivity.
Qed.

Lemma clearDefault_idem (a : Account) : clearDefault (clearDefault a) = clearDefault a.
Proof. reflexivity. Qed.

Lemma cleared_forget (u : jsstring) :
  map clearDefault (accounts (cleared u db)) = map clearDefault (accounts db).
Proof.
  unfold cleared; cbn. rewrite map_map. apply map_ext. intros a.
  now destruct (ownedBy u a && acc_isDefault a).
Qed.

Lemma afterClearing_forget (u : jsstring) (should : bool) :
  users (afterClearing env u should db) = users db /\
  transactions (afterClearing env u should db) = transactions db /\
  map clearDefault (accounts (afterClearing env u should db))
  = map clearDefault (accounts db).
Proof.
  unfold afterClearing. destruct should; [|now repeat split].
  destruct (fail_account_updateMany env); [now repeat split|].
  repeat split. apply cleared_forget.
Qed.

Lemma afterClearing_keeps_plain (u : jsstring) (should : bool) (a : Account) :
  In a (accounts db) -> acc_isDefault a = false ->
  In a (accounts (afterClearing env u should db)).
Proof.
  intros Hin Hd. unfold afterClearing. destruct should; [|exact Hin].
  destruct (fail_account_updateMany env); [exact Hin|].
  unfold cleared; cbn. apply in_map_iff. exists a. split; [|exact Hin].
  now rewrite Hd, andb_false_r.
Qed.

Lemma accountsOf_cleared_other (u u' : jsstring) :
  u' <> u -> accountsOf u' (cleared u db) = accountsOf u' db.
Proof.
  intros Hne. unfold accountsOf, cleared; cbn.
  induction (accounts db) as [|a l IH]; [reflexivity|]. cbn [map filter].
  destruct (ownedBy u a && acc_isDefault a) eqn:E.
  - apply andb_true_iff in E as [Ho _]. apply ownedBy_true in Ho.
    assert (H1 : ownedBy u' (clearDefault a) = false)
      by (unfold ownedBy, clearDefault; cbn; apply str_eqb_neq; congruence).
    assert (H2 : ownedBy u' a = false)
      by (unfold ownedBy; apply str_eqb_neq; congruence).
    now rewrite H1, H2.
  - now rewrite IH.
Qed.

End CreateAccountFacts.

(** X10.  What [createAccount] does to the store, whatever fails: users and
    transactions are never touched; no account is removed and every existing
    account keeps its id, owner, name, type, balance and creation time (only
    a default flag can be cleared); exactly one account is added when the
    call returns and none when it throws; accounts that are not default stay
    as they are; and the accounts of every user other than the caller stay
    as they are. *)
Theorem X10_createAccount_store_effects
        (env : Env) (data : AccountInput) (db : Database) :
  let res := fst (createAccount env data db) in
  let db' := snd (createAccount env data db) in
  users db' = users db /\
  transactions db' = transactions db /\
  map clearDefault (accounts db') =
    map clearDefault (accounts db)
    ++ match res with
       | Normal s => [clearDefault (source s)]
       | Throw _ => []
       end /\
  (forall a, In a (accounts db) -> acc_isDefault a = false ->
             In a (accounts db')) /\
  (forall clerkId user u',
      signedInAs env db clerkId user -> u' <> user_id user ->
      accountsOf u' db' = accountsOf u' db).
Proof.
  intros res db'. subst res db'.
  split; [|split; [|split; [|split]]].
  - destruct (createAccount_cases env data db) as [[e E]|[user [[e E]|E]]];
      rewrite E; cbn [snd]; try reflexivity;
      [|unfold added; cbn [users]]; apply afterClearing_forget.
  - destruct (createAccount_cases env data db) as [[e E]|[user [[e E]|E]]];
      rewrite E; cbn [snd]; try reflexivity;
      [|unfold added; cbn [transactions]]; apply afterClearing_forget.
  - destruct (createAccount_cases env data db) as [[e E]|[user [[e E]|E]]];
      rewrite E; cbn [fst snd].
    + now rewrite app_nil_r.
    + rewrite app_nil_r. apply afterClearing_forget.
    + unfold added; cbn [accounts]. rewrite map_app. f_equal.
      apply afterClearing_forget.
  - intros a Hin Hd.
    destruct (createAccount_cases env data db) as [[e E]|[user [[e E]|E]]];
      rewrite E; cbn [snd]; [exact Hin| |].
    + now apply afterClearing_keeps_plain.
    + unfold added; cbn [accounts]. apply in_or_app. left.
      now apply afterClearing_keeps_plain.
  - intros clerkId user u' Hin Hne.
    rewrite (createAccount_signedIn data Hin).
    set (should := decideDefault _ data).
    assert (Hclear : accountsOf u' (afterClearing env (user_id user) should db)
                     = accountsOf u' db).
    { unfold afterClearing. destruct should; [|reflexivity].
      destruct (fail_account_updateMany env); [reflexivity|].
      now apply accountsOf_cleared_other. }
    destruct (protect env) as [[| |]|e]; cbn [snd]; try reflexivity.
    destruct (isNaN _); cbn [snd]; [reflexivity|].
    destruct (fail_account_create env); cbn [snd]; [exact Hclear|].
    rewrite accountsOf_added, Hclear.
    assert (Ho : ownedBy u' (newAccount env (user_id user) data should) = false)
      by (unfold ownedBy, newAccount; cbn; apply str_eqb_neq; congruence).
    rewrite Ho. apply app_nil_r.
Qed.

Lemma X10_createAccount_store_effects_witness :
  let env := sampleEnv None None in
  signedInAs env sharedStore (lit "clerk_alice") alice /\
  accountsOf (lit "u2") (snd (createAccount env (savings true) sharedStore))
  = [bobsAccount].
Proof.
  intros env.
  assert (Hin : signedInAs env sharedStore (lit "clerk_alice") alice).
  { repeat split; try reflexivity. discriminate. }
  split; [exact Hin|].
  destruct (X10_createAccount_store_effects env (savings true) sharedStore)
    as (_ & _ & _ & _ & H).
  rewrite (H (lit "clerk_alice") alice (lit "u2") Hin); [reflexivity|].
  intros E. apply str_eqb_eq in E. discriminate.
Defined.

(** X11.  The rejections of [createAccount]: without a session, when the
    rate limiter denies the request, when the user record is missing and
    when the balance is not a number, the call throws the corresponding
    message and the store is as it was; an error thrown by the session or by
    the rate limiter is thrown again with its message; and when the final
    insert fails the call throws "Failed to create account. Database
    connection issue." whatever the driver's error was. *)
Theorem X11_createAccount_rejections
        (env : Env) (data : AccountInput) (db : Database) :
  (auth env = Normal None \/ auth env = Normal (Some []) ->
   rejectsWith env data db (lit "Unauthorized")) /\
  (forall e, auth env = Throw e -> rejectsWith env data db (message e)) /\
  (forall clerkId, auth env = Normal (Some clerkId) -> clerkId <> [] ->
     (forall e, protect env = Throw e -> rejectsWith env data db (message e)) /\
     (protect env = Normal DeniedRateLimit ->
      rejectsWith env data db (lit "Too many requests. Please try again later.")) /\
     (protect env = Normal DeniedOther ->
      rejectsWith env data db (lit "Request blocked")) /\
     (protect env = Normal Allowed -> fail_user_findUnique env = None ->
      userMissing db clerkId ->
      rejectsWith env data db (lit "User not found")) /\
     (forall user,
         protect env = Normal Allowed -> signedInAs env db clerkId user ->
         (isNaN (parseFloat env (in_balance data)) = true ->
          rejectsWith env data db (lit "Invalid balance amount")) /\
         (isNaN (parseFloat env (in_balance data)) = false ->
          fail_account_create env <> None ->
          exists e db',
            createAccount env data db = (Throw e, db') /\
            message e = lit "Failed to create account. Database connection issue." /\
            accounts db' = accounts (afterClearing env (user_id user)
                                       (decideDefault (seenAccounts env (user_id user) db) data)
                                       db)))).
Proof.
  assert (Hearly : forall e,
             createAccount_try env data db = (Throw e, db) ->
             rejectsWith env data db (message e)).
  { intros e H. exists (new_Error (message e)).
    unfold createAccount, tryCatch. rewrite H. now split. }
  split; [|split].
  - intros H.
    apply (Hearly (new_Error (lit "Unauthorized"))).
    unfold createAccount_try, requireUser. run_eff.
    now destruct H as [-> | ->].
  - intros e H. apply Hearly.
    unfold createAccount_try, requireUser. run_eff. now rewrite H.
  - intros clerkId Hauth Hne.
    assert (Hreq : requireUser env db = (Normal clerkId, db))
      by now apply requireUser_signedIn.
    split; [|split; [|split; [|split]]].
    + intros e H. apply Hearly.
      unfold createAccount_try, bind at 1. rewrite Hreq.
      run_eff. now rewrite H.
    + intros H. apply (Hearly (new_Error _)).
      unfold createAccount_try, bind at 1. rewrite Hreq.
      run_eff. now rewrite H.
    + intros H. apply (Hearly (new_Error _)).
      unfold createAccount_try, bind at 1. rewrite Hreq.
      run_eff. now rewrite H.
    + intros H Hfu Hmiss. apply (Hearly (new_Error _)).
      unfold createAccount_try, bind at 1. rewrite Hreq.
      unfold user_findUnique. run_eff. unfold userMissing in Hmiss.
      now rewrite H, Hfu, Hmiss.
    + intros user Hp Hin. split.
      * intros Hnan. exists (new_Error (lit "Invalid balance amount")).
        rewrite (createAccount_signedIn data Hin), Hp, Hnan. now split.
      * intros Hnan Hfail.
        rewrite (createAccount_signedIn data Hin), Hp, Hnan.
        destruct (fail_account_create env); [|contradiction].
        eexists. eexists. split; [reflexivity|]. now split.
Qed.

Lemma X11_createAccount_rejections_witness :
  let env := mkEnv (Normal (Some (lit "clerk_alice"))) (Normal DeniedRateLimit)
                   None None None None None
                   (fun _ => Number_of twelve) (fun _ => mkDecimal 12 0)
                   (fun _ => Number_of twelve) (lit "a2") 2000 in
  rejectsWith env (savings true) store
              (lit "Too many requests. Please try again later.").
Proof.
  intros env.
  destruct (X11_createAccount_rejections env (savings true) store)
    as (_ & _ & H).
  destruct (H (lit "clerk_alice") eq_refl) as (_ & H2 & _); [discriminate|].
  apply H2. reflexivity.
Defined.


(* ================================================================== *)
(** * The dashboard page *)
(* ================================================================== *)

Module PageFacts.
Import Page.

Section LoadFacts.

Context {B : Type}.
Variables (env : Env) (getCurrentBudget : jsstring -> Completion B).

Lemma getUserAccounts_store (db : Database) :
  snd (getUserAccounts env db) = db.
Proof.
  unfold getUserAccounts, requireUser, user_findUnique, account_findMany_counted.
  run_eff.
  destruct (auth env) as [[[|c u]|]|e]; try reflexivity.
  destruct (fail_user_findUnique env); [reflexivity|].
  destruct (find _ (users db)); [|reflexivity].
  now destruct (fail_account_findMany env).
Qed.

Lemma getDashboardData_store (db : Database) :
  snd (getDashboardData env db) = db.
Proof.
  unfold getDashboardData, requireUser, user_findUnique, transaction_findMany.
  run_eff.
  destruct (auth env) as [[[|c u]|]|e]; try reflexivity.
  destruct (fail_user_findUnique env); [reflexivity|].
  destruct (find _ (users db)); [|reflexivity].
  now destruct (fail_transaction_findMany env).
Qed.

(** The run of the page's loading code. *)
Lemma DashboardPage_load_run (db : Database) :
  DashboardPage_load env getCurrentBudget db =
  (let accounts := valueOr (fst (getUserAccounts env db)) in
   let transactions := valueOr (fst (getDashboardData env db)) in
   let defaultAccount := find rowIsDefault accounts in
   Normal (mkPage accounts transactions defaultAccount
             (match defaultAccount with
              | Some a => budgetOf getCurrentBudget (acc_id (account (source a)))
              | None => None
              end)),
   db).
Proof.
  unfold DashboardPage_load, settle, budgetOf. run_eff.
  rewrite (surjective_pairing (getUserAccounts env db)), getUserAccounts_store.
  rewrite (surjective_pairing (getDashboardData env db)), getDashboardData_store.
  cbn [fst snd]. fold rowIsDefault.
  destruct (find rowIsDefault (valueOr (fst (getUserAccounts env db))));
    [|reflexivity].
  now destruct (getCurrentBudget _).
Qed.

End LoadFacts.

(** X12.  The loading code of the dashboard page never throws and does not
    change the store.  Its default account is the first account marked
    default in the order the action returned; the budget is requested for
    that account only, and is absent when there is no default account or the
    request throws.  Without a session, where both actions throw, the page
    has no accounts, no transactions and no budget. *)
Theorem X12_page_load_never_throws
        {B : Type} (env : Env) (getCurrentBudget : jsstring -> Completion B)
        (db : Database) :
  exists page,
    DashboardPage_load env getCurrentBudget db = (Normal page, db) /\
    page_accounts page = valueOr (fst (getUserAccounts env db)) /\
    page_transactions page = valueOr (fst (getDashboardData env db)) /\
    page_defaultAccount page = find rowIsDefault (page_accounts page) /\
    (page_defaultAccount page = None -> page_budgetData page = None) /\
    (forall a, page_defaultAccount page = Some a ->
               page_budgetData page
               = budgetOf getCurrentBudget (acc_id (account (source a)))) /\
    (auth env = Normal None \/ auth env = Normal (Some []) ->
     fst (getUserAccounts env db) = Throw (new_Error (lit "Unauthorized")) /\
     fst (getDashboardData env db) = Throw (new_Error (lit "Unauthorized")) /\
     page_accounts page = [] /\ page_transactions page = [] /\
     page_defaultAccount page = None /\ page_budgetData page = None).
Proof.
  eexists. split; [apply DashboardPage_load_run|].
  cbn [page_accounts page_transactions page_defaultAccount page_budgetData].
  split; [reflexivity|]. split; [reflexivity|]. split; [reflexivity|].
  split; [now intros ->|]. split; [now intros a ->|].
  intros Hauth.
  assert (H1 : fst (getUserAccounts env db) = Throw (new_Error (lit "Unauthorized"))).
  { unfold getUserAccounts, requireUser. run_eff. now destruct Hauth as [-> | ->]. }
  assert (H2 : fst (getDashboardData env db) = Throw (new_Error (lit "Unauthorized"))).
  { unfold getDashboardData, requireUser. run_eff. now destruct Hauth as [-> | ->]. }
  rewrite H1, H2. now repeat split.
Qed.

Lemma X12_page_load_never_throws_witness :
  let env := mkEnv (Normal None) (Normal Allowed) None None None None None
                   (fun _ => Number_of twelve) (fun _ => mkDecimal 12 0)
                   (fun _ => Number_of twelve) (lit "a2") 2000 in
  exists page,
    DashboardPage_load env (fun _ => Normal tt) store = (Normal page, store) /\
    page_accounts page = [] /\ page_transactions page = [].
Proof.
  intros env.
  destruct (X12_page_load_never_throws env (fun _ => Normal tt) store)
    as (page & E & _ & _ & _ & _ & _ & H).
  exists page. split; [exact E|].
  destruct H as (_ & _ & H1 & H2 & _); [now left|]. now split.
Defined.

(** ** After a new default account *)

Lemma find_map {A C} (f : A -> C) (p : C -> bool) (l : list A) :
  find p (map f l) = option_map f (find (fun x => p (f x)) l).
Proof.
  induction l as [|x l IH]; [reflexivity|]. cbn [map find].
  now destruct (p (f x)).
Qed.

Lemma find_only {A} (p : A -> bool) (l l' : list A) (a : A) :
  filter p l = [a] -> (forall x, In x l' <-> In x l) -> find p l' = Some a.
Proof.
  intros Hf Hsame.
  assert (Ha : In a l /\ p a = true).
  { apply filter_In. rewrite Hf. now left. }
  destruct (find p l') as [b|] eqn:E.
  - apply find_some in E as [Hb Hp]. f_equal.
    assert (Hin : In b (filter p l))
      by (apply filter_In; split; [now apply Hsame|exact Hp]).
    rewrite Hf in Hin. now destruct Hin as [<-|[]].
  - exfalso. pose proof (find_none _ _ E a) as Hn.
    rewrite (proj2 Ha) in Hn. discriminate Hn. now apply Hsame.
Qed.

Lemma filter_filter {A} (p q : A -> bool) (l : list A) :
  filter q (filter p l) = filter (fun x => p x && q x) l.
Proof.
  induction l as [|x l IH]; [reflexivity|]. cbn [filter].
  destruct (p x); cbn [filter andb]; [|exact IH].
  destruct (q x); now rewrite IH.
Qed.

(** X13.  After [createAccount] has returned a new default account (with
    the account queries and the clearing update succeeding), the dashboard
    page of the same user takes the new account as its default account and
    requests the budget of that account. *)
Theorem X13_new_default_account_on_the_page
        {B : Type} (env : Env) (getCurrentBudget : jsstring -> Completion B)
        (data : AccountInput) (db db' : Database) (clerkId : jsstring)
        (user : User) (s : Serialized Account) :
  signedInAs env db clerkId user ->
  fail_account_findMany env = None ->
  fail_account_updateMany env = None ->
  createAccount env data db = (Normal s, db') ->
  acc_isDefault (source s) = true ->
  exists page,
    DashboardPage_load env getCurrentBudget db' = (Normal page, db') /\
    option_map (fun r => account (source r)) (page_defaultAccount page)
    = Some (source s) /\
    page_budgetData page = budgetOf getCurrentBudget (acc_id (source s)).
Proof.
  intros Hin Hfm Hup Hrun Hdef.
  pose proof (createAccount_signedIn data Hin) as Hcase. cbv zeta in Hcase.
  rewrite Hrun in Hcase.
  set (should := decideDefault (seenAccounts env (user_id user) db) data) in *.
  set (a := newAccount env (user_id user) data should) in *.
  destruct (protect env) as [[| |]|e]; try discriminate.
  destruct (isNaN _); [discriminate|].
  destruct (fail_account_create env); [discriminate|].
  injection Hcase as -> ->.
  change (source (serializeAccount env a)) with a in *.
  assert (Hshould : should = true) by exact Hdef.
  set (db' := added a (afterClearing env (user_id user) should db)).
  (* the caller is still signed in, on the new store *)
  assert (Hin' : signedInAs env db' clerkId user).
  { destruct Hin as (H1 & H2 & H3 & H4). repeat split; try assumption.
    unfold db', added; cbn [users].
    destruct (afterClearing_forget env db (user_id user) should) as (-> & _).
    exact H4. }
  (* the new account is the user's only default account *)
  assert (Honly : defaultsOf (user_id user) db' = [a]).
  { unfold db'. rewrite defaultsOf_added.
    assert (Ho : ownedBy (user_id user) a = true)
      by (apply ownedBy_true; reflexivity).
    rewrite Ho. change (acc_isDefault a) with should. rewrite Hshould.
    unfold afterClearing. rewrite Hup.
    now rewrite defaultsOf_cleared_own. }
  eexists. split; [apply DashboardPage_load_run|].
  cbn [page_defaultAccount page_budgetData].
  rewrite (getUserAccounts_rows Hin' Hfm). cbn [fst valueOr].
  unfold rowIsDefault. rewrite map_map, find_map.
  cbn [source account serializeAccountRow serializeTransaction].
  assert (Hfind : find (fun x : Account => acc_isDefault x)
                       (orderByDesc acc_createdAt (accountsOf (user_id user) db'))
                  = Some a).
  { apply (@find_only _ acc_isDefault (accountsOf (user_id user) db')).
    - unfold accountsOf. rewrite filter_filter. exact Honly.
    - intros x. apply orderByDesc_In. }
  rewrite Hfind. cbn [option_map source account]. now split.
Qed.

Lemma X13_new_default_account_on_the_page_witness :
  let env := sampleEnv None None in
  exists s db' page,
    createAccount env (savings true) sharedStore = (Normal s, db') /\
    DashboardPage_load env (fun id => Normal id) db' = (Normal page, db') /\
    page_budgetData page = Some (lit "a2").
Proof.
  intros env.
  assert (Hin : signedInAs env sharedStore (lit "clerk_alice") alice).
  { repeat split; try reflexivity. discriminate. }
  destruct (createAccount env (savings true) sharedStore) as [res db'] eqn:E.
  assert (Hres : exists s, res = Normal s /\ acc_isDefault (source s) = true
                           /\ acc_id (source s) = lit "a2").
  { vm_compute in E. injection E as <- _. eexists. repeat split. }
  destruct Hres as (s & -> & Hdef & Hid).
  destruct (@X13_new_default_account_on_the_page
              _ env (fun id => Normal id) (savings true) sharedStore db'
              (lit "clerk_alice") alice s Hin eq_refl eq_refl E Hdef)
    as (page & Hload & _ & Hbudget).
  exists s, db', page. split; [reflexivity|]. split; [exact Hload|].
  rewrite Hbudget. unfold budgetOf. now rewrite Hid.
Defined.

End PageFacts.

(* ================================================================== *)
(** * The transaction actions *)
(* ================================================================== *)

Module LedgerFacts.
Import Ledger.

Ltac run_ledger :=
  cbv beta delta [bind tryCatch ret throw lift store_call db_transaction requireSome] in *;
  cbn beta iota zeta in *.

Section Lists.

Context {A : Type}.

Lemma find_none_if (p : A -> bool) (l : list A) :
  (forall x, In x l -> p x = false) -> find p l = None.
Proof.
  induction l as [|x l IH]; intros H; [reflexivity|]. cbn [find].
  rewrite (H x (or_introl eq_refl)). apply IH. intros y Hy. apply H. now right.
Qed.

Lemma In_map_if_false (p : A -> bool) (f : A -> A) (l : list A) (x : A) :
  In x l -> p x = false -> In x (map (fun y => if p y then f y else y) l).
Proof.
  intros Hin Hp. apply in_map_iff. exists x. now rewrite Hp.
Qed.

Lemma In_map_if_true (p : A -> bool) (f : A -> A) (l : list A) (x : A) :
  In x l -> p x = true -> In (f x) (map (fun y => if p y then f y else y) l).
Proof.
  intros Hin Hp. apply in_map_iff. exists x. now rewrite Hp.
Qed.

End Lists.

(** The signed amount of the code is the amount negated for an expense. *)
Lemma balanceChangeOf_signed (type : jsstring) (amount : number) :
  signedBy type amount (balanceChangeOf type amount).
Proof.
  unfold signedBy, balanceChangeOf, num_neg. split.
  - intros ->. now rewrite str_eqb_refl.
  - intros Hne. apply str_eqb_neq in Hne. now rewrite Hne.
Qed.

Lemma createTransaction_cases (env : LedgerEnv) (data : TransactionInput) (st : Store) :
  (exists e, createTransaction env data st = (Throw e, st)) \/
  (exists clerkId user account,
      signedInLedger env st clerkId user /\
      ownAccount st (ti_accountId data) (user_id user) = Some account /\
      createTransaction env data st
      = (Normal (serializeAmount env (newRow env (user_id user) data)),
         mkStore (st_users st)
                 (rebalanced (ti_accountId data)
                    (fun _ => Decimal_of (base env)
                                (num_add (toNumber (base env) (acc_balance account))
                                         (balanceChangeOf (ti_type data)
                                                          (ti_amount data))))
                    (st_accounts st))
                 (st_transactions st ++ [newRow env (user_id user) data]))).
Proof.
  unfold createTransaction, createTransaction_try, requireUser, user_findUnique,
    account_findUnique, transaction_create, account_update, signedInLedger, ownAccount.
  run_ledger.
  destruct (auth (base env)) as [[[|c u]|]|e] eqn:Ea; eauto.
  destruct (protect (base env)) as [[| |]|e] eqn:Ep; eauto.
  destruct (fail_user_findUnique (base env)) eqn:Ef; eauto.
  destruct (find _ (st_users st)) as [user|] eqn:Eu; eauto.
  destruct (fail_account_findUnique env); eauto.
  destruct (find _ (st_accounts st)) as [account|] eqn:Eacc; eauto.
  destruct (fail_transaction_create env); eauto.
  destruct (fail_account_update env); eauto.
  cbn [st_accounts st_users st_transactions].
  destruct (existsb _ _); eauto.
  right. exists (c :: u), user, account.
  repeat split; try assumption; try discriminate.
Qed.

(** X14.  [createTransaction] writes all or nothing: when it throws, also
    after the new row was written and the balance update failed, the store
    is as before.  When it returns, the caller is signed in and owns the
    account named in the input; exactly one row is added, owned by the
    caller whatever [userId] key the input carries, and returned with its
    amount as a number; the account gets the balance read before plus the
    amount, negated when the type is EXPENSE; accounts with another id,
    users and the other transactions are unchanged. *)
Theorem X14_createTransaction_all_or_nothing
        (env : LedgerEnv) (data : TransactionInput) (st : Store) :
  (forall e, fst (createTransaction env data st) = Throw e ->
             snd (createTransaction env data st) = st) /\
  (forall s, fst (createTransaction env data st) = Normal s ->
     exists clerkId user account signed,
       signedInLedger env st clerkId user /\
       ownAccount st (ti_accountId data) (user_id user) = Some account /\
       signedBy (ti_type data) (ti_amount data) signed /\
       row s = newRow env (user_id user) data /\
       amount_number s
       = toNumber (base env) (Decimal_of (base env) (ti_amount data)) /\
       row_userId (row s) = user_id user /\
       acc_userId account = user_id user /\
       snd (createTransaction env data st)
       = mkStore (st_users st)
                 (rebalanced (ti_accountId data)
                    (fun _ => Decimal_of (base env)
                                (SFadd 53 1024
                                   (toNumber (base env) (acc_balance account))
                                   signed))
                    (st_accounts st))
                 (st_transactions st ++ [row s]) /\
       In (setBalance (Decimal_of (base env)
                         (SFadd 53 1024
                            (toNumber (base env) (acc_balance account)) signed))
                      account)
          (st_accounts (snd (createTransaction env data st))) /\
       (forall a, In a (st_accounts st) -> acc_id a <> ti_accountId data ->
                  In a (st_accounts (snd (createTransaction env data st))))).
Proof.
  destruct (createTransaction_cases env data st)
    as [[e0 E] | (clerkId & user & account & Hin & Hacc & E)]; rewrite E; cbn [fst snd].
  - split; [reflexivity|]. intros s Hs. discriminate Hs.
  - split; [intros e He; discriminate He|].
    intros s Hs. injection Hs as <-.
    exists clerkId, user, account,
      (balanceChangeOf (ti_type data) (ti_amount data)).
    unfold ownAccount in Hacc.
    pose proof (find_some _ _ Hacc) as [Hmem Hhit].
    apply andb_true_iff in Hhit as [Hid Hown].
    apply str_eqb_eq in Hown.
    split; [assumption|]. split; [assumption|].
    split; [apply balanceChangeOf_signed|].
    split; [reflexivity|]. split; [reflexivity|]. split; [reflexivity|].
    split; [assumption|]. split; [reflexivity|].
    cbn [st_accounts]; unfold rebalanced. split.
    + apply (@In_map_if_true _ (fun a => str_eqb (acc_id a) (ti_accountId data))
               (fun a => setBalance
                           (Decimal_of (base env)
                              (SFadd 53 1024
                                 (toNumber (base env) (acc_balance account))
                                 (balanceChangeOf (ti_type data) (ti_amount data))))
                           a)
               (st_accounts st) account); assumption.
    + intros a Ha Hne.
      apply (@In_map_if_false _ (fun a => str_eqb (acc_id a) (ti_accountId data))
               (fun a => setBalance
                           (Decimal_of (base env)
                              (SFadd 53 1024
                                 (toNumber (base env) (acc_balance account))
                                 (balanceChangeOf (ti_type data) (ti_amount data))))
                           a)
               (st_accounts st) a); [assumption|].
      now apply str_eqb_neq.
Qed.

Lemma X14_createTransaction_all_or_nothing_witness :
  snd (createTransaction (ledgerEnv (Some connectionLost)) (coffee "a1") ledger) = ledger /\
  exists s, fst (createTransaction (ledgerEnv None) (coffee "a1") ledger) = Normal s /\
            row_userId (row s) = lit "u1" /\
            row_amount (row s) = mkDecimal 5 0 /\
            st_transactions (snd (createTransaction (ledgerEnv None) (coffee "a1") ledger))
            = [lunch; bobsRent; row s] /\
            In (setBalance (mkDecimal 7 0) checking)
               (st_accounts
                  (snd (createTransaction (ledgerEnv None) (coffee "a1") ledger))) /\
            In bobsAccount
               (st_accounts
                  (snd (createTransaction (ledgerEnv None) (coffee "a1") ledger))).
Proof.
  split.
  - destruct (X14_createTransaction_all_or_nothing
                (ledgerEnv (Some connectionLost)) (coffee "a1") ledger) as [H _].
    apply (H connectionLost). vm_compute. reflexivity.
  - eexists. split; [vm_compute; reflexivity|].
    destruct (X14_createTransaction_all_or_nothing
                (ledgerEnv None) (coffee "a1") ledger) as [_ H].
    destruct (H _ eq_refl)
      as (c & u & a & signed & (Hc & _ & _ & Hu) & Ha & Hsigned & _ & _ & _ & _
          & E & Hbal & Hother).
    vm_compute in Hc. injection Hc as <-.
    vm_compute in Hu. injection Hu as <-.
    vm_compute in Ha. injection Ha as <-.
    rewrite (proj1 Hsigned eq_refl) in Hbal.
    split; [vm_compute; reflexivity|]. split; [vm_compute; reflexivity|].
    split; [rewrite E; vm_compute; reflexivity|].
    split.
    + vm_compute in Hbal |- *. exact Hbal.
    + apply Hother; [right; left; reflexivity|].
      vm_compute. congruence.
Defined.

(** X15.  [createTransaction] refuses an account the caller does not own:
    when no account with the input's id belongs to the signed-in user, it
    throws "Account not found" and the store is as before, whoever else
    owns an account with that id. *)
Theorem X15_createTransaction_foreign_account
        (env : LedgerEnv) (data : TransactionInput) (st : Store)
        (clerkId : jsstring) (user : User) :
  signedInLedger env st clerkId user ->
  protect (base env) = Normal Allowed ->
  fail_account_findUnique env = None ->
  (forall a, In a (st_accounts st) -> acc_id a = ti_accountId data ->
             acc_userId a <> user_id user) ->
  createTransaction env data st = (Throw (new_Error (lit "Account not found")), st).
Proof.
  intros (Hauth & Hne & Hfu & Hfind) Hp Hfa Hforeign.
  assert (Hnone : find (fun a => str_eqb (acc_id a) (ti_accountId data)
                                 && str_eqb (acc_userId a) (user_id user))
                       (st_accounts st) = None).
  { apply find_none_if. intros a Ha.
    destruct (str_eqb (acc_id a) (ti_accountId data)) eqn:Eid; [|reflexivity].
    apply str_eqb_eq in Eid. cbn [andb]. apply str_eqb_neq. now apply Hforeign. }
  unfold createTransaction, createTransaction_try, requireUser, user_findUnique,
    account_findUnique.
  run_ledger. rewrite Hauth.
  destruct clerkId as [|c u]; [congruence|].
  rewrite Hp, Hfu, Hfind, Hfa, Hnone. reflexivity.
Qed.

Lemma X15_createTransaction_foreign_account_witness :
  createTransaction (ledgerEnv None) (coffee "b1") ledger
  = (Throw (new_Error (lit "Account not found")), ledger).
Proof.
  apply (@X15_createTransaction_foreign_account
           (ledgerEnv None) (coffee "b1") ledger (lit "clerk_alice") alice).
  - repeat split; try reflexivity. discriminate.
  - reflexivity.
  - reflexivity.
  - intros a [<- | [<- | []]]; vm_compute; congruence.
Defined.

(** ** getTransaction *)

(** X16.  [getTransaction] never changes the store.  What it returns is a
    stored transaction with the requested id that belongs to the signed-in
    user, with its amount as a number; when the user has no transaction
    with that id, also when another user has one, it throws "Transaction
    not found". *)
Theorem X16_getTransaction_own_rows_only
        (env : LedgerEnv) (id : jsstring) (st : Store) :
  snd (getTransaction env id st) = st /\
  (forall s, fst (getTransaction env id st) = Normal s ->
     exists clerkId user,
       signedInLedger env st clerkId user /\
       In (row s) (st_transactions st) /\
       row_id (row s) = id /\
       row_userId (row s) = user_id user /\
       amount_number s = toNumber (base env) (row_amount (row s))) /\
  (forall clerkId user,
     signedInLedger env st clerkId user ->
     fail_transaction_findUnique env = None ->
     (forall t, In t (st_transactions st) -> row_id t = id ->
                row_userId t <> user_id user) ->
     fst (getTransaction env id st) = Throw (new_Error (lit "Transaction not found"))).
Proof.
  unfold getTransaction, requireUser, user_findUnique, transaction_findUnique,
    signedInLedger.
  run_ledger.
  split; [|split].
  - destruct (auth (base env)) as [[[|c u]|]|e]; try reflexivity.
    destruct (fail_user_findUnique (base env)); [reflexivity|].
    destruct (find _ (st_users st)); [|reflexivity].
    destruct (fail_transaction_findUnique env); [reflexivity|].
    now destruct (find _ (st_transactions st)).
  - intros s.
    destruct (auth (base env)) as [[[|c u]|]|e] eqn:Ea; try discriminate.
    destruct (fail_user_findUnique (base env)) eqn:Ef; [discriminate|].
    destruct (find _ (st_users st)) as [user|] eqn:Eu; [|discriminate].
    destruct (fail_transaction_findUnique env); [discriminate|].
    destruct (find _ (st_transactions st)) as [t|] eqn:Et; [|discriminate].
    cbn [fst]. intros Hs. injection Hs as <-.
    pose proof (find_some _ _ Et) as [Hmem Hhit].
    apply andb_true_iff in Hhit as [Hid Hown].
    apply str_eqb_eq in Hid, Hown.
    exists (c :: u), user. cbn [row amount_number serializeAmount].
    repeat split; try assumption; try reflexivity. discriminate.
  - intros clerkId user (Hauth & Hne & Hfu & Hfind) Hft Hforeign.
    rewrite Hauth. destruct clerkId as [|c u]; [congruence|].
    rewrite Hfu, Hfind, Hft.
    rewrite (@find_none_if _ (fun t => str_eqb (row_id t) id
                                       && str_eqb (row_userId t) (user_id user))
               (st_transactions st)); [reflexivity|].
    intros t Ht. destruct (str_eqb (row_id t) id) eqn:Eid; [|reflexivity].
    apply str_eqb_eq in Eid. cbn [andb]. apply str_eqb_neq. now apply Hforeign.
Qed.

Lemma X16_getTransaction_own_rows_only_witness :
  (exists s, fst (getTransaction (ledgerEnv None) (lit "t1") ledger) = Normal s /\
             row s = lunch) /\
  fst (getTransaction (ledgerEnv None) (lit "t2") ledger)
  = Throw (new_Error (lit "Transaction not found")).
Proof.
  destruct (X16_getTransaction_own_rows_only (ledgerEnv None) (lit "t2") ledger)
    as (_ & _ & H).
  split.
  - eexists. split; vm_compute; reflexivity.
  - apply (H (lit "clerk_alice") alice).
    + repeat split; try reflexivity. discriminate.
    + reflexivity.
    + intros t [<- | [<- | []]]; vm_compute; congruence.
Defined.

Lemma updateTransaction_cases
      (env : LedgerEnv) (id : jsstring) (data : TransactionInput) (st : Store) :
  (exists e, updateTransaction env id data st = (Throw e, st)) \/
  (exists clerkId user original,
      signedInLedger env st clerkId user /\
      ownTransaction st id (user_id user) = Some original /\
      updateTransaction env id data st
      = (Normal (serializeAmount env (applyInput env data original)),
         mkStore (st_users st)
                 (rebalanced (ti_accountId data)
                    (fun b => increment env b
                                (num_sub
                                   (balanceChangeOf (ti_type data) (ti_amount data))
                                   (balanceChangeOf (row_type original)
                                      (toNumber (base env) (row_amount original)))))
                    (st_accounts st))
                 (map (fun t => if str_eqb (row_id t) id
                                   && str_eqb (row_userId t) (user_id user)
                                then applyInput env data t else t)
                      (st_transactions st)))).
Proof.
  unfold updateTransaction, updateTransaction_try, requireUser, user_findUnique,
    transaction_findUnique, transaction_update, account_update, signedInLedger,
    ownTransaction.
  run_ledger.
  destruct (auth (base env)) as [[[|c u]|]|e] eqn:Ea; eauto.
  destruct (fail_user_findUnique (base env)) eqn:Ef; eauto.
  destruct (find _ (st_users st)) as [user|] eqn:Eu; eauto.
  destruct (fail_transaction_findUnique env); eauto.
  destruct (find _ (st_transactions st)) as [original|] eqn:Et; eauto.
  destruct (fail_transaction_update env); cbn beta iota zeta; eauto.
  rewrite Et.
  destruct (fail_account_update env); cbn beta iota zeta; eauto.
  cbn [st_accounts st_users st_transactions].
  destruct (existsb _ _); eauto.
  right. exists (c :: u), user, original.
  repeat split; try assumption; try discriminate.
Qed.



(** ** The next recurring date *)

(** X18.  The transaction that [createTransaction] or [updateTransaction]
    returns has no next recurring date when the input is not recurring or
    has no interval or an empty one.  For a recurring input the date is the
    input's date moved by one day, seven days, one month or one year for
    DAILY, WEEKLY, MONTHLY and YEARLY, and for every other interval it is
    the input's date itself. *)
Theorem X18_next_recurring_date
        (env : LedgerEnv) (id : jsstring) (data : TransactionInput) (st : Store)
        (s : SerializedRow) :
  fst (createTransaction env data st) = Normal s \/
  fst (updateTransaction env id data st) = Normal s ->
  (ti_isRecurring data = false \/ ti_recurringInterval data = None \/
   ti_recurringInterval data = Some [] ->
   row_nextRecurringDate (row s) = None) /\
  (forall interval,
     ti_isRecurring data = true -> ti_recurringInterval data = Some interval ->
     (interval = lit "DAILY" ->
      row_nextRecurringDate (row s) = Some (addDays env 1 (ti_date data))) /\
     (interval = lit "WEEKLY" ->
      row_nextRecurringDate (row s) = Some (addDays env 7 (ti_date data))) /\
     (interval = lit "MONTHLY" ->
      row_nextRecurringDate (row s) = Some (addMonths env 1 (ti_date data))) /\
     (interval = lit "YEARLY" ->
      row_nextRecurringDate (row s) = Some (addYears env 1 (ti_date data))) /\
     (interval <> [] -> interval <> lit "DAILY" -> interval <> lit "WEEKLY" ->
      interval <> lit "MONTHLY" -> interval <> lit "YEARLY" ->
      row_nextRecurringDate (row s) = Some (ti_date data))).
Proof.
  intros Hs.
  assert (Hnext : row_nextRecurringDate (row s) = nextRecurringDate env data).
  { destruct Hs as [Hs | Hs].
    - destruct (createTransaction_cases env data st)
        as [[e0 E] | (c & u & a & _ & _ & E)]; rewrite E in Hs; cbn [fst] in Hs;
        [discriminate|]. injection Hs as <-. reflexivity.
    - destruct (updateTransaction_cases env id data st)
        as [[e0 E] | (c & u & o & _ & _ & E)]; rewrite E in Hs; cbn [fst] in Hs;
        [discriminate|]. injection Hs as <-. reflexivity. }
  rewrite Hnext. unfold nextRecurringDate. split.
  - intros [H | [H | H]]; rewrite H; [|reflexivity|reflexivity].
    now destruct (ti_recurringInterval data) as [[|c i]|].
  - intros interval Hrec Hint. rewrite Hint, Hrec.
    unfold calculateNextRecurringDate.
    split; [intros ->; reflexivity|]. split; [intros ->; reflexivity|].
    split; [intros ->; reflexivity|]. split; [intros ->; reflexivity|].
    intros Hne H1 H2 H3 H4. destruct interval as [|c i]; [congruence|].
    apply str_eqb_neq in H1, H2, H3, H4. now rewrite H1, H2, H3, H4.
Qed.

Lemma X18_next_recurring_date_witness :
  exists s,
    fst (createTransaction (ledgerEnv None) (subscription "FORTNIGHTLY") ledger)
    = Normal s /\
    row_nextRecurringDate (row s) = Some 1700%Z.
Proof.
  eexists. split; [vm_compute; reflexivity|].
  destruct (@X18_next_recurring_date (ledgerEnv None) [] (subscription "FORTNIGHTLY")
              ledger _ (or_introl eq_refl)) as [_ H].
  destruct (H (lit "FORTNIGHTLY") eq_refl eq_refl) as (_ & _ & _ & _ & Hk).
  apply Hk; vm_compute; congruence.
Defined.

(** ** getUserTransactions *)

(** X19.  For a signed-in user and a store that answers,
    [getUserTransactions] returns, newest date first and without changing
    the store, exactly the transactions that pass the filter made of the
    caller's id and the query, each once and with the account its account
    id names.  Without a [userId] key in the query these are transactions of
    the caller only; a [userId] key in the query replaces the caller's id,
    and the transactions returned are those of the user it names. *)
Theorem X19_getUserTransactions_filter
        (env : LedgerEnv) (query : Query) (st : Store)
        (clerkId : jsstring) (user : User) :
  signedInLedger env st clerkId user ->
  fail_transaction_findMany (base env) = None ->
  exists rows,
    getUserTransactions env query st = (Normal rows, st) /\
    (forall t, In t (map the_row rows) <->
               In t (st_transactions st) /\
               satisfies (whereOf (user_id user) query) t = true) /\
    Sorted (newerFirst row_date) (map the_row rows) /\
    List.length rows
    = List.length (filter (satisfies (whereOf (user_id user) query))
                          (st_transactions st)) /\
    (forall r, In r rows ->
               the_account r
               = find (fun a => str_eqb (acc_id a) (row_accountId (the_row r)))
                      (st_accounts st)) /\
    (q_userId query = None ->
     forall t, In t (map the_row rows) -> row_userId t = user_id user) /\
    (forall other, q_userId query = Some other ->
     forall t, In t (map the_row rows) -> row_userId t = other) /\
    (forall other, query = mkQuery (Some other) None None ->
     forall t, In t (st_transactions st) -> row_userId t = other ->
               In t (map the_row rows)).
Proof.
  intros (Hauth & Hne & Hfu & Hfind) Hfm.
  set (kept := orderByDesc row_date
                 (filter (satisfies (whereOf (user_id user) query)) (st_transactions st))).
  exists (map (fun t => mkRowWithAccount t
                          (find (fun a => str_eqb (acc_id a) (row_accountId t))
                                (st_accounts st))) kept).
  assert (Hrows : map the_row
                    (map (fun t => mkRowWithAccount t
                                     (find (fun a => str_eqb (acc_id a) (row_accountId t))
                                           (st_accounts st))) kept) = kept).
  { rewrite map_map. cbn [the_row]. apply map_id. }
  rewrite Hrows.
  assert (Hmem : forall t, In t kept <->
                           In t (st_transactions st) /\
                           satisfies (whereOf (user_id user) query) t = true).
  { intros t. unfold kept. rewrite orderByDesc_In. apply filter_In. }
  split; [|split; [|split; [|split; [|split; [|split; [|split]]]]]].
  - unfold getUserTransactions, requireUser, user_findUnique, transaction_findMany.
    run_ledger. rewrite Hauth. destruct clerkId as [|c u]; [congruence|].
    rewrite Hfu, Hfind, Hfm. reflexivity.
  - exact Hmem.
  - apply orderByDesc_Sorted.
  - rewrite length_map. apply orderByDesc_length.
  - intros r Hr. apply in_map_iff in Hr as (t & <- & _). reflexivity.
  - intros Hq t Ht. apply Hmem in Ht as [_ Hs].
    unfold satisfies, whereOf in Hs. rewrite Hq in Hs. cbn [q_userId] in Hs.
    apply andb_true_iff in Hs as [Hs _]. apply andb_true_iff in Hs as [Hs _].
    now apply str_eqb_eq.
  - intros other Hq t Ht. apply Hmem in Ht as [_ Hs].
    unfold satisfies, whereOf in Hs. rewrite Hq in Hs. cbn [q_userId] in Hs.
    apply andb_true_iff in Hs as [Hs _]. apply andb_true_iff in Hs as [Hs _].
    now apply str_eqb_eq.
  - intros other -> t Ht Ho. apply Hmem. split; [assumption|].
    unfold satisfies, whereOf. cbn [q_userId q_accountId q_type].
    rewrite andb_true_r, andb_true_r. now apply str_eqb_eq.
Qed.

Lemma X19_getUserTransactions_filter_witness :
  exists rows,
    getUserTransactions (ledgerEnv None) (mkQuery (Some (lit "u2")) None None) ledger
    = (Normal rows, ledger) /\
    In bobsRent (map the_row rows).
Proof.
  destruct (@X19_getUserTransactions_filter
              (ledgerEnv None) (mkQuery (Some (lit "u2")) None None) ledger
              (lit "clerk_alice") alice)
    as (rows & E & _ & _ & _ & _ & _ & _ & H).
  - repeat split; try reflexivity. discriminate.
  - reflexivity.
  - exists rows. split; [exact E|].
    apply (H (lit "u2") eq_refl); [right; left; reflexivity | reflexivity].
Defined.

End LedgerFacts.
